(** * The agent orchestration core of vibecode, embedded and verified

    The development follows the TypeScript sources under [worker/agents]:

    - [core/AgentCore.ts]: [AgentCore] and [AgentSession]
      (module [Core] below);
    - [operations/AgenticProjectBuilder.ts]: the tool-calling loop of
      [AgentOperationWithTools] and the substring-classified [withRetry]
      (module [Operations]);
    - [services/interfaces/ICodingAgent.ts]: the SSE stream reader, the
      provider chunk parsers, [truncateMessages] and the predicate-classified
      [withRetry] (module [Infer]);
    - [core/behaviors/agentic.ts]: [BaseCodingBehavior] and its build trigger
      (module [Behavior]);
    - [core/behaviors/phasic.ts]: the enumerations.

    Conventions of the embedding.  A JavaScript value of unknown type is a
    [JsValue]; a thrown value is a [Thrown]; an [async] function is a
    function in the state-and-exception monad [Eff], whose state holds what
    the function can observe or change.  Numbers that the sources use as
    counters are [nat] or [Z]; numbers that they use as fractions are
    binary64 [float]s.  Text is a [string] of characters below U+0100.

    The collaborators that the sources only know through an interface are
    modelled by their calls.  The logger, the event emitter, the state
    manager and the streaming callback are recording sinks: a call appends
    to a trace or overwrites a store entry and returns; diagnostics written
    to the logger are not recorded.  The UI renderer of the tool loop, the
    analytics collaborator and [JSON.stringify] on values of unknown type
    are called where the sources do not catch what they throw: their calls
    are recorded, and return or throw. *)

From Stdlib Require Import ZArith List String Ascii Bool Lia Floats DecimalString.
From stdpp Require Import base option list gmap strings.

Local Open Scope string_scope.
Local Open Scope list_scope.
Local Open Scope Z_scope.

(** ** JavaScript values, errors, and the effect monad *)

#[warnings="-register-all"]
Inductive JsValue : Type :=
| JUndefined
| JNull
| JBool (b : bool)
| JNum (x : float)
| JStr (s : string)
| JArr (items : list JsValue)
| JObj (fields : list (string * JsValue)).

(** An [Error] instance.  *)
Record JsError : Type := mkError { error_name : string; message : string }.

Definition new_Error (msg : string) : JsError := mkError "Error" msg.

(** Anything can be thrown: an [Error] or any other value. *)
Inductive Thrown : Type :=
| ThrownError (e : JsError)
| ThrownValue (v : JsValue).

(** [error instanceof Error ? error.message : fallback]. *)
Definition message_or (fallback : string) (t : Thrown) : string :=
  match t with
  | ThrownError e => message e
  | ThrownValue _ => fallback
  end.

Inductive Res (A : Type) : Type :=
| Ok (a : A)
| Throw (t : Thrown).
Arguments Ok {A} a.
Arguments Throw {A} t.

Definition Eff (St A : Type) : Type := St -> Res A * St.

Definition ret {St A} (a : A) : Eff St A := fun st => (Ok a, st).

Definition bind {St A B} (m : Eff St A) (k : A -> Eff St B) : Eff St B :=
  fun st =>
    match m st with
    | (Ok a, st') => k a st'
    | (Throw t, st') => (Throw t, st')
    end.

Definition throw {St A} (t : Thrown) : Eff St A := fun st => (Throw t, st).

Definition throw_new_Error {St A} (msg : string) : Eff St A :=
  throw (ThrownError (new_Error msg)).

(** [try { body } catch (error) { handler }]. *)
Definition try_catch {St A} (body : Eff St A) (handler : Thrown -> Eff St A)
  : Eff St A :=
  fun st =>
    match body st with
    | (Ok a, st') => (Ok a, st')
    | (Throw t, st') => handler t st'
    end.

(** A computation returns from [st], in a state and with a value that
    satisfy [Q]. *)
Definition returns {St A} (m : Eff St A) (Q : A -> St -> Prop) (st : St) : Prop :=
  match m st with
  | (Ok a, st') => Q a st'
  | (Throw _, _) => False
  end.

(** A computation throws [thrown] from [st], in a state that satisfies
    [Q]. *)
Definition throws {St A} (m : Eff St A) (thrown : Thrown) (Q : St -> Prop)
    (st : St) : Prop :=
  match m st with
  | (Throw t, st') => t = thrown /\ Q st'
  | (Ok _, _) => False
  end.

Definition modify {St} (f : St -> St) : Eff St unit := fun st => (Ok tt, f st).

(** The effect-free case: a computation that only returns or throws. *)
Definition res_bind {A B} (r : Res A) (k : A -> Res B) : Res B :=
  match r with
  | Ok a => k a
  | Throw t => Throw t
  end.

Definition TypeError (msg : string) : Thrown :=
  ThrownError (mkError "TypeError" msg).

Declare Scope eff_scope.
Delimit Scope eff_scope with eff.
Notation "x <- m ;; k" := (bind m (fun x => k))
  (at level 100, m at next level, right associativity) : eff_scope.
Notation "m ;;; k" := (bind m (fun _ => k))
  (at level 100, right associativity) : eff_scope.
Notation "'let?' x := r 'in' k" := (res_bind r (fun x => k))
  (at level 100, x name, r at next level, right associativity) : eff_scope.

(** ** Property access and truthiness *)

(** [ToBoolean]. *)
Definition js_truthy (v : JsValue) : bool :=
  match v with
  | JUndefined | JNull => false
  | JBool b => b
  | JNum x => negb (PrimFloat.is_nan x || PrimFloat.is_zero x)
  | JStr s => negb (String.eqb s EmptyString)
  | JArr _ | JObj _ => true
  end.

Fixpoint assoc_field (fields : list (string * JsValue)) (key : string)
  : JsValue :=
  match fields with
  | [] => JUndefined
  | (k, v) :: rest => if String.eqb k key then v else assoc_field rest key
  end.

(** [v.key] for a key that is an own data property or nothing: the read
    throws a [TypeError] on [null] and [undefined]. *)
Definition js_get (v : JsValue) (key : string) : Res JsValue :=
  match v with
  | JUndefined | JNull =>
      Throw (TypeError ("Cannot read properties of nullish value (reading '"
                          +:+ key +:+ "')"))
  | JObj fields => Ok (assoc_field fields key)
  | _ => Ok JUndefined
  end.

(** [v?.key]. *)
Definition js_get_opt (v : JsValue) (key : string) : JsValue :=
  match v with
  | JObj fields => assoc_field fields key
  | _ => JUndefined
  end.

(** [v?.[0]]: the first element of an array, the first character of a
    string, the property ["0"] of an object. *)
Definition js_first_opt (v : JsValue) : JsValue :=
  match v with
  | JArr (x :: _) => x
  | JStr (String c _) => JStr (String c EmptyString)
  | JObj fields => assoc_field fields "0"
  | _ => JUndefined
  end.

(** [a || b] on values. *)
Definition js_or (a b : JsValue) : JsValue := if js_truthy a then a else b.

(** [v === 'text']. *)
Definition js_is_string (v : JsValue) (text : string) : bool :=
  match v with
  | JStr s => String.eqb s text
  | _ => false
  end.

(** ** Strings as the sources use them *)

Definition newline : ascii := "010"%char.

(** Texts are strings of characters below U+0100, one character per code
    unit.  The white space that [String.prototype.trim] removes in that
    range: tab, line feed, vertical tab, form feed, carriage return, space,
    and the no-break space U+00A0. *)
Definition is_white_space (c : ascii) : bool :=
  let n := nat_of_ascii c in
  ((9 <=? n)%nat && (n <=? 13)%nat) || (n =? 32)%nat || (n =? 160)%nat.

(** [s.startsWith(p)]. *)
Fixpoint startsWith (s p : string) {struct p} : bool :=
  match p, s with
  | EmptyString, _ => true
  | String _ _, EmptyString => false
  | String a p', String b s' => Ascii.eqb a b && startsWith s' p'
  end.

(** [s.includes(sub)]. *)
Fixpoint includes (s sub : string) : bool :=
  startsWith s sub ||
  match s with
  | EmptyString => false
  | String _ s' => includes s' sub
  end.

(** [s.slice(n)] for a non-negative [n]. *)
Fixpoint slice_from (n : nat) (s : string) : string :=
  match n, s with
  | O, _ => s
  | S _, EmptyString => EmptyString
  | S n', String _ s' => slice_from n' s'
  end.

Fixpoint trimStart (s : string) : string :=
  match s with
  | EmptyString => EmptyString
  | String c s' => if is_white_space c then trimStart s' else s
  end.

Fixpoint trimEnd (s : string) : string :=
  match s with
  | EmptyString => EmptyString
  | String c s' =>
      match trimEnd s' with
      | EmptyString => if is_white_space c then EmptyString else String c EmptyString
      | t => String c t
      end
  end.

Definition trim (s : string) : string := trimEnd (trimStart s).

(** [s.split('\n')]: never empty; the last piece is what follows the last
    line feed. *)
Fixpoint split_newline (s : string) : list string :=
  match s with
  | EmptyString => [EmptyString]
  | String c s' =>
      if Ascii.eqb c newline then EmptyString :: split_newline s'
      else match split_newline s' with
           | piece :: pieces => String c piece :: pieces
           | [] => [String c EmptyString]
           end
  end.

(** The lower case of a character below U+0100: the letters A to Z, and
    the capital letters U+00C0 to U+00DE but for the multiplication sign
    U+00D7, are 32 places below their small letters; every other character is
    its own lower case. *)
Definition lower_char (c : ascii) : ascii :=
  let n := nat_of_ascii c in
  if ((65 <=? n)%nat && (n <=? 90)%nat)
     || ((192 <=? n)%nat && (n <=? 222)%nat && negb (n =? 215)%nat)
  then ascii_of_nat (n + 32) else c.

(** [s.toLowerCase()]. *)
Fixpoint toLowerCase (s : string) : string :=
  match s with
  | EmptyString => EmptyString
  | String c s' => String (lower_char c) (toLowerCase s')
  end.

(** Decimal rendering of a counter inside a template literal. *)
Definition string_of_nat (n : nat) : string :=
  NilEmpty.string_of_uint (Nat.to_uint n).

(** ** Conversation messages (inferutils/common, by their use in the sources) *)

Inductive Role : Type := role_system | role_user | role_assistant | role_tool.

Inductive ContentPart : Type :=
| TextPart (text : string)
| ImageUrlPart (url : string).

(** [content] is a string, or a list of parts for a message with images. *)
Inductive MessageContent : Type :=
| ContentString (s : string)
| ContentParts (parts : list ContentPart).

(** One entry of an assistant message's [tool_calls]:
    [{ id, type: 'function', function: { name, arguments } }]. *)
Record ToolCallWire : Type := mkWire {
  wire_id : JsValue;
  wire_name : JsValue;
  wire_arguments : JsValue
}.

Record Message : Type := mkMessage {
  role : Role;
  content : MessageContent;
  tool_calls : option (list ToolCallWire);
  tool_call_id : option JsValue
}.


(** ** Numbers and retry bookkeeping *)

(** [Math.min] on two numbers. *)
Definition Math_min (a b : float) : float :=
  if PrimFloat.is_nan a || PrimFloat.is_nan b then PrimFloat.nan
  else if PrimFloat.ltb a b then a
  else if PrimFloat.ltb b a then b
  else match PrimFloat.classify a with
       | NZero => a
       | _ => b
       end.

(** [Math.pow(2, attempt)] for a loop counter. *)
Fixpoint Math_pow2 (attempt : nat) : float :=
  match attempt with
  | O => 1%float
  | S k => PrimFloat.mul 2%float (Math_pow2 k)
  end.

(** [error instanceof Error ? error : new Error(String(error))]. *)
Definition to_Error (String_of : JsValue -> string) (t : Thrown) : JsError :=
  match t with
  | ThrownError e => e
  | ThrownValue v => new_Error (String_of v)
  end.

(** What a retried operation acts on, and what the wrapper leaves behind:
    the number of invocations, the delays slept (milliseconds), and the
    number of [Math.random()] draws. *)
Record RetryState (S : Type) : Type := mkRetry {
  target : S;
  invocations : nat;
  sleeps : list float;
  random_draws : nat
}.
Arguments mkRetry {S}.
Arguments target {S}.
Arguments invocations {S}.
Arguments sleeps {S}.
Arguments random_draws {S}.

(** [await operation()]. *)
Definition invoke {S T} (operation : S -> Res T * S) : Eff (RetryState S) T :=
  fun st =>
    let '(r, w) := operation (target st) in
    (r, mkRetry w (Datatypes.S (invocations st)) (sleeps st) (random_draws st)).

(** [await new Promise(r => setTimeout(r, ms))]. *)
Definition sleep {S} (ms : float) : Eff (RetryState S) unit :=
  modify (fun st => mkRetry (target st) (invocations st) (sleeps st ++ [ms])
                      (random_draws st)).

(** The final [throw lastError!]: [undefined] where the loop never ran. *)
Definition throw_last {St A} (lastError : option JsError) : Eff St A :=
  match lastError with
  | Some e => throw (ThrownError e)
  | None => throw (ThrownValue JUndefined)
  end.

(** [JSON.stringify(v)] for a [v] of type [unknown]: [undefined] for
    [undefined]; for the other values what the serialisation gives, a text
    or the error it throws. *)
Definition stringify_unknown (JSON_stringify_unknown : JsValue -> Res string)
    (v : JsValue) : Res (option string) :=
  match v with
  | JUndefined => Ok None
  | _ =>
      match JSON_stringify_unknown v with
      | Ok text => Ok (Some text)
      | Throw thrown => Throw thrown
      end
  end.

(** ** Inference utilities (services/interfaces/ICodingAgent.ts) *)

Module Infer.

(** [StreamChunk]: the payloads come out of [JSON.parse] unchecked, so
    they are carried as values. *)
Inductive StreamChunk : Type :=
| ChunkContent (text : JsValue)
| ChunkToolCall (calls : list ToolCallWire)
| ChunkComplete.

(** What a consumer of the normalized stream sees: the chunks yielded, and
    how the sequence ended ([None]: it ended; [Some e]: reading threw). *)
Record StreamRun : Type := mkRun {
  events : list StreamChunk;
  failure : option Thrown
}.

(** The response body as its reader delivers it: the decoded text of each
    [read()], then [done] or a rejected read. *)
Record Body : Type := mkBody {
  reads : list string;
  read_error : option Thrown
}.

Section Streams.

Variable JSON_parse : string -> Res JsValue.
Variable JSON_stringify : JsValue -> string.

Definition parseAnthropicChunk (data : JsValue) : Res (option StreamChunk) :=
  (let? type := js_get data "type" in
   if js_is_string type "content_block_delta"
      && js_truthy (js_get_opt (js_get_opt data "delta") "text")
   then Ok (Some (ChunkContent (js_get_opt (js_get_opt data "delta") "text")))
   else if js_is_string type "tool_use"
   then Ok (Some (ChunkToolCall
                    [mkWire (js_get_opt data "id") (js_get_opt data "name")
                       (JStr (JSON_stringify (js_get_opt data "input")))]))
   else Ok None)%eff.

(** The callback of [delta.tool_calls.map] in [parseOpenAIChunk]. *)
Definition openai_tool_call (tc : JsValue) : Res ToolCallWire :=
  (let? id := js_get tc "id" in
   let fn := js_get_opt tc "function" in
   Ok (mkWire id
         (js_or (js_get_opt fn "name") (JStr ""))
         (js_or (js_get_opt fn "arguments") (JStr ""))))%eff.

Fixpoint map_res {A B} (f : A -> Res B) (l : list A) : Res (list B) :=
  match l with
  | [] => Ok []
  | x :: rest =>
      (let? y := f x in
       let? ys := map_res f rest in
       Ok (y :: ys))%eff
  end.

Definition parseOpenAIChunk (data : JsValue) : Res (option StreamChunk) :=
  (let? choices := js_get data "choices" in
   let delta := js_get_opt (js_first_opt choices) "delta" in
   if negb (js_truthy delta) then Ok None
   else if js_truthy (js_get_opt delta "content")
   then Ok (Some (ChunkContent (js_get_opt delta "content")))
   else if js_truthy (js_get_opt delta "tool_calls")
   then match js_get_opt delta "tool_calls" with
        | JArr items =>
            let? calls := map_res openai_tool_call items in
            Ok (Some (ChunkToolCall calls))
        | _ => Throw (TypeError "delta.tool_calls.map is not a function")
        end
   else Ok None)%eff.

Definition parseGoogleChunk (data : JsValue) : Res (option StreamChunk) :=
  (let? candidates := js_get data "candidates" in
   let text :=
     js_get_opt
       (js_first_opt (js_get_opt (js_get_opt (js_first_opt candidates) "content")
                        "parts"))
       "text" in
   if js_truthy text then Ok (Some (ChunkContent text)) else Ok None)%eff.

(** [parseStreamChunk]: the switch on the provider name. *)
Definition parseStreamChunk (data : JsValue) (provider : string)
  : Res (option StreamChunk) :=
  if String.eqb provider "anthropic" then parseAnthropicChunk data
  else if String.eqb provider "openai" || String.eqb provider "cloudflare"
          || String.eqb provider "cerebras" then parseOpenAIChunk data
  else if String.eqb provider "google" then parseGoogleChunk data
  else Ok None.

(** The inner [try] of [createStreamIterator]: parse the frame and map it;
    a frame that fails either way is logged and yields nothing. *)
Definition frame_chunk (provider data : string) : option StreamChunk :=
  match (let? parsed := JSON_parse data in parseStreamChunk parsed provider)%eff with
  | Ok (Some chunk) => Some chunk
  | Ok None => None
  | Throw _ => None
  end.

(** The [for (const line of lines)] loop: the chunks it yields, and whether
    it left the generator through [return] at the sentinel. *)
Fixpoint yield_lines (provider : string) (lines : list string)
  : list StreamChunk * bool :=
  match lines with
  | [] => ([], false)
  | line :: rest =>
      if String.eqb (trim line) "" || negb (startsWith line "data:")
      then yield_lines provider rest
      else
        let data := trim (slice_from 5 line) in
        if String.eqb data "[DONE]" then ([ChunkComplete], true)
        else
          match frame_chunk provider data with
          | Some chunk =>
              let '(chunks, returned) := yield_lines provider rest in
              (chunk :: chunks, returned)
          | None => yield_lines provider rest
          end
  end.

(** [lines.pop() || ''] and what is left of [lines]. *)
Definition pop_line (lines : list string) : list string * string :=
  (removelast lines, List.last lines "").

(** The [while (true)] loop of [createStreamIterator], one [read()] per
    step, with the text not yet split into lines in [buffer]. *)
Fixpoint read_loop (provider : string) (pending : list string)
    (at_end : option Thrown) (buffer : string) : StreamRun :=
  match pending with
  | [] => mkRun [] at_end
  | value :: later =>
      let '(lines, buffer') := pop_line (split_newline (buffer +:+ value)) in
      let '(chunks, returned) := yield_lines provider lines in
      if returned then mkRun chunks None
      else
        let run := read_loop provider later at_end buffer' in
        mkRun (chunks ++ events run) (failure run)
  end.

Definition createStreamIterator (body : Body) (provider : string) : StreamRun :=
  read_loop provider (reads body) (read_error body) "".

(** The text of a whole body, whatever the reads it arrives in. *)
Definition body_text (body : Body) : string :=
  fold_right String.append "" (reads body).

(** A chunk that carries a payload: content that is truthy, or tool
    calls; the completion chunk carries none. *)
Definition payload_chunk (chunk : StreamChunk) : bool :=
  match chunk with
  | ChunkContent text => js_truthy text
  | ChunkToolCall _ => true
  | ChunkComplete => false
  end.

(** The provider names that [parseStreamChunk] has a parser for. *)
Definition parsed_providers : list string :=
  ["anthropic"; "openai"; "cloudflare"; "cerebras"; "google"].

(** A line that is the completion sentinel: a data line whose payload is
    [[DONE]]. *)
Definition is_sentinel (line : string) : bool :=
  negb (String.eqb (trim line) "" || negb (startsWith line "data:"))
  && String.eqb (trim (slice_from 5 line)) "[DONE]".

(** A line that is mapped to no chunk: blank, not a data line, or a data
    line other than the sentinel that does not parse or that
    [parseStreamChunk] maps to [null]. *)
Definition unrecognized (provider line : string) : bool :=
  String.eqb (trim line) "" || negb (startsWith line "data:")
  || (negb (String.eqb (trim (slice_from 5 line)) "[DONE]")
      && match frame_chunk provider (trim (slice_from 5 line)) with
         | Some _ => false
         | None => true
         end).

End Streams.

Section Retry.

Variable String_of : JsValue -> string.
Context {S T : Type}.

Record RetryOptions : Type := mkOptions {
  maxRetries : nat;
  baseDelay : float;
  maxDelay : float;
  shouldRetry : JsError -> bool
}.

(** The defaults of the destructured [options]. *)
Definition default_options : RetryOptions :=
  mkOptions 3 1000%float 30000%float (fun _ => true).

(** The [for] loop of [withRetry] at counter [attempt], with
    [fuel = maxRetries - attempt] turns left. *)
Fixpoint retry_from (fn : S -> Res T * S) (options : RetryOptions)
    (fuel attempt : nat) (lastError : option JsError)
  : Eff (RetryState S) T :=
  match fuel with
  | O => throw_last lastError
  | Datatypes.S fuel' =>
      try_catch (invoke fn)
        (fun error =>
           let lastError := to_Error String_of error in
           if negb (shouldRetry options lastError)
              || (attempt =? maxRetries options - 1)%nat
           then throw (ThrownError lastError)
           else
             (sleep (Math_min (PrimFloat.mul (baseDelay options)
                                 (Math_pow2 attempt))
                       (maxDelay options)) ;;;
              retry_from fn options fuel' (Datatypes.S attempt)
                (Some lastError))%eff)
  end.

Definition withRetry (fn : S -> Res T * S) (options : RetryOptions)
  : Eff (RetryState S) T :=
  retry_from fn options (maxRetries options) 0 None.

End Retry.

Section Truncation.

(** [JSON.stringify] of a message's list of content parts. *)
Variable JSON_stringify_parts : list ContentPart -> string.

(** [estimateTokens]: [Math.ceil(text.length / 4)]. *)
Definition estimateTokens (text : string) : Z :=
  (Z.of_nat (String.length text) + 3) / 4.

(** [typeof msg.content === 'string' ? msg.content :
    JSON.stringify(msg.content)]. *)
Definition content_text (msg : Message) : string :=
  match content msg with
  | ContentString s => s
  | ContentParts parts => JSON_stringify_parts parts
  end.

(** The loop of [truncateMessages], entered with [i] one above the index
    it reads next: [for (let i = messages.length - 1; i >= 0; i--)].
    The index stays below [messages.length], so [messages[i]] is always
    a message. *)
Fixpoint truncate_from (messages : list Message) (maxTokens : Z)
    (i : nat) (totalTokens : Z) (result : list Message) : list Message :=
  match i with
  | O => result
  | Datatypes.S j =>
      match messages !! j with
      | None => result
      | Some msg =>
          let tokens := estimateTokens (content_text msg) in
          if (totalTokens + tokens >? maxTokens) && (0 <? length result)%nat
          then result
          else truncate_from messages maxTokens j
                 (totalTokens + tokens) (msg :: result)
      end
  end.

Definition truncateMessages (messages : list Message) (maxTokens : Z)
  : list Message :=
  truncate_from messages maxTokens (length messages) 0 [].

(** The estimate of one message, and the summed estimate of a list of
    messages: what [totalTokens] holds once the loop has taken them all. *)
Definition message_tokens (msg : Message) : Z :=
  estimateTokens (content_text msg).

Definition total_tokens (messages : list Message) : Z :=
  fold_right (fun msg sum => message_tokens msg + sum) 0 messages.

End Truncation.

End Infer.

(** ** Tool-calling operations (operations/AgenticProjectBuilder.ts) *)

Module Operations.

Import Infer.

(** Maximum tool call iterations to prevent infinite loops. *)
Definition MAX_TOOL_ITERATIONS : nat := 50.

(** Maximum time for operation (5 minutes). *)
Definition MAX_OPERATION_TIME_MS : Z := 5 * 60 * 1000.

Record ToolCall : Type := mkToolCall {
  id : JsValue;
  name : JsValue;
  parameters : JsValue
}.

(** The schema sent to the model for one tool. *)
Record ToolSchema : Type := mkSchema {
  schema_name : string;
  schema_description : string;
  schema_parameters : JsValue
}.

Inductive RenderStatus : Type := status_running | status_success | status_error.

(** One call of [callbacks.toolRenderer]. *)
Record RenderToolCall : Type := mkRender {
  render_name : JsValue;
  render_status : RenderStatus;
  render_args : JsValue;
  render_result : option JsValue;
  render_error : option string
}.

Inductive OperationalMode : Type := initial | followup.

Record AgentConfig : Type := mkConfig {
  agentActionName : string;
  completionSignalName : string;
  operationalMode : OperationalMode;
  allowWarningInjection : bool
}.

(** Response from streaming inference. *)
Inductive StreamResponse : Type :=
| complete (text : string)
| tool_calls_response (text : string) (toolCalls : list ToolCall)
| error_response (reason : string).

(** A message of the running history of an operation: one that the
    caller gave or the loop built as typed, or a tool message, whose
    [content] is [undefined] where [JSON.stringify] gave no string. *)
Inductive HistoryMessage : Type :=
| typed (m : Message)
| tool_reply (tool_call_id : JsValue) (content : option string).

(** What one turn of the loop of [runInferenceWithTools] ends in: the
    [return] of the result, or [continue] with the new history. *)
Inductive TurnResult : Type :=
| finished (text : string)
| continue (currentMessages : list HistoryMessage).

Section ToolLoop.

(** What the tools and the callbacks act on. *)
Variable W : Type.

Record ToolDefinition : Type := mkTool {
  tool_name : string;
  tool_description : string;
  tool_parameters : JsValue;
  execute : JsValue -> W -> Res JsValue * W
}.

(** [streamCb] and [onToolComplete] are optional; [toolRenderer] is not.
    [toolRenderer] and [onToolComplete] return or throw; [streamCb], which is
    only called inside the [try] of [streamInference], is taken to record
    the chunk and return. *)
Record ToolCallbacks : Type := mkCallbacks {
  streamCb : bool;
  toolRenderer : RenderToolCall -> W -> Res unit * W;
  onToolComplete : option (HistoryMessage -> W -> Res unit * W)
}.

(** The state of one operation: the callbacks' and the tools' world, the
    number of [Date.now()] readings and of [inferStream] calls so far, what
    went to [streamCb], and what [toolRenderer] was called with. *)
Record OpState : Type := mkOp {
  world : W;
  clock_reads : nat;
  infer_calls : nat;
  streamed : list JsValue;
  rendered : list RenderToolCall
}.

(** The two counters of a state. *)
Definition counters (st : OpState) : nat * nat :=
  (infer_calls st, clock_reads st).

(** The [n]-th reading of the clock. *)
Variable Date_now : nat -> Z.
(** The [n]-th call of [inferStream] on a message history and tool
    schemas: it throws, or hands back a stream. *)
Variable inferStream :
  nat -> list HistoryMessage -> list ToolSchema -> Res StreamRun.
Variable JSON_parse : string -> Res JsValue.
(** [JSON.stringify] on a value of type [unknown] other than [undefined]
    (a tool's result, the parameters of a call): its text, or what it
    throws on a value that it cannot write (a cycle, a BigInt). *)
Variable JSON_stringify_unknown : JsValue -> Res string.
(** String conversion of a value that is no string, as template literals,
    [+=] and [JSON.parse] apply it. *)
Variable ToString : JsValue -> string.

Definition js_string (v : JsValue) : string :=
  match v with
  | JStr s => s
  | _ => ToString v
  end.

Definition now : Eff OpState Z :=
  fun st =>
    (Ok (Date_now (clock_reads st)),
     mkOp (world st) (S (clock_reads st)) (infer_calls st) (streamed st)
       (rendered st)).

Definition call_inferStream (messages : list HistoryMessage)
    (toolSchemas : list ToolSchema) : Eff OpState StreamRun :=
  fun st =>
    (inferStream (infer_calls st) messages toolSchemas,
     mkOp (world st) (clock_reads st) (S (infer_calls st)) (streamed st)
       (rendered st)).

Definition call_streamCb (callbacks : ToolCallbacks) (text : JsValue)
  : Eff OpState unit :=
  modify (fun st =>
            if streamCb callbacks
            then mkOp (world st) (clock_reads st) (infer_calls st)
                   (streamed st ++ [text]) (rendered st)
            else st).

(** [callbacks.toolRenderer(call)]: the call is made, and returns or
    throws. *)
Definition call_toolRenderer (callbacks : ToolCallbacks)
    (call : RenderToolCall) : Eff OpState unit :=
  fun st =>
    let '(r, w) := toolRenderer callbacks call (world st) in
    (r, mkOp w (clock_reads st) (infer_calls st) (streamed st)
          (rendered st ++ [call])).

(** An awaited call into the tools' world. *)
Definition in_world {A} (f : W -> Res A * W) : Eff OpState A :=
  fun st =>
    let '(r, w) := f (world st) in
    (r, mkOp w (clock_reads st) (infer_calls st) (streamed st) (rendered st)).

Definition lift_res {A} (r : Res A) : Eff OpState A := fun st => (r, st).

(** [JSON.stringify(v)] for a [v] of type [unknown]. *)
Definition stringify (v : JsValue) : Res (option string) :=
  stringify_unknown JSON_stringify_unknown v.

(** [parseToolCalls]. *)
Definition parseToolCalls (rawToolCalls : list ToolCallWire)
  : Res (list ToolCall) :=
  map_res (fun toolCall =>
             (let? parsed := JSON_parse (js_string (wire_arguments toolCall)) in
              Ok (mkToolCall (wire_id toolCall) (wire_name toolCall) parsed))%eff)
    rawToolCalls.

(** The [for await (const chunk of stream)] loop of [streamInference] over
    the chunks of a stream, from the three accumulators. *)
Fixpoint consume (callbacks : ToolCallbacks) (chunks : list StreamChunk)
    (accumulatedContent : string) (toolCalls : list ToolCall)
    (isComplete : bool) : Eff OpState (string * list ToolCall * bool) :=
  match chunks with
  | [] => ret (accumulatedContent, toolCalls, isComplete)
  | ChunkContent text :: later =>
      (call_streamCb callbacks text ;;;
       consume callbacks later (accumulatedContent +:+ js_string text)
         toolCalls isComplete)%eff
  | ChunkToolCall calls :: later =>
      (parsed <- lift_res (parseToolCalls calls) ;;
       consume callbacks later accumulatedContent parsed isComplete)%eff
  | ChunkComplete :: later =>
      consume callbacks later accumulatedContent toolCalls true
  end.

(** The text of the content chunks of a stream, in their order: what
    [accumulatedContent] holds once the loop has seen them all. *)
Fixpoint stream_text (chunks : list StreamChunk) : string :=
  match chunks with
  | [] => ""
  | ChunkContent text :: later => js_string text +:+ stream_text later
  | _ :: later => stream_text later
  end.

(** The values of the content chunks of a stream: what [streamCb] is
    called with, one call per chunk. *)
Fixpoint stream_pieces (chunks : list StreamChunk) : list JsValue :=
  match chunks with
  | [] => []
  | ChunkContent text :: later => text :: stream_pieces later
  | _ :: later => stream_pieces later
  end.

Definition is_tool_chunk (chunk : StreamChunk) : bool :=
  match chunk with
  | ChunkToolCall _ => true
  | _ => false
  end.

Definition schema_of (t : ToolDefinition) : ToolSchema :=
  mkSchema (tool_name t) (tool_description t) (tool_parameters t).

(** [streamInference]. *)
Definition streamInference (messages : list HistoryMessage)
    (tools : list ToolDefinition) (config : AgentConfig)
    (callbacks : ToolCallbacks) : Eff OpState StreamResponse :=
  let toolSchemas := map schema_of tools in
  try_catch
    (stream <- call_inferStream messages toolSchemas ;;
     consumed <- consume callbacks (events stream) "" [] false ;;
     let '(accumulatedContent, toolCalls, isComplete) := consumed in
     match failure stream with
     | Some thrown => throw thrown
     | None =>
         if (0 <? length toolCalls)%nat
         then ret (tool_calls_response accumulatedContent toolCalls)
         else if isComplete
                 || includes accumulatedContent (completionSignalName config)
         then ret (complete accumulatedContent)
         else ret (complete accumulatedContent)
     end)%eff
    (fun thrown => ret (error_response (message_or "Unknown error" thrown))).

(** The value pushed for a call that failed: [{ error: text }]. *)
Definition error_result (text : string) : JsValue := JObj [("error", JStr text)].

(** The [try]/[catch] of one turn of [executeToolCalls], for a tool that
    was found: what [results] is after the turn.  What the renderer throws
    inside the [catch] leaves the function. *)
Definition run_tool (toolCall : ToolCall) (tool : ToolDefinition)
    (callbacks : ToolCallbacks) (results : list JsValue)
  : Eff OpState (list JsValue) :=
  try_catch
    (call_toolRenderer callbacks
       (mkRender (name toolCall) status_running (parameters toolCall) None
          None) ;;;
     result <- in_world (execute tool (parameters toolCall)) ;;
     call_toolRenderer callbacks
       (mkRender (name toolCall) status_success (parameters toolCall)
          (Some result) None) ;;;
     match onToolComplete callbacks with
     | Some notify =>
         content <- lift_res (stringify result) ;;
         in_world (notify (tool_reply (id toolCall) content))
     | None => ret tt
     end ;;;
     ret (results ++ [result]))%eff
    (fun thrown =>
       call_toolRenderer callbacks
         (mkRender (name toolCall) status_error (parameters toolCall) None
            (Some (message_or "Unknown error" thrown))) ;;;
       ret (results ++ [error_result
                          (message_or "Tool execution failed" thrown)]))%eff.

(** What the renderer can be told about one call that is run: running
    first, then success, or error, or success and then error (when the
    completion callback throws after the tool has returned). *)
Definition render_group (toolCall : ToolCall) (entries : list RenderToolCall)
  : Prop :=
  exists outcome,
    entries
    = mkRender (name toolCall) status_running (parameters toolCall) None None
      :: outcome
    /\ ((exists result,
           outcome = [mkRender (name toolCall) status_success
                        (parameters toolCall) (Some result) None])
        \/ (exists text,
              outcome = [mkRender (name toolCall) status_error
                           (parameters toolCall) None (Some text)])
        \/ (exists result text,
              outcome = [mkRender (name toolCall) status_success
                           (parameters toolCall) (Some result) None;
                         mkRender (name toolCall) status_error
                           (parameters toolCall) None (Some text)])).

(** [executeToolCalls]: the [for (const toolCall of toolCalls)] loop. *)
Fixpoint executeToolCalls_from (toolCalls : list ToolCall)
    (availableTools : list ToolDefinition) (callbacks : ToolCallbacks)
    (results : list JsValue) : Eff OpState (list JsValue) :=
  match toolCalls with
  | [] => ret results
  | toolCall :: later =>
      match find (fun t => js_is_string (name toolCall) (tool_name t))
              availableTools with
      | None =>
          executeToolCalls_from later availableTools callbacks
            (results ++ [error_result ("Tool not found: "
                                         +:+ js_string (name toolCall))])
      | Some tool =>
          (pushed <- run_tool toolCall tool callbacks results ;;
           executeToolCalls_from later availableTools callbacks pushed)%eff
      end
  end.

Definition executeToolCalls (toolCalls : list ToolCall)
    (availableTools : list ToolDefinition) (callbacks : ToolCallbacks)
  : Eff OpState (list JsValue) :=
  executeToolCalls_from toolCalls availableTools callbacks [].

(** [JSON.stringify(tc.parameters)] as the [arguments] of a recorded
    call. *)
Definition arguments_value (arguments : option string) : JsValue :=
  match arguments with
  | Some text => JStr text
  | None => JUndefined
  end.

(** The assistant message that records a batch of tool calls. *)
Definition assistant_message (text : string) (toolCalls : list ToolCall)
  : Res HistoryMessage :=
  (let? calls :=
     map_res (fun tc =>
                let? arguments := stringify (parameters tc) in
                Ok (mkWire (id tc) (name tc) (arguments_value arguments)))
       toolCalls in
   Ok (typed (mkMessage role_assistant (ContentString text) (Some calls)
                None)))%eff.

(** [typeof result === 'string' ? result : JSON.stringify(result)]. *)
Definition result_text (result : JsValue) : Res (option string) :=
  match result with
  | JStr s => Ok (Some s)
  | _ => stringify result
  end.

(** [toolResults.map((result, idx) => ...)] from index [idx] on: reading
    [response.toolCalls[idx].id] throws where the batch has no such call,
    and [JSON.stringify] where it cannot write the result. *)
Fixpoint tool_messages_from (toolCalls : list ToolCall) (idx : nat)
    (toolResults : list JsValue) : Res (list HistoryMessage) :=
  match toolResults with
  | [] => Ok []
  | result :: later =>
      match toolCalls !! idx with
      | None => Throw (TypeError "Cannot read properties of undefined (reading 'id')")
      | Some toolCall =>
          (let? content := result_text result in
           let? messages := tool_messages_from toolCalls (S idx) later in
           Ok (tool_reply (id toolCall) content :: messages))%eff
      end
  end.

Definition tool_messages (toolCalls : list ToolCall)
    (toolResults : list JsValue) : Res (list HistoryMessage) :=
  tool_messages_from toolCalls 0 toolResults.

Definition max_iterations_message : string :=
  "Max tool iterations (" +:+ string_of_nat MAX_TOOL_ITERATIONS +:+ ") exceeded".

(** The body of the [while] loop of [runInferenceWithTools]: one turn on
    the history [currentMessages].  Nothing in it is inside a [try]: what
    [executeToolCalls] or the building of the new history throws leaves
    the operation. *)
Definition turn (tools : list ToolDefinition) (config : AgentConfig)
    (callbacks : ToolCallbacks) (startTime : Z)
    (currentMessages : list HistoryMessage) : Eff OpState TurnResult :=
  (time <- now ;;
   if time - startTime >? MAX_OPERATION_TIME_MS
   then throw_new_Error "Operation timeout exceeded"
   else
     response <- streamInference currentMessages tools config callbacks ;;
     match response with
     | complete text => ret (finished text)
     | tool_calls_response text toolCalls =>
         toolResults <- executeToolCalls toolCalls tools callbacks ;;
         assistant <- lift_res (assistant_message text toolCalls) ;;
         messages <- lift_res (tool_messages toolCalls toolResults) ;;
         ret (continue (currentMessages ++ assistant :: messages))
     | error_response reason =>
         throw_new_Error ("Inference error: " +:+ reason)
     end)%eff.

(** The [while (iteration < this.MAX_TOOL_ITERATIONS)] loop of
    [runInferenceWithTools], with [fuel = MAX_TOOL_ITERATIONS - iteration]
    turns left; after the loop comes the final [throw]. *)
Fixpoint tool_loop (tools : list ToolDefinition) (config : AgentConfig)
    (callbacks : ToolCallbacks) (startTime : Z) (fuel iteration : nat)
    (currentMessages : list HistoryMessage) : Eff OpState string :=
  match fuel with
  | O => throw_new_Error max_iterations_message
  | S fuel' =>
      (outcome <- turn tools config callbacks startTime currentMessages ;;
       match outcome with
       | finished text => ret text
       | continue messages =>
           tool_loop tools config callbacks startTime fuel' (S iteration)
             messages
       end)%eff
  end.

(** [runInferenceWithTools]; the result is the [string] field of the
    [InferResponseString] it returns. *)
Definition runInferenceWithTools (messages : list Message)
    (tools : list ToolDefinition) (config : AgentConfig)
    (callbacks : ToolCallbacks) : Eff OpState string :=
  (startTime <- now ;;
   tool_loop tools config callbacks startTime MAX_TOOL_ITERATIONS 0
     (map typed messages))%eff.

(** The loop has made [n] turns from the history [messages] and the state
    [st], each of which went on to the next, and stands before its next turn
    with the history [messages'] in the state [st']. *)
Inductive iterations (tools : list ToolDefinition) (config : AgentConfig)
    (callbacks : ToolCallbacks) (startTime : Z)
  : nat -> list HistoryMessage -> OpState -> list HistoryMessage -> OpState
    -> Prop :=
| iterations_O messages st :
    iterations tools config callbacks startTime 0 messages st messages st
| iterations_S n messages st messages1 st1 messages2 st2 :
    iterations tools config callbacks startTime n messages st messages1 st1 ->
    turn tools config callbacks startTime messages1 st1
    = (Ok (continue messages2), st2) ->
    iterations tools config callbacks startTime (S n) messages st messages2 st2.

(** A renderer that returns whenever it is told of a failed call. *)
Definition reports_failures (callbacks : ToolCallbacks) : Prop :=
  forall call w,
    render_status call = status_error ->
    exists w', toolRenderer callbacks call w = (Ok tt, w').

(** The renderer threw [thrown] when it was told of a failed call. *)
Definition failure_report_threw (callbacks : ToolCallbacks) (thrown : Thrown)
  : Prop :=
  exists call w w',
    render_status call = status_error
    /\ toolRenderer callbacks call w = (Throw thrown, w').

(** A serialisation that writes every value it is given. *)
Definition writes_everything : Prop :=
  forall v, exists text, JSON_stringify_unknown v = Ok text.

(** [JSON.stringify] threw [thrown] on some value. *)
Definition stringify_threw (thrown : Thrown) : Prop :=
  exists v, JSON_stringify_unknown v = Throw thrown.

End ToolLoop.

Section Retry.

Variable String_of : JsValue -> string.
(** The [n]-th draw of [Math.random()]. *)
Variable Math_random : nat -> float.
Context {S T : Type}.

Record RetryOptions : Type := mkOptions {
  maxRetries : nat;
  baseDelay : float;
  maxDelay : float;
  retryableErrors : list string
}.

(** The defaults of the destructured [options]. *)
Definition default_options : RetryOptions :=
  mkOptions 3 1000%float 30000%float ["rate_limit"; "timeout"; "network_error"].

(** [retryableErrors.some(e => lastError.message.toLowerCase().includes(e))]. *)
Definition isRetryable (options : RetryOptions) (lastError : JsError) : bool :=
  existsb (fun e => includes (toLowerCase (message lastError)) e)
    (retryableErrors options).

(** The classification in the words of the specification: the message
    contains one of the configured retryable substrings. *)
Definition message_contains_retryable (options : RetryOptions)
    (lastError : JsError) : bool :=
  existsb (fun e => includes (message lastError) e) (retryableErrors options).

Definition draw_random : Eff (RetryState S) float :=
  fun st =>
    (Ok (Math_random (random_draws st)),
     mkRetry (target st) (invocations st) (sleeps st)
       (Datatypes.S (random_draws st))).

(** The [for] loop of [withRetry] at counter [attempt], with
    [fuel = maxRetries - attempt] turns left. *)
Fixpoint retry_from (operation : S -> Res T * S) (options : RetryOptions)
    (fuel attempt : nat) (lastError : option JsError)
  : Eff (RetryState S) T :=
  match fuel with
  | O => throw_last lastError
  | Datatypes.S fuel' =>
      try_catch (invoke operation)
        (fun thrown =>
           let lastError := to_Error String_of thrown in
           if negb (isRetryable options lastError)
              || (attempt =? maxRetries options - 1)%nat
           then throw (ThrownError lastError)
           else
             (let delay :=
                Math_min (PrimFloat.mul (baseDelay options) (Math_pow2 attempt))
                  (maxDelay options) in
              random <- draw_random ;;
              sleep (PrimFloat.add delay (PrimFloat.mul random 1000%float)) ;;;
              retry_from operation options fuel' (Datatypes.S attempt)
                (Some lastError))%eff)
  end.

Definition withRetry (operation : S -> Res T * S) (options : RetryOptions)
  : Eff (RetryState S) T :=
  retry_from operation options (maxRetries options) 0 None.

End Retry.

End Operations.

(** ** Provider requests (services/interfaces/ICodingAgent.ts) *)

Module Requests.

(** [a && b] on values. *)
Definition js_and (a b : JsValue) : JsValue := if js_truthy a then b else a.

(** [v[0]]: the read throws on [null] and [undefined]. *)
Definition js_first (v : JsValue) : Res JsValue :=
  match v with
  | JUndefined | JNull =>
      Throw (TypeError "Cannot read properties of nullish value (reading '0')")
  | _ => Ok (js_first_opt v)
  end.

Definition has_field (fields : list (string * JsValue)) (key : string) : bool :=
  existsb (fun entry => String.eqb (fst entry) key) fields.

(** Setting a property of an object under construction: a key that is
    there keeps its place and takes the new value, a new key goes last. *)
Definition assign (fields : list (string * JsValue)) (key : string)
    (v : JsValue) : list (string * JsValue) :=
  if has_field fields key
  then map (fun entry => if String.eqb (fst entry) key then (key, v) else entry)
         fields
  else fields ++ [(key, v)].

(** The own enumerable properties that a spread copies: the fields of an
    object, the elements of an array and the characters of a string under
    their indices, nothing for the other values. *)
Definition own_fields (v : JsValue) : list (string * JsValue) :=
  match v with
  | JObj fields => fields
  | JArr items => imap (fun i item => (string_of_nat i, item)) items
  | JStr text =>
      imap (fun i c => (string_of_nat i, JStr (String c EmptyString)))
        (list_ascii_of_string text)
  | _ => []
  end.

(** The members of an object literal: [key: v] and [...v]. *)
Inductive Member : Type :=
| field (key : string) (v : JsValue)
| rest (v : JsValue).

Definition add_member (fields : list (string * JsValue)) (member : Member)
  : list (string * JsValue) :=
  match member with
  | field key v => assign fields key v
  | rest v =>
      fold_left (fun acc entry => assign acc (fst entry) (snd entry))
        (own_fields v) fields
  end.

(** An object literal, its members evaluated from left to right. *)
Definition object (members : list Member) : JsValue :=
  JObj (fold_left add_member members []).

(** *** Messages and tools as the objects they are *)

Definition role_name (r : Role) : string :=
  match r with
  | role_system => "system"
  | role_user => "user"
  | role_assistant => "assistant"
  | role_tool => "tool"
  end.

Definition part_value (part : ContentPart) : JsValue :=
  match part with
  | TextPart text => object [field "type" (JStr "text"); field "text" (JStr text)]
  | ImageUrlPart url =>
      object [field "type" (JStr "image_url");
              field "image_url" (object [field "url" (JStr url)])]
  end.

Definition content_value (c : MessageContent) : JsValue :=
  match c with
  | ContentString text => JStr text
  | ContentParts parts => JArr (map part_value parts)
  end.

Definition wire_value (call : ToolCallWire) : JsValue :=
  object [field "id" (wire_id call); field "type" (JStr "function");
          field "function"
            (object [field "name" (wire_name call);
                     field "arguments" (wire_arguments call)])].

(** [m.tool_calls] and [m.tool_call_id], [undefined] where absent. *)
Definition tool_calls_value (m : Message) : JsValue :=
  match tool_calls m with
  | Some calls => JArr (map wire_value calls)
  | None => JUndefined
  end.

Definition tool_call_id_value (m : Message) : JsValue :=
  match tool_call_id m with
  | Some v => v
  | None => JUndefined
  end.

Definition message_value (m : Message) : JsValue :=
  object ([field "role" (JStr (role_name (role m)));
           field "content" (content_value (content m))]
          ++ match tool_calls m with
             | Some calls => [field "tool_calls" (JArr (map wire_value calls))]
             | None => []
             end
          ++ match tool_call_id m with
             | Some v => [field "tool_call_id" v]
             | None => []
             end).

Definition tool_value (t : Operations.ToolSchema) : JsValue :=
  object [field "type" (JStr "function");
          field "function"
            (object [field "name" (JStr (Operations.schema_name t));
                     field "description"
                       (JStr (Operations.schema_description t));
                     field "parameters" (Operations.schema_parameters t)])].

(** [tools], an array or [undefined]. *)
Definition tools_value (tools : option (list Operations.ToolSchema)) : JsValue :=
  match tools with
  | Some schemas => JArr (map tool_value schemas)
  | None => JUndefined
  end.

(** *** The request bodies, before [JSON.stringify] *)

(** The callback of [messages.map] in [streamAnthropic]. *)
Definition anthropic_message (m : Message) : JsValue :=
  object [field "role"
            (JStr (match role m with
                   | role_tool => "user"
                   | r => role_name r
                   end));
          field "content" (content_value (content m));
          rest (js_and (tool_calls_value m)
                  (object [field "tool_calls" (tool_calls_value m)]));
          rest (js_and (tool_call_id_value m)
                  (object [field "tool_use_id" (tool_call_id_value m)]))].

(** [tools?.map(...)] in [streamAnthropic]. *)
Definition anthropic_tools (tools : option (list Operations.ToolSchema))
  : JsValue :=
  match tools with
  | Some schemas =>
      JArr (map (fun t =>
                   object [field "name" (JStr (Operations.schema_name t));
                           field "description"
                             (JStr (Operations.schema_description t));
                           field "input_schema"
                             (Operations.schema_parameters t)])
              schemas)
  | None => JUndefined
  end.

Definition anthropic_payload (model : string) (messages : list Message)
    (tools : option (list Operations.ToolSchema))
    (temperature maxTokens : JsValue) : JsValue :=
  object [field "model" (JStr model);
          field "messages" (JArr (map anthropic_message messages));
          rest (js_and (anthropic_tools tools)
                  (object [field "tools" (anthropic_tools tools)]));
          rest (js_and temperature (object [field "temperature" temperature]));
          rest (js_and maxTokens (object [field "max_tokens" maxTokens]));
          field "stream" (JBool true)].

(** The body of [streamOpenAI], [streamCerebras] and [streamCloudflare]. *)
Definition openai_payload (model : string) (messages : list Message)
    (tools : option (list Operations.ToolSchema))
    (temperature maxTokens : JsValue) : JsValue :=
  object [field "model" (JStr model);
          field "messages" (JArr (map message_value messages));
          rest (js_and (tools_value tools)
                  (object [field "tools" (tools_value tools)]));
          rest (js_and temperature (object [field "temperature" temperature]));
          rest (js_and maxTokens (object [field "max_tokens" maxTokens]));
          field "stream" (JBool true)].

(** The callback of [messages.map] in [streamGoogle]. *)
Definition gemini_message (m : Message) : JsValue :=
  object [field "role"
            (JStr (match role m with
                   | role_assistant => "model"
                   | r => role_name r
                   end));
          field "parts"
            (JArr [object [field "text" (content_value (content m))]])].

Definition google_payload (messages : list Message)
    (temperature maxTokens : JsValue) : JsValue :=
  object [field "contents" (JArr (map gemini_message messages));
          rest (js_and temperature
                  (object [field "generationConfig"
                             (object [field "temperature" temperature])]));
          rest (js_and maxTokens
                  (object [field "generationConfig"
                             (object [field "maxOutputTokens" maxTokens])]))].

(** The body of [inferNonStreaming]. *)
Definition plain_payload (model : string) (messages : list Message)
    (tools : option (list Operations.ToolSchema)) : JsValue :=
  object [field "model" (JStr model);
          field "messages" (JArr (map message_value messages));
          rest (js_and (tools_value tools)
                  (object [field "tools" (tools_value tools)]))].

(** *** Requests and responses *)

(** The bindings of [Env] that the providers read: strings, or
    [undefined] where not configured. *)
Record Env : Type := mkEnv {
  ANTHROPIC_API_KEY : JsValue;
  OPENAI_API_KEY : JsValue;
  GOOGLE_API_KEY : JsValue;
  CEREBRAS_API_KEY : JsValue;
  CLOUDFLARE_ACCOUNT_ID : JsValue;
  CLOUDFLARE_AI_GATEWAY_ID : JsValue;
  CLOUDFLARE_API_TOKEN : JsValue
}.

(** What [fetch] is called with. *)
Record Request : Type := mkRequest {
  url : string;
  method : string;
  headers : list (string * string);
  body : string
}.

(** What [fetch] answers with: [response.ok], [response.status], what
    [response.text()] and [response.json()] resolve to, and the body as
    its reader delivers it. *)
Record Response : Type := mkResponse {
  ok : bool;
  status : nat;
  text : Res string;
  json : Res JsValue;
  reader : Infer.Body
}.

(** [InferOptions], with the [provider] and the [model] of its inference
    context. *)
Record InferOptions : Type := mkInferOptions {
  env : Env;
  provider : string;
  model : string;
  messages : list Message;
  tools : option (list Operations.ToolSchema);
  stream : JsValue;
  temperature : JsValue;
  max_tokens : JsValue
}.

(** [InferResponse], for the two types that [infer] returns. *)
Inductive InferResponse : Type :=
| InferResponseText (content usage : JsValue)
| InferResponseToolCalls (content : string) (calls : list ToolCallWire).

Section Providers.

Variable JSON_parse : string -> Res JsValue.
Variable JSON_stringify : JsValue -> string.
Variable ToString : JsValue -> string.
(** The [n]-th call of [fetch]: it rejects, or resolves to a response. *)
Variable fetch : nat -> Request -> Res Response.

(** A value inside a template literal. *)
Definition template (v : JsValue) : string :=
  match v with
  | JStr s => s
  | _ => ToString v
  end.

(** [await fetch(url, init)]; the state is the list of the requests made. *)
Definition call_fetch (request : Request) : Eff (list Request) Response :=
  fun made => (fetch (length made) request, made ++ [request]).

Definition settle {A} (r : Res A) : Eff (list Request) A := fun made => (r, made).

(** The [if (!response.ok)] of every provider. *)
Definition expect_ok (name : string) (response : Response)
  : Eff (list Request) unit :=
  if negb (ok response)
  then
    (error <- settle (text response) ;;
     throw_new_Error (name +:+ " error: "
                      +:+ string_of_nat (status response) +:+ " - " +:+ error))%eff
  else ret tt.

Definition json_headers : list (string * string) :=
  [("Content-Type", "application/json")].

Definition bearer_headers (token : JsValue) : list (string * string) :=
  [("Content-Type", "application/json");
   ("Authorization", "Bearer " +:+ template token)].

Definition streamAnthropic (env : Env) (model : string)
    (messages : list Message) (tools : option (list Operations.ToolSchema))
    (temperature maxTokens : JsValue) : Eff (list Request) Infer.StreamRun :=
  let apiKey := ANTHROPIC_API_KEY env in
  if negb (js_truthy apiKey)
  then throw_new_Error "ANTHROPIC_API_KEY not configured"
  else
    (response <-
       call_fetch
         (mkRequest "https://api.anthropic.com/v1/messages" "POST"
            [("Content-Type", "application/json");
             ("x-api-key", template apiKey);
             ("anthropic-version", "2023-06-01");
             ("anthropic-dangerous-direct-browser-access", "true")]
            (JSON_stringify
               (anthropic_payload model messages tools temperature maxTokens))) ;;
     expect_ok "Anthropic API" response ;;;
     ret (Infer.createStreamIterator JSON_parse JSON_stringify
            (reader response) "anthropic"))%eff.

Definition streamOpenAI (env : Env) (model : string)
    (messages : list Message) (tools : option (list Operations.ToolSchema))
    (temperature maxTokens : JsValue) : Eff (list Request) Infer.StreamRun :=
  let apiKey := OPENAI_API_KEY env in
  if negb (js_truthy apiKey)
  then throw_new_Error "OPENAI_API_KEY not configured"
  else
    (response <-
       call_fetch
         (mkRequest "https://api.openai.com/v1/chat/completions" "POST"
            (bearer_headers apiKey)
            (JSON_stringify
               (openai_payload model messages tools temperature maxTokens))) ;;
     expect_ok "OpenAI API" response ;;;
     ret (Infer.createStreamIterator JSON_parse JSON_stringify
            (reader response) "openai"))%eff.

Definition streamGoogle (env : Env) (model : string)
    (messages : list Message) (tools : option (list Operations.ToolSchema))
    (temperature maxTokens : JsValue) : Eff (list Request) Infer.StreamRun :=
  let apiKey := GOOGLE_API_KEY env in
  if negb (js_truthy apiKey)
  then throw_new_Error "GOOGLE_API_KEY not configured"
  else
    (response <-
       call_fetch
         (mkRequest
            ("https://generativelanguage.googleapis.com/v1beta/models/"
             +:+ model +:+ ":streamGenerateContent?key=" +:+ template apiKey)
            "POST" json_headers
            (JSON_stringify (google_payload messages temperature maxTokens))) ;;
     expect_ok "Google API" response ;;;
     ret (Infer.createStreamIterator JSON_parse JSON_stringify
            (reader response) "google"))%eff.

Definition streamCerebras (env : Env) (model : string)
    (messages : list Message) (tools : option (list Operations.ToolSchema))
    (temperature maxTokens : JsValue) : Eff (list Request) Infer.StreamRun :=
  let apiKey := CEREBRAS_API_KEY env in
  if negb (js_truthy apiKey)
  then throw_new_Error "CEREBRAS_API_KEY not configured"
  else
    (response <-
       call_fetch
         (mkRequest "https://api.cerebras.ai/v1/chat/completions" "POST"
            (bearer_headers apiKey)
            (JSON_stringify
               (openai_payload model messages tools temperature maxTokens))) ;;
     expect_ok "Cerebras API" response ;;;
     ret (Infer.createStreamIterator JSON_parse JSON_stringify
            (reader response) "cerebras"))%eff.

(** [streamCloudflare]: no binding is tested before the request. *)
Definition streamCloudflare (env : Env) (model : string)
    (messages : list Message) (tools : option (list Operations.ToolSchema))
    (temperature maxTokens : JsValue) : Eff (list Request) Infer.StreamRun :=
  (response <-
     call_fetch
       (mkRequest
          ("https://gateway.ai.cloudflare.com/v1/"
           +:+ template (CLOUDFLARE_ACCOUNT_ID env) +:+ "/"
           +:+ template (CLOUDFLARE_AI_GATEWAY_ID env)
           +:+ "/v1/chat/completions")
          "POST" (bearer_headers (CLOUDFLARE_API_TOKEN env))
          (JSON_stringify
             (openai_payload model messages tools temperature maxTokens))) ;;
   expect_ok "Cloudflare AI" response ;;;
   ret (Infer.createStreamIterator JSON_parse JSON_stringify
          (reader response) "cloudflare"))%eff.

(** [inferStream]: the switch on the provider; what its [catch] catches
    is logged and thrown on. *)
Definition inferStream (options : InferOptions)
  : Eff (list Request) Infer.StreamRun :=
  let run stream_provider :=
    stream_provider (env options) (model options) (messages options)
      (tools options) (temperature options) (max_tokens options) in
  if String.eqb (provider options) "anthropic" then run streamAnthropic
  else if String.eqb (provider options) "openai" then run streamOpenAI
  else if String.eqb (provider options) "google" then run streamGoogle
  else if String.eqb (provider options) "cerebras" then run streamCerebras
  else if String.eqb (provider options) "cloudflare" then run streamCloudflare
  else throw_new_Error ("Unknown provider: " +:+ provider options).

(** [inferNonStreaming]. *)
Definition inferNonStreaming (options : InferOptions)
  : Eff (list Request) InferResponse :=
  let apiKey := OPENAI_API_KEY (env options) in
  if negb (js_truthy apiKey)
  then throw_new_Error "OPENAI_API_KEY not configured"
  else
    (response <-
       call_fetch
         (mkRequest "https://api.openai.com/v1/chat/completions" "POST"
            (bearer_headers apiKey)
            (JSON_stringify
               (plain_payload (model options) (messages options)
                  (tools options)))) ;;
     expect_ok "OpenAI API" response ;;;
     data <- settle (json response) ;;
     settle
       (let? choices := js_get data "choices" in
        let? choice := js_first choices in
        let? message := js_get choice "message" in
        let? content := js_get message "content" in
        let? usage := js_get data "usage" in
        Ok (InferResponseText content usage)))%eff.

(** The [for await] loop of [infer] over the chunks of a stream, from
    its two accumulators. *)
Fixpoint collect (chunks : list Infer.StreamChunk) (content : string)
    (toolCalls : option (list ToolCallWire))
  : string * option (list ToolCallWire) :=
  match chunks with
  | [] => (content, toolCalls)
  | Infer.ChunkContent piece :: later =>
      collect later (content +:+ template piece) toolCalls
  | Infer.ChunkToolCall calls :: later => collect later content (Some calls)
  | Infer.ChunkComplete :: later => collect later content toolCalls
  end.

(** [infer]. *)
Definition infer (options : InferOptions) : Eff (list Request) InferResponse :=
  if js_truthy (stream options)
  then
    (streamIterator <- inferStream options ;;
     let '(content, toolCalls) :=
       collect (Infer.events streamIterator) "" None in
     match Infer.failure streamIterator with
     | Some thrown => throw thrown
     | None =>
         match toolCalls with
         | Some calls => ret (InferResponseToolCalls content calls)
         | None => ret (InferResponseText (JStr content) JUndefined)
         end
     end)%eff
  else inferNonStreaming options.

End Providers.

End Requests.

(** ** Modes, phases and statuses (core/behaviors/phasic.ts) *)

Inductive AgentMode : Type := AGENTIC | PHASIC | SIMPLE.

Inductive AgentPhase : Type :=
| ANALYSIS
| SETUP
| IMPLEMENTATION
| REVIEW
| DEPLOYMENT.

Inductive GenerationStatus : Type :=
| INITIALIZING
| PROCESSING
| WAITING
| COMPLETED
| FAILED
| TERMINATED.

#[global] Instance AgentPhase_eq_dec : EqDecision AgentPhase.
Proof. solve_decision. Defined.

#[global] Instance GenerationStatus_eq_dec : EqDecision GenerationStatus.
Proof. solve_decision. Defined.

(** ** The session orchestrator (core/AgentCore.ts) *)

Module Core.

(** [AGENT_CONFIG]. *)
Definition MAX_ITERATIONS : nat := 50.
Definition CONTEXT_WINDOW_SIZE : Z := 128000.
Definition TOOL_TIMEOUT_MS : Z := 30000.
Definition STREAM_BUFFER_MS : Z := 50.
#[warnings="-inexact-float"]
Definition COMPLETION_THRESHOLD : float := 0.95%float.

Record GenerationContext : Type := mkContext {
  sessionId : string;
  userId : string;
  projectId : string;
  status : GenerationStatus;
  mode : AgentMode;
  phase : AgentPhase;
  iteration : nat;
  prompt : string;
  blueprint : JsValue;
  fileStates : gmap string JsValue;
  conversationHistory : list JsValue;
  startedAt : Z;
  modelConfig : JsValue;
  templateId : option string
}.

Definition set_status (s : GenerationStatus) (c : GenerationContext)
  : GenerationContext :=
  mkContext (sessionId c) (userId c) (projectId c) s (mode c) (phase c)
    (iteration c) (prompt c) (blueprint c) (fileStates c)
    (conversationHistory c) (startedAt c) (modelConfig c) (templateId c).

Definition set_phase (p : AgentPhase) (c : GenerationContext)
  : GenerationContext :=
  mkContext (sessionId c) (userId c) (projectId c) (status c) (mode c) p
    (iteration c) (prompt c) (blueprint c) (fileStates c)
    (conversationHistory c) (startedAt c) (modelConfig c) (templateId c).

Definition set_blueprint (b : JsValue) (c : GenerationContext)
  : GenerationContext :=
  mkContext (sessionId c) (userId c) (projectId c) (status c) (mode c) (phase c)
    (iteration c) (prompt c) b (fileStates c)
    (conversationHistory c) (startedAt c) (modelConfig c) (templateId c).

(** An [AgentSession] object (its [core] and [emitter] are the
    orchestrator's own). *)
Record AgentSession : Type := mkSession {
  id : string;
  context : GenerationContext;
  isTerminated : bool
}.

Module SessionStatus.
Record t : Type := mk {
  sessionId : string;
  status : GenerationStatus;
  phase : AgentPhase;
  mode : AgentMode;
  iteration : nat;
  progress : float;
  isTerminated : bool
}.
End SessionStatus.

Inductive PhaseOutcome : Type := started | completed | failed.

(** The events handed to the emitter, by their [type] tag. *)
Inductive AgentEvent : Type :=
| blueprint_event (data : JsValue)
| phase_event (phase : AgentPhase) (outcome : PhaseOutcome)
    (error : option string) (timestamp : Z)
| review_event (passed : bool) (issues : list JsValue) (suggestions : list string)
| stream_event (chunk : JsValue)
| complete_event (timestamp : Z) (totalIterations : nat)
| error_event (text : string) (stack : option string) (timestamp : Z)
| terminated_event (reason : option string) (timestamp : Z).

(** The phase events emitted for one session, in the order emitted. *)
Definition phase_trace (sessionId : string)
    (events : list (string * AgentEvent)) : list (AgentPhase * PhaseOutcome) :=
  flat_map (fun entry =>
              match entry with
              | (target, phase_event p outcome _ _) =>
                  if String.eqb target sessionId then [(p, outcome)] else []
              | _ => []
              end)
    events.

Record ToolCall : Type := mkToolCall {
  call_id : string;
  name : string;
  parameters : JsValue
}.

Record ToolResult : Type := mkResult {
  success : bool;
  data : option JsValue;
  error : option string;
  executionTime : Z
}.

(** The argument of [analysisManager.logToolExecution]. *)
Record ToolExecution : Type := mkExecution {
  log_sessionId : string;
  toolName : string;
  duration : Z;
  log_success : bool;
  log_error : option string;
  resultSize : option nat
}.

Record ReviewAnalysis : Type := mkAnalysis {
  issues : list JsValue;
  suggestions : list string;
  autoFixConfidence : float
}.

(** Modelled from the spec: the persistence contract of the state manager
    ([IStateManager] is not among the sources), with the five operations
    the specification lists, each a function on the store.
    [getStoredStatus] is the state manager's [getSessionStatus]. *)
Class IStateManager (Store : Type) : Type := {
  createSession : GenerationContext -> Store -> Store;
  updateSession : GenerationContext -> Store -> Store;
  getSession : string -> Store -> option GenerationContext;
  getStoredStatus : string -> Store -> option SessionStatus.t;
  updateSessionStatus :
    string -> GenerationStatus -> option string -> Store -> Store
}.

(** The property names that every ordinary object inherits from
    [Object.prototype]. *)
Definition Object_prototype_names : list string :=
  ["constructor"; "__defineGetter__"; "__defineSetter__"; "hasOwnProperty";
   "__lookupGetter__"; "__lookupSetter__"; "isPrototypeOf";
   "propertyIsEnumerable"; "toString"; "valueOf"; "__proto__";
   "toLocaleString"].

(** What reading a property of an ordinary object under a name finds:
    the value of an own property, a value inherited from [Object.prototype]
    (a function, or the prototype itself: truthy, and without the methods of
    the own values), or [undefined]. *)
Inductive PropertyRead (A : Type) : Type :=
| own_property (a : A)
| inherited_property
| no_property.
Arguments own_property {A} a.
Arguments inherited_property {A}.
Arguments no_property {A}.

(** How the race between [tool.execute] and the timeout timer ends. *)
Inductive ToolRun : Type :=
| settles_first (outcome : Res JsValue)
| timer_first.

Section Orchestrator.

(** What behaviours and tools act on (files, analysis, sandbox). *)
Variable W : Type.
Context {Store : Type} `{IStateManager Store}.

(** A tool of the toolkit (tools/toolkit is not among the sources), by
    its use: [execute(parameters, { sessionId, context, fileManager,
    analysisManager })], raced against the timeout. *)
Record Tool : Type := mkTool {
  execute : JsValue -> string -> GenerationContext -> W -> ToolRun * W
}.

(** Modelled from the spec: the behaviour strategies ([BaseBehavior] is
    not among the sources), by the methods that [AgentCore] calls.  A method
    reads the context it is given and acts on the world; writing the context
    is left to the session's owner, as the specification's ownership rule
    has it.  [implementProject] also says which chunks it passed to its
    streaming callback. *)
Record BaseBehavior : Type := mkBehavior {
  generateBlueprint : GenerationContext -> W -> Res JsValue * W;
  initializeProject : GenerationContext -> W -> Res unit * W;
  implementProject : GenerationContext -> W -> (list JsValue * Res unit) * W;
  reviewProject : GenerationContext -> W -> Res ReviewAnalysis * W;
  prepareDeployment : GenerationContext -> W -> Res unit * W;
  applyFixes : GenerationContext -> list JsValue -> W -> Res unit * W
}.

(** The orchestrator and everything it reaches: the session objects by
    reference, [activeSessions], the state manager's store, what the emitter
    and the analytics collaborator received, the pending [setTimeout]
    callbacks, the number of clock readings, and the outer world. *)
Record CoreState : Type := mkCore {
  heap : gmap nat AgentSession;
  activeSessions : gmap string nat;
  store : Store;
  emitted : list (string * AgentEvent);
  analytics : list ToolExecution;
  timers : list (Z * (string * AgentEvent));
  clock_reads : nat;
  world : W
}.

Definition with_heap (f : gmap nat AgentSession -> gmap nat AgentSession)
    (st : CoreState) : CoreState :=
  mkCore (f (heap st)) (activeSessions st) (store st) (emitted st)
    (analytics st) (timers st) (clock_reads st) (world st).

Definition with_activeSessions (f : gmap string nat -> gmap string nat)
    (st : CoreState) : CoreState :=
  mkCore (heap st) (f (activeSessions st)) (store st) (emitted st)
    (analytics st) (timers st) (clock_reads st) (world st).

Definition with_store (f : Store -> Store) (st : CoreState) : CoreState :=
  mkCore (heap st) (activeSessions st) (f (store st)) (emitted st)
    (analytics st) (timers st) (clock_reads st) (world st).

Variable Date_now : nat -> Z.
(** [this.behaviors]: the constructor maps every mode to a behaviour. *)
Variable behaviors : AgentMode -> BaseBehavior.
(** The [toolkit] object of tools/toolkit (not among the sources), taken
    as an ordinary object: the table of its own properties. *)
Variable toolkit : gmap string Tool.
(** [JSON.stringify] on a value of type [unknown] other than [undefined]
    (a tool's result): its text, or what it throws on a value that it cannot
    write. *)
Variable JSON_stringify_unknown : JsValue -> Res string.
(** The [n]-th call of [analysisManager.logToolExecution]: it resolves,
    or rejects. *)
Variable logToolExecution_settles : nat -> ToolExecution -> Res unit.
(** [process.env.NODE_ENV === 'development'], and [error.stack]. *)
Variable development : bool.
Variable stack_of : JsError -> option string.

Definition now : Eff CoreState Z :=
  fun st =>
    (Ok (Date_now (clock_reads st)),
     mkCore (heap st) (activeSessions st) (store st) (emitted st)
       (analytics st) (timers st) (S (clock_reads st)) (world st)).

(** [this.emitter.emit(sessionId, event)]. *)
Definition emit (sessionId : string) (event : AgentEvent) : Eff CoreState unit :=
  modify (fun st =>
            mkCore (heap st) (activeSessions st) (store st)
              (emitted st ++ [(sessionId, event)])
              (analytics st) (timers st) (clock_reads st) (world st)).

(** [setTimeout(() => this.emitter.emit(sessionId, event), ms)]. *)
Definition setTimeout_emit (ms : Z) (sessionId : string) (event : AgentEvent)
  : Eff CoreState unit :=
  modify (fun st =>
            mkCore (heap st) (activeSessions st) (store st) (emitted st)
              (analytics st) (timers st ++ [(ms, (sessionId, event))])
              (clock_reads st) (world st)).

(** [await this.analysisManager.logToolExecution(entry)]: the call is
    made, and resolves or rejects. *)
Definition logToolExecution (entry : ToolExecution) : Eff CoreState unit :=
  fun st =>
    (logToolExecution_settles (length (analytics st)) entry,
     mkCore (heap st) (activeSessions st) (store st) (emitted st)
       (analytics st ++ [entry]) (timers st) (clock_reads st) (world st)).

Definition in_world {A} (f : W -> Res A * W) : Eff CoreState A :=
  fun st =>
    let '(r, w) := f (world st) in
    (r, mkCore (heap st) (activeSessions st) (store st) (emitted st)
          (analytics st) (timers st) (clock_reads st) w).

(** Reading the session object behind a reference.  Every reference the
    orchestrator holds was made by [new AgentSession]; a reference to
    nothing has no counterpart in the sources. *)
Definition deref (session : nat) : Eff CoreState AgentSession :=
  fun st =>
    match heap st !! session with
    | Some s => (Ok s, st)
    | None => (Throw (TypeError "no such session object"), st)
    end.

Definition update_session (session : nat) (f : AgentSession -> AgentSession)
  : Eff CoreState unit :=
  modify (with_heap (alter f session)).

Definition update_context (session : nat)
    (f : GenerationContext -> GenerationContext) : Eff CoreState unit :=
  update_session session
    (fun s => mkSession (id s) (f (context s)) (isTerminated s)).

(** [await this.stateManager.updateSession(context)]. *)
Definition persist (session : nat) : Eff CoreState unit :=
  (s <- deref session ;;
   modify (with_store (updateSession (context s))))%eff.

(** *** AgentSession *)

(** [stream]. *)
Definition stream (session : nat) (chunk : JsValue) : Eff CoreState unit :=
  (this <- deref session ;;
   if isTerminated this then ret tt
   else setTimeout_emit STREAM_BUFFER_MS (id this) (stream_event chunk))%eff.

(** [complete]. *)
Definition complete (session : nat) : Eff CoreState unit :=
  (this <- deref session ;;
   if isTerminated this then ret tt
   else
     update_context session (set_status COMPLETED) ;;;
     timestamp <- now ;;
     emit (id this) (complete_event timestamp (iteration (context this))))%eff.

(** [fail]. *)
Definition fail (session : nat) (error : JsError) : Eff CoreState unit :=
  (this <- deref session ;;
   update_context session (set_status FAILED) ;;;
   timestamp <- now ;;
   emit (id this)
     (error_event (message error)
        (if development then stack_of error else None) timestamp))%eff.

(** [terminate]. *)
Definition terminate (session : nat) (reason : option string)
  : Eff CoreState unit :=
  (this <- deref session ;;
   update_session session (fun s => mkSession (id s) (context s) true) ;;;
   timestamp <- now ;;
   emit (id this) (terminated_event reason timestamp))%eff.

(** [Object.values(AgentPhase)]. *)
Definition phases : list AgentPhase :=
  [ANALYSIS; SETUP; IMPLEMENTATION; REVIEW; DEPLOYMENT].

#[warnings="-inexact-float"]
Definition phaseWeights (p : AgentPhase) : float :=
  match p with
  | ANALYSIS => 0.1%float
  | SETUP => 0.2%float
  | IMPLEMENTATION => 0.5%float
  | REVIEW => 0.1%float
  | DEPLOYMENT => 0.1%float
  end.

(** [phases.indexOf(p)]. *)
Definition indexOf (l : list AgentPhase) (p : AgentPhase) : Z :=
  match list_find (fun q => q = p) l with
  | Some (i, _) => Z.of_nat i
  | None => -1
  end.

(** [l.slice(0, stop)]: a negative [stop] counts from the end. *)
Definition slice_to {A} (l : list A) (stop : Z) : list A :=
  if stop <? 0 then take (Z.to_nat (Z.of_nat (length l) + stop)) l
  else take (Z.to_nat stop) l.

(** [calculateProgress]. *)
#[warnings="-inexact-float"]
Definition calculateProgress (c : GenerationContext) : float :=
  let currentPhaseIndex := indexOf phases (phase c) in
  let completedPhaseWeight :=
    fold_left (fun sum p => PrimFloat.add sum (phaseWeights p))
      (slice_to phases currentPhaseIndex) 0%float in
  Math_min 0.99%float completedPhaseWeight.

(** [getStatus]. *)
Definition getStatus (session : nat) : Eff CoreState SessionStatus.t :=
  (this <- deref session ;;
   ret (SessionStatus.mk (id this) (status (context this))
          (phase (context this)) (mode (context this))
          (iteration (context this)) (calculateProgress (context this))
          (isTerminated this)))%eff.

(** A pending timer fires: its callback emits. *)
Definition fire_timer : Eff CoreState unit :=
  fun st =>
    match timers st with
    | [] => (Ok tt, st)
    | (_, (sessionId, event)) :: later =>
        (Ok tt,
         mkCore (heap st) (activeSessions st) (store st)
           (emitted st ++ [(sessionId, event)]) (analytics st) later
           (clock_reads st) (world st))
    end.

(** *** AgentCore *)

(** [runPhase]. *)
Definition runPhase (session : nat) (p : AgentPhase)
    (phaseFn : Eff CoreState unit) : Eff CoreState unit :=
  (this <- deref session ;;
   update_context session (set_phase p) ;;;
   update_context session (set_status PROCESSING) ;;;
   persist session ;;;
   timestamp <- now ;;
   emit (id this) (phase_event p started None timestamp) ;;;
   try_catch
     (phaseFn ;;;
      timestamp <- now ;;
      emit (id this) (phase_event p completed None timestamp))
     (fun thrown =>
        timestamp <- now ;;
        emit (id this)
          (phase_event p failed (Some (message_or "Unknown error" thrown))
             timestamp) ;;;
        throw thrown))%eff.

(** [handlePostReview]. *)
Definition handlePostReview (session : nat) (analysis : ReviewAnalysis)
  : Eff CoreState unit :=
  (this <- deref session ;;
   if (length (issues analysis) =? 0)%nat
   then emit (id this) (review_event true [] [])
   else
     emit (id this)
       (review_event false (issues analysis) (suggestions analysis)) ;;;
     if PrimFloat.ltb COMPLETION_THRESHOLD (autoFixConfidence analysis)
     then
       current <- deref session ;;
       in_world (applyFixes (behaviors (mode (context current)))
                   (context current) (issues analysis))
     else ret tt)%eff.

(** The callback given to [implementProject]: [session.stream(chunk)] for
    each chunk in turn. *)
Fixpoint stream_all (session : nat) (chunks : list JsValue)
  : Eff CoreState unit :=
  match chunks with
  | [] => ret tt
  | chunk :: later => (stream session chunk ;;; stream_all session later)%eff
  end.

(** A behaviour method called on the session's context as it is now. *)
Definition on_context {A} (session : nat)
    (method : GenerationContext -> W -> Res A * W) : Eff CoreState A :=
  (this <- deref session ;; in_world (method (context this)))%eff.

(** [processSession]. *)
Definition processSession (session : nat) : Eff CoreState unit :=
  (this <- deref session ;;
   let behavior := behaviors (mode (context this)) in
   try_catch
     (runPhase session ANALYSIS
        (plan <- on_context session (generateBlueprint behavior) ;;
         update_context session (set_blueprint plan) ;;;
         emit (id this) (blueprint_event plan)) ;;;
      runPhase session SETUP
        (on_context session (initializeProject behavior)) ;;;
      runPhase session IMPLEMENTATION
        (current <- deref session ;;
         fun st =>
           let '((chunks, outcome), w) :=
             implementProject behavior (context current) (world st) in
           bind (stream_all session chunks) (fun _ st' => (outcome, st'))
             (mkCore (heap st) (activeSessions st) (store st) (emitted st)
                (analytics st) (timers st) (clock_reads st) w)) ;;;
      runPhase session REVIEW
        (analysis <- on_context session (reviewProject behavior) ;;
         handlePostReview session analysis) ;;;
      runPhase session DEPLOYMENT
        (on_context session (prepareDeployment behavior)) ;;;
      update_context session (set_status COMPLETED) ;;;
      persist session ;;;
      complete session)
     (fun thrown =>
        update_context session (set_status FAILED) ;;;
        persist session ;;;
        throw thrown))%eff.

(** A behaviour none of whose methods throws, whatever the context
    and the world it is called in. *)
Definition never_throws (b : BaseBehavior) : Prop :=
  (forall c w, exists plan w', generateBlueprint b c w = (Ok plan, w'))
  /\ (forall c w, exists w', initializeProject b c w = (Ok tt, w'))
  /\ (forall c w, exists chunks w',
         implementProject b c w = ((chunks, Ok tt), w'))
  /\ (forall c w, exists analysis w', reviewProject b c w = (Ok analysis, w'))
  /\ (forall c w, exists w', prepareDeployment b c w = (Ok tt, w'))
  /\ (forall c found w, exists w', applyFixes b c found w = (Ok tt, w')).

(** The [Promise.race] of [executeToolCall]. *)
Definition race_with_timeout (run : ToolRun) : Res JsValue :=
  match run with
  | settles_first outcome => outcome
  | timer_first => Throw (ThrownError (new_Error "Tool timeout"))
  end.

(** [toolkit[name]]: the tool under an own property, the value that
    an ordinary object inherits under a name of [Object.prototype], or
    [undefined]. *)
Definition toolkit_get (name : string) : PropertyRead Tool :=
  match toolkit !! name with
  | Some tool => own_property tool
  | None =>
      if bool_decide (name ∈ Object_prototype_names) then inherited_property
      else no_property
  end.

(** [JSON.stringify(result).length]. *)
Definition resultSize_of (result : JsValue) : Res nat :=
  (let? text := stringify_unknown JSON_stringify_unknown result in
   match text with
   | Some s => Ok (String.length s)
   | None =>
       Throw (TypeError "Cannot read properties of undefined (reading 'length')")
   end)%eff.

(** [executeToolCall]. *)
Definition executeToolCall (sessionId : string) (toolCall : ToolCall)
  : Eff CoreState ToolResult :=
  fun st =>
    match activeSessions st !! sessionId with
    | None => throw_new_Error ("Session not found: " +:+ sessionId) st
    | Some session =>
        (startTime <- now ;;
         try_catch
           (match toolkit_get (name toolCall) with
            | no_property =>
                throw_new_Error ("Unknown tool: " +:+ name toolCall)
            | inherited_property =>
                throw (TypeError "tool.execute is not a function")
            | own_property tool =>
                this <- deref session ;;
                result <-
                  (fun st' =>
                     let '(run, w) :=
                       execute tool (parameters toolCall) sessionId
                         (context this) (world st') in
                     (race_with_timeout run,
                      mkCore (heap st') (activeSessions st') (store st')
                        (emitted st') (analytics st') (timers st')
                        (clock_reads st') w)) ;;
                finished <- now ;;
                let duration := finished - startTime in
                size <- (fun st' => (resultSize_of result, st')) ;;
                logToolExecution
                  (mkExecution sessionId (name toolCall) duration true None
                     (Some size)) ;;;
                ret (mkResult true (Some result) None duration)
            end)
           (fun thrown =>
              finished <- now ;;
              let duration := finished - startTime in
              logToolExecution
                (mkExecution sessionId (name toolCall) duration false
                   (Some (message_or "Unknown error" thrown)) None) ;;;
              ret (mkResult false None
                     (Some (message_or "Tool execution failed" thrown))
                     duration)))%eff st
    end.

(** A call that fails before the tool is run, so that the clock is read
    twice: the failure is logged, and the call is answered with the failure
    when the logging resolves; when the logging rejects, inside the [catch],
    the rejection leaves [executeToolCall]. *)
Definition answers_failure (sessionId : string) (toolCall : ToolCall)
    (text : string) (st : CoreState) : Prop :=
  let duration := Date_now (S (clock_reads st)) - Date_now (clock_reads st) in
  let entry :=
    mkExecution sessionId (name toolCall) duration false (Some text) None in
  executeToolCall sessionId toolCall st
  = (match logToolExecution_settles (length (analytics st)) entry with
     | Ok _ => Ok (mkResult false None (Some text) duration)
     | Throw rejected => Throw rejected
     end,
     mkCore (heap st) (activeSessions st) (store st) (emitted st)
       (analytics st ++ [entry]) (timers st) (S (S (clock_reads st)))
       (world st)).

(** [getSessionStatus]. *)
Definition getSessionStatus (sessionId : string)
  : Eff CoreState (option SessionStatus.t) :=
  fun st =>
    match activeSessions st !! sessionId with
    | Some session => bind (getStatus session) (fun s => ret (Some s)) st
    | None => (Ok (getStoredStatus sessionId (store st)), st)
    end.

(** [terminateSession]. *)
Definition terminateSession (sessionId : string) (reason : option string)
  : Eff CoreState unit :=
  fun st =>
    ((match activeSessions st !! sessionId with
      | Some session =>
          terminate session reason ;;;
          modify (with_activeSessions (delete sessionId))
      | None => ret tt
      end) ;;;
     modify (with_store (updateSessionStatus sessionId TERMINATED reason)))%eff st.

(** [new AgentSession(...)]: a new object, behind a reference that no
    object has yet. *)
Definition allocate (s : AgentSession) : Eff CoreState nat :=
  fun st =>
    let session := fresh (dom (heap st)) in
    (Ok session, with_heap (insert session s) st).

(** The [options] of [initializeSession]. *)
Record SessionOptions : Type := mkSessionOptions {
  option_mode : option AgentMode;
  option_modelConfig : JsValue;
  option_templateId : option string
}.

(** [initializeSession], with the id that [nanoid()] draws as
    [sessionId]: the context is created in the store, the session object is
    made and registered, and its reference returned.  The processing that the
    function starts and does not wait for is [processSession] on that
    reference. *)
Definition initializeSession (sessionId userId projectId initialPrompt : string)
    (options : SessionOptions) : Eff CoreState nat :=
  (timestamp <- now ;;
   let context :=
     mkContext sessionId userId projectId INITIALIZING
       (default AGENTIC (option_mode options)) ANALYSIS 0 initialPrompt JNull
       ∅ [] timestamp (option_modelConfig options) (option_templateId options) in
   modify (with_store (createSession context)) ;;;
   session <- allocate (mkSession sessionId context false) ;;
   modify (with_activeSessions (insert sessionId session)) ;;;
   ret session)%eff.

(** [recoverSession]: [null] for an id that the store does not have;
    otherwise a new session object on the stored context, registered
    under the id in place of any object registered before.  The processing
    that the function starts without waiting for it, when the stored status
    is PROCESSING, is [processSession] on the reference returned. *)
Definition recoverSession (sessionId : string) : Eff CoreState (option nat) :=
  fun st =>
    match getSession sessionId (store st) with
    | None => (Ok None, st)
    | Some context =>
        (session <- allocate (mkSession sessionId context false) ;;
         modify (with_activeSessions (insert sessionId session)) ;;;
         ret (Some session))%eff st
    end.

(** Whether [recoverSession] resumes the processing of a context. *)
Definition resumes (c : GenerationContext) : bool :=
  bool_decide (status c = PROCESSING).

(** The pending timers fire, the oldest first. *)
Fixpoint fire_timers (n : nat) : Eff CoreState unit :=
  match n with
  | O => ret tt
  | S k => (fire_timer ;;; fire_timers k)%eff
  end.

(** A behaviour whose method for the phase [p] throws [thrown], and whose
    methods for the phases before [p] return, whatever the context and the
    world they are called in. *)
Definition phase_throws (b : BaseBehavior) (p : AgentPhase) (thrown : Thrown)
  : Prop :=
  let plans := forall c w, exists plan w', generateBlueprint b c w = (Ok plan, w') in
  let sets_up := forall c w, exists w', initializeProject b c w = (Ok tt, w') in
  let implements :=
    forall c w, exists chunks w',
      implementProject b c w = ((chunks, Ok tt), w') in
  let reviews :=
    (forall c w, exists analysis w', reviewProject b c w = (Ok analysis, w'))
    /\ (forall c found w, exists w', applyFixes b c found w = (Ok tt, w')) in
  match p with
  | ANALYSIS =>
      forall c w, exists w', generateBlueprint b c w = (Throw thrown, w')
  | SETUP =>
      plans
      /\ forall c w, exists w', initializeProject b c w = (Throw thrown, w')
  | IMPLEMENTATION =>
      plans /\ sets_up
      /\ forall c w, exists chunks w',
          implementProject b c w = ((chunks, Throw thrown), w')
  | REVIEW =>
      plans /\ sets_up /\ implements
      /\ forall c w, exists w', reviewProject b c w = (Throw thrown, w')
  | DEPLOYMENT =>
      plans /\ sets_up /\ implements /\ reviews
      /\ forall c w, exists w', prepareDeployment b c w = (Throw thrown, w')
  end.

(** What a run of the phases keeps track of: the session object behind
    [session] has the property [P], the live map is [live], and the phase
    events emitted for [sessionId] are [trace]. *)
Definition tracks (session : nat) (live : gmap string nat) (sessionId : string)
    (P : AgentSession -> Prop) (trace : list (AgentPhase * PhaseOutcome))
    (st : CoreState) : Prop :=
  exists s,
    heap st !! session = Some s /\ P s
    /\ activeSessions st = live
    /\ phase_trace sessionId (emitted st) = trace.

End Orchestrator.

(** The phase events of the phases that come before [p], each started
    and completed. *)
Definition phases_before (p : AgentPhase) : list (AgentPhase * PhaseOutcome) :=
  flat_map (fun q => [(q, started); (q, completed)])
    (slice_to phases (indexOf phases p)).

(** The phase events of a complete run, in order. *)
Definition all_phases_run : list (AgentPhase * PhaseOutcome) :=
  [(ANALYSIS, started); (ANALYSIS, completed);
   (SETUP, started); (SETUP, completed);
   (IMPLEMENTATION, started); (IMPLEMENTATION, completed);
   (REVIEW, started); (REVIEW, completed);
   (DEPLOYMENT, started); (DEPLOYMENT, completed)].

End Core.

(** ** The behaviour base class (core/behaviors/agentic.ts) *)

Module Behavior.

(** What [broadcast] sends for the cases modelled here. *)
Inductive Broadcast : Type :=
| ERROR (error : string).

(** The fields of a [BaseCodingBehavior] that the build trigger reads or
    writes.  [generationPromise] is [null] or the promise of the build in
    flight, named by its rank among the builds started; [builds_started]
    counts the calls of [this.build()], [builds_settled] the builds whose
    [finally] handler has run. *)
Record BaseCodingBehavior : Type := mkBehavior {
  generationPromise : option nat;
  pendingUserInputs : list string;
  pendingUserImages : list JsValue;
  broadcasts : list Broadcast;
  builds_started : nat;
  builds_settled : nat
}.

(** [isCodeGenerating]. *)
Definition isCodeGenerating (this : BaseCodingBehavior) : bool :=
  match generationPromise this with
  | Some _ => true
  | None => false
  end.

(** [triggerBuild]: one synchronous function, test and assignment in the
    same turn of the event loop. *)
Definition triggerBuild (this : BaseCodingBehavior) : BaseCodingBehavior :=
  match generationPromise this with
  | Some _ => this
  | None =>
      mkBehavior (Some (builds_started this)) (pendingUserInputs this)
        (pendingUserImages this) (broadcasts this)
        (S (builds_started this)) (builds_settled this)
  end.

(** The handlers chained on [this.build()] in [triggerBuild], run when
    the build settles: [.then], [.catch], [.finally]. *)
Definition build_settled (outcome : Res unit) (this : BaseCodingBehavior)
  : BaseCodingBehavior :=
  match generationPromise this with
  | None => this
  | Some _ =>
      mkBehavior None (pendingUserInputs this) (pendingUserImages this)
        (match outcome with
         | Ok _ => broadcasts this
         | Throw thrown =>
             broadcasts this ++ [ERROR (message_or "Build failed" thrown)]
         end)
        (builds_started this) (S (builds_settled this))
  end.

(** [handleUserInput]. *)
Definition handleUserInput (userMessage : string)
    (images : option (list JsValue)) (this : BaseCodingBehavior)
  : BaseCodingBehavior :=
  let queued :=
    mkBehavior (generationPromise this)
      (pendingUserInputs this ++ [userMessage])
      (match images with
       | Some (image :: more) => pendingUserImages this ++ image :: more
       | _ => pendingUserImages this
       end)
      (broadcasts this) (builds_started this) (builds_settled this) in
  if negb (isCodeGenerating queued) then triggerBuild queued else queued.

(** [queueUserRequest]. *)
Definition queueUserRequest (message : string)
    (images : option (list JsValue)) (this : BaseCodingBehavior)
  : BaseCodingBehavior :=
  mkBehavior (generationPromise this) (pendingUserInputs this ++ [message])
    (match images with
     | Some more => pendingUserImages this ++ more
     | None => pendingUserImages this
     end)
    (broadcasts this) (builds_started this) (builds_settled this).

(** [fetchPendingUserRequests], as a running build calls it. *)
Definition fetchPendingUserRequests (this : BaseCodingBehavior)
  : list string * BaseCodingBehavior :=
  (pendingUserInputs this,
   mkBehavior (generationPromise this) [] (pendingUserImages this)
     (broadcasts this) (builds_started this) (builds_settled this)).

(** What can happen to a behaviour, one turn of the event loop each. *)
Inductive Turn : Type :=
| trigger
| user_input (userMessage : string) (images : option (list JsValue))
| build_fetches_requests
| build_settles (outcome : Res unit).

Definition turn (this : BaseCodingBehavior) (t : Turn) : BaseCodingBehavior :=
  match t with
  | trigger => triggerBuild this
  | user_input userMessage images => handleUserInput userMessage images this
  | build_fetches_requests =>
      if isCodeGenerating this then snd (fetchPendingUserRequests this) else this
  | build_settles outcome => build_settled outcome this
  end.

(** A behaviour as its constructor leaves it. *)
Definition fresh : BaseCodingBehavior := mkBehavior None [] [] [] 0 0.

Definition builds_in_flight (this : BaseCodingBehavior) : nat :=
  (builds_started this - builds_settled this)%nat.

(** The in-progress flag says exactly whether a build is in flight. *)
Definition flag_matches_builds (this : BaseCodingBehavior) : Prop :=
  match generationPromise this with
  | None => builds_started this = builds_settled this
  | Some _ => builds_started this = S (builds_settled this)
  end.

End Behavior.

(** ** Concrete collaborators and inputs for the examples *)

Module Scenario.

Definition stringify (v : JsValue) : string :=
  match v with
  | JStr text => text
  | _ => "{}"
  end.

Definition to_string (v : JsValue) : string := "[object Object]".

(** A parser that reads every payload as the empty object. *)
Definition parse (text : string) : Res JsValue := Ok (JObj []).

(** A clock that advances one second per reading. *)
Definition clock (n : nat) : Z := 1000 * Z.of_nat n.

Definition random (n : nat) : float := 0.5%float.

(** *** A tool-calling operation *)

Definition write_file : Operations.ToolDefinition unit :=
  Operations.mkTool unit "write_file" "Write a file" JNull
    (fun _ w => (Ok (JStr "written"), w)).

Definition run_tests : Operations.ToolDefinition unit :=
  Operations.mkTool unit "run_tests" "Run the tests" JNull
    (fun _ w => (Throw (ThrownError (new_Error "tests failed")), w)).

Definition tools : list (Operations.ToolDefinition unit) :=
  [write_file; run_tests].

(** A renderer that always returns. *)
Definition quiet_renderer (call : Operations.RenderToolCall) (w : unit)
  : Res unit * unit := (Ok tt, w).

(** A renderer that throws when it is told of a failed call. *)
Definition brittle_renderer (call : Operations.RenderToolCall) (w : unit)
  : Res unit * unit :=
  match Operations.render_status call with
  | Operations.status_error =>
      (Throw (ThrownError (new_Error "renderer crashed")), w)
  | _ => (Ok tt, w)
  end.

Definition callbacks : Operations.ToolCallbacks unit :=
  Operations.mkCallbacks unit true quiet_renderer None.

Definition brittle_callbacks : Operations.ToolCallbacks unit :=
  Operations.mkCallbacks unit true brittle_renderer None.

(** A serialisation that writes every value. *)
Definition serialise (v : JsValue) : Res string := Ok (stringify v).

Definition config : Operations.AgentConfig :=
  Operations.mkConfig "build" "mark_complete" Operations.initial false.

(** A batch of three calls: a tool that succeeds, a name that no tool
    has, a tool that throws. *)
Definition batch : list ToolCallWire :=
  [mkWire (JStr "call-1") (JStr "write_file") (JStr "{}");
   mkWire (JStr "call-2") (JStr "deploy_now") (JStr "{}");
   mkWire (JStr "call-3") (JStr "run_tests") (JStr "{}")].

Definition calls : list Operations.ToolCall :=
  [Operations.mkToolCall (JStr "call-1") (JStr "write_file") (JObj []);
   Operations.mkToolCall (JStr "call-2") (JStr "deploy_now") (JObj []);
   Operations.mkToolCall (JStr "call-3") (JStr "run_tests") (JObj [])].

(** A model that answers every request with that batch. *)
Definition eager_model (n : nat) (messages : list Operations.HistoryMessage)
    (schemas : list Operations.ToolSchema) : Res Infer.StreamRun :=
  Ok (Infer.mkRun [Infer.ChunkContent (JStr "working"); Infer.ChunkToolCall batch]
        None).

Definition fresh_operation : Operations.OpState unit :=
  Operations.mkOp unit tt 0 0 [] [].

(** A body of three reads that cut lines in two: a comment line, a data
    frame, a blank line, then the sentinel and the blank line after it. *)
Definition quiet_body : Infer.Body :=
  Infer.mkBody
    [String.append "event: ping" (String newline "da");
     String.append "ta: {}" (String newline (String newline "data: [DO"));
     String.append "NE]" (String newline (String newline ""))]
    None.

(** The same text in one read. *)
Definition quiet_body_whole : Infer.Body :=
  Infer.mkBody
    [String.append "event: ping"
       (String newline
          (String.append "data: {}"
             (String newline
                (String newline
                   (String.append "data: [DONE]"
                      (String newline (String newline "")))))))]
    None.

Definition quiet_model (n : nat) (messages : list Operations.HistoryMessage)
    (schemas : list Operations.ToolSchema) : Res Infer.StreamRun :=
  Ok (Infer.createStreamIterator parse stringify quiet_body "openai").

(** A body that ends with the sentinel, with no line feed after it. *)
Definition unfinished_body : Infer.Body :=
  Infer.mkBody
    [String.append "data: {}" (String newline "data: [DONE]")]
    None.

Definition unfinished_model (n : nat)
    (messages : list Operations.HistoryMessage)
    (schemas : list Operations.ToolSchema) : Res Infer.StreamRun :=
  Ok (Infer.createStreamIterator parse stringify unfinished_body "openai").

(** *** Operations to retry, over a world that counts their attempts *)

Definition flaky (w : nat) : Res string * nat :=
  if (w <? 2)%nat
  then (Throw (ThrownError (new_Error "upstream timeout")), S w)
  else (Ok "done", S w).

Definition forbidden (w : nat) : Res string * nat :=
  (Throw (ThrownError (new_Error "403 forbidden")), S w).

Definition unreachable (w : nat) : Res string * nat :=
  (Throw (ThrownError (new_Error "network_error: host unreachable")), S w).

Definition request_timeout (w : nat) : Res string * nat :=
  (Throw (ThrownError (new_Error "408 Request Timeout")), S w).

(** An operation that rejects with a plain object, not with an [Error]. *)
Definition rejects_with_object (w : nat) : Res string * nat :=
  (Throw (ThrownValue (JObj [("status", JStr "429")])), S w).

Definition first_try : RetryState nat := mkRetry 0%nat 0%nat [] 0%nat.

(** Options of the inference wrapper that refuse to retry what is
    forbidden. *)
Definition unless_forbidden : Infer.RetryOptions :=
  Infer.mkOptions 3 1000%float 30000%float
    (fun e => negb (includes (message e) "forbidden")).

(** *** Messages to truncate *)

Definition stringify_parts (parts : list ContentPart) : string := "[]".

Definition history : list Message :=
  [mkMessage role_user (ContentString "build a todo app") None None;
   mkMessage role_assistant (ContentString "here is the plan for the app") None
     None;
   mkMessage role_user
     (ContentString "make the list sortable by due date and by priority")
     None None].

(** *** An orchestrator with one live session *)

(** Modelled from the spec: a session store that overwrites by key, with
    the last context and the last status written for each session id. *)
Record Persisted : Type := mkPersisted {
  saved_context : option Core.GenerationContext;
  saved_status : GenerationStatus;
  saved_reason : option string
}.

#[global] Instance overwrite_store : Core.IStateManager (gmap string Persisted) := {
  createSession c saved :=
    <[Core.sessionId c := mkPersisted (Some c) (Core.status c) None]> saved;
  updateSession c saved :=
    <[Core.sessionId c := mkPersisted (Some c) (Core.status c) None]> saved;
  getSession sessionId saved := saved !! sessionId ≫= saved_context;
  getStoredStatus sessionId saved :=
    saved !! sessionId ≫= fun entry =>
      saved_context entry ≫= fun c =>
        Some (Core.SessionStatus.mk sessionId (saved_status entry)
                (Core.phase c) (Core.mode c) (Core.iteration c)
                (Core.calculateProgress c)
                (bool_decide (saved_status entry = TERMINATED)));
  updateSessionStatus sessionId newStatus reason saved :=
    <[sessionId := mkPersisted (saved !! sessionId ≫= saved_context)
                     newStatus reason]> saved
}.

Definition todo_context : Core.GenerationContext :=
  Core.mkContext "session-1" "user-1" "project-1" INITIALIZING AGENTIC
    ANALYSIS 0 "build a todo app" JNull ∅ [] 0 JNull None.

Definition todo_session : Core.AgentSession :=
  Core.mkSession "session-1" todo_context false.

(** A behaviour whose methods all return. *)
Definition calm : Core.BaseBehavior unit :=
  Core.mkBehavior unit
    (fun _ w => (Ok (JStr "plan"), w))
    (fun _ w => (Ok tt, w))
    (fun _ w => (([JStr "index.html"], Ok tt), w))
    (fun _ w => (Ok (Core.mkAnalysis [] [] 0%float), w))
    (fun _ w => (Ok tt, w))
    (fun _ _ w => (Ok tt, w)).

Definition behaviors (m : AgentMode) : Core.BaseBehavior unit := calm.

(** A toolkit of three tools: one that resolves with a text, one that
    resolves with [undefined], one that the timeout overtakes. *)
Definition toolkit : gmap string (Core.Tool unit) :=
  {["read_file" :=
      Core.mkTool unit
        (fun _ _ _ w => (Core.settles_first (Ok (JStr "contents")), w));
    "clear_cache" :=
      Core.mkTool unit
        (fun _ _ _ w => (Core.settles_first (Ok JUndefined), w));
    "run_build" :=
      Core.mkTool unit (fun _ _ _ w => (Core.timer_first, w))]}.

(** An analytics collaborator that takes every record, and one that is
    down. *)
Definition accepting_log (n : nat) (entry : Core.ToolExecution) : Res unit :=
  Ok tt.

Definition rejecting_log (n : nat) (entry : Core.ToolExecution) : Res unit :=
  Throw (ThrownError (new_Error "analytics unavailable")).

Definition no_stack (e : JsError) : option string := None.

(** The orchestrator after [initializeSession]: the session object made,
    registered as live and created in the store. *)
Definition one_session : Core.CoreState unit :=
  Core.mkCore unit {[0%nat := todo_session]} {["session-1" := 0%nat]}
    (Core.createSession todo_context ∅) [] [] [] 0 tt.

(** *** A behaviour with a build in flight *)

Definition building : Behavior.BaseCodingBehavior :=
  Behavior.mkBehavior (Some 0%nat) ["add dark mode"] [] [] 1 0.

(** *** Streams with content, and turns that go wrong *)

(** A parser that reads every payload as an OpenAI delta whose content
    is the payload itself. *)
Definition parse_delta (text : string) : Res JsValue :=
  Ok (JObj [("choices",
             JArr [JObj [("delta", JObj [("content", JStr text)])]])]).

(** A parser that accepts the empty object and nothing else. *)
Definition strict_parse (text : string) : Res JsValue :=
  if String.eqb text "{}" then Ok (JObj [])
  else Throw (ThrownError (mkError "SyntaxError" "Unexpected end of JSON input")).

(** A body of two content frames and the sentinel, cut inside the second
    frame. *)
Definition chatty_body : Infer.Body :=
  Infer.mkBody
    [String.append "data: Hello"
       (String newline (String newline "data: wor"));
     String.append "ld"
       (String newline
          (String newline
             (String.append "data: [DONE]"
                (String newline (String newline "")))))]
    None.

(** A model whose calls all fail. *)
Definition failing_model (n : nat)
    (messages : list Operations.HistoryMessage)
    (schemas : list Operations.ToolSchema) : Res Infer.StreamRun :=
  Throw (ThrownError (new_Error "upstream unavailable")).

(** A call whose arguments stop after the opening brace. *)
Definition cut_call : ToolCallWire :=
  mkWire (JStr "call-4") (JStr "write_file") (JStr "{").

(** A model that sends some content, the batch of three calls, and then
    a second tool-call chunk with the call above. *)
Definition revising_model (n : nat)
    (messages : list Operations.HistoryMessage)
    (schemas : list Operations.ToolSchema) : Res Infer.StreamRun :=
  Ok (Infer.mkRun
        [Infer.ChunkContent (JStr "working"); Infer.ChunkToolCall batch;
         Infer.ChunkToolCall [cut_call]]
        None).

(** A model behind the Gemini reader. *)
Definition gemini_model (n : nat)
    (messages : list Operations.HistoryMessage)
    (schemas : list Operations.ToolSchema) : Res Infer.StreamRun :=
  Ok (Infer.createStreamIterator parse stringify quiet_body "google").

(** Callbacks whose completion callback always throws. *)
Definition history_full (m : Operations.HistoryMessage) (w : unit)
  : Res unit * unit :=
  (Throw (ThrownError (new_Error "history is full")), w).

Definition strict_callbacks : Operations.ToolCallbacks unit :=
  Operations.mkCallbacks unit true quiet_renderer (Some history_full).

(** *** Provider requests *)

Definition keys : Requests.Env :=
  Requests.mkEnv JUndefined (JStr "sk-test") JUndefined JUndefined JUndefined
    JUndefined JUndefined.

Definition chat : Requests.InferOptions :=
  Requests.mkInferOptions keys "openai" "gpt-4o" history None (JBool true)
    (JNum 0%float) JUndefined.

(** A server that answers every request with the chatty body. *)
Definition answering (n : nat) (request : Requests.Request)
  : Res Requests.Response :=
  Ok (Requests.mkResponse true 200 (Ok "") (Ok JNull) chatty_body).

(** *** Sessions that fail, and sessions found in the store *)

(** A behaviour whose review throws. *)
Definition stuck_in_review : Core.BaseBehavior unit :=
  Core.mkBehavior unit
    (fun _ w => (Ok (JStr "plan"), w))
    (fun _ w => (Ok tt, w))
    (fun _ w => (([JStr "index.html"], Ok tt), w))
    (fun _ w => (Throw (ThrownError (new_Error "review service down")), w))
    (fun _ w => (Ok tt, w))
    (fun _ _ w => (Ok tt, w)).

Definition stuck_behaviors (m : AgentMode) : Core.BaseBehavior unit :=
  stuck_in_review.

(** A context stored while its session was in the review phase. *)
Definition interrupted_context : Core.GenerationContext :=
  Core.mkContext "session-2" "user-1" "project-1" PROCESSING AGENTIC REVIEW 0
    "build a todo app" JNull ∅ [] 0 JNull None.

(** An orchestrator that has just started, over a store that has that
    context. *)
Definition after_restart : Core.CoreState unit :=
  Core.mkCore unit ∅ ∅ (Core.createSession interrupted_context ∅) [] [] [] 0 tt.

End Scenario.

(** * Properties *)

(** ** Message truncation *)

Section TruncationFacts.

Variable JSON_stringify_parts : list ContentPart -> string.

Lemma truncate_from_drop messages maxTokens i totalTokens result :
  (i <= length messages)%nat ->
  result = drop i messages ->
  exists k, (k <= i)%nat /\
    Infer.truncate_from JSON_stringify_parts messages maxTokens i totalTokens
      result = drop k messages.
Proof.
  revert totalTokens result.
  induction i as [|j IH]; intros totalTokens result Hi Hres.
  - exists O. simpl. rewrite Hres. auto.
  - simpl. destruct (messages !! j) as [msg|] eqn:Hj.
    + destruct (_ && _).
      * exists (S j). split; [lia|exact Hres].
      * destruct (IH (totalTokens
                      + Infer.estimateTokens
                          (Infer.content_text JSON_stringify_parts msg))
                    (msg :: result)) as (k & Hk & Heq).
        { lia. }
        { rewrite Hres. symmetry. apply drop_S. exact Hj. }
        exists k. split; [lia|exact Heq].
    + apply lookup_ge_None in Hj. lia.
Qed.

Lemma truncate_from_grows messages maxTokens i totalTokens result :
  (length result
   <= length (Infer.truncate_from JSON_stringify_parts messages maxTokens i
                totalTokens result))%nat.
Proof.
  revert totalTokens result.
  induction i as [|j IH]; intros totalTokens result; simpl; [lia|].
  destruct (messages !! j) as [msg|]; [|lia].
  destruct (_ && _); [lia|].
  etransitivity; [|apply IH]. simpl. lia.
Qed.

Lemma truncate_from_first_kept messages maxTokens i totalTokens :
  (0 < i <= length messages)%nat ->
  Infer.truncate_from JSON_stringify_parts messages maxTokens i totalTokens []
  <> [].
Proof.
  intros [Hpos Hle]. destruct i as [|j]; [lia|]. simpl.
  destruct (messages !! j) as [msg|] eqn:Hj.
  - rewrite andb_false_r. intros Hnil.
    pose proof (truncate_from_grows messages maxTokens j
                  (totalTokens
                   + Infer.estimateTokens
                       (Infer.content_text JSON_stringify_parts msg))
                  [msg]) as Hlen.
    rewrite Hnil in Hlen. simpl in Hlen. lia.
  - apply lookup_ge_None in Hj. lia.
Qed.

(** C10.  Whatever the token limit, [truncateMessages] returns a
    contiguous suffix of its input: the messages from some index on, in
    their order.  A non-empty input gives a non-empty result, whose last
    message is the input's last message, so the most recent message is
    kept even when it alone is over the limit. *)
Theorem truncateMessages_recent_suffix (messages : list Message)
    (maxTokens : Z) :
  0 <= maxTokens ->
  (exists k : nat,
      Infer.truncateMessages JSON_stringify_parts messages maxTokens
      = drop k messages) /\
  Infer.truncateMessages JSON_stringify_parts messages maxTokens
    `suffix_of` messages /\
  (messages <> [] ->
   Infer.truncateMessages JSON_stringify_parts messages maxTokens <> [] /\
   last (Infer.truncateMessages JSON_stringify_parts messages maxTokens)
   = last messages).
Proof.
  intros _.
  destruct (truncate_from_drop messages maxTokens (length messages) 0 [])
    as (k & Hk & Heq).
  { lia. }
  { symmetry. apply drop_all. }
  unfold Infer.truncateMessages. rewrite Heq.
  split; [eauto|]. split; [apply suffix_drop|].
  intros Hne.
  assert (Hkept : drop k messages <> []).
  { rewrite <- Heq. apply truncate_from_first_kept.
    destruct messages; [congruence|simpl; lia]. }
  split; [exact Hkept|].
  assert (Hlt : (k < length messages)%nat).
  { destruct (decide (k < length messages)%nat) as [|Hge]; [assumption|].
    exfalso. apply Hkept. apply drop_ge. lia. }
  rewrite !last_lookup, lookup_drop, length_drop. f_equal. lia.
Qed.

(** *** The token budget *)

Local Abbreviation tokens := (Infer.message_tokens JSON_stringify_parts).
Local Abbreviation total := (Infer.total_tokens JSON_stringify_parts).
Local Abbreviation truncateMessages :=
  (Infer.truncateMessages JSON_stringify_parts).

Lemma estimateTokens_nonneg text : 0 <= Infer.estimateTokens text.
Proof. unfold Infer.estimateTokens. apply Z.div_pos; lia. Qed.

Lemma total_tokens_nonneg messages : 0 <= total messages.
Proof.
  induction messages as [|msg messages IH]; [cbn; lia|].
  change (0 <= tokens msg + total messages).
  pose proof (estimateTokens_nonneg
                (Infer.content_text JSON_stringify_parts msg)).
  unfold Infer.message_tokens. lia.
Qed.

Lemma total_tokens_app older kept :
  total (older ++ kept) = total older + total kept.
Proof.
  induction older as [|msg older IH]; [reflexivity|].
  change (tokens msg + total (older ++ kept)
          = tokens msg + total older + total kept). lia.
Qed.

Lemma total_tokens_drop messages j msg :
  messages !! j = Some msg ->
  total (drop j messages) = tokens msg + total (drop (S j) messages).
Proof. intros Hj. rewrite (drop_S _ _ _ Hj). reflexivity. Qed.

(** Where the loop stops: it has taken every message from [k] on, each
    one within the budget when it was taken (or the very first one taken),
    and the message before [k], if there is one, did not fit. *)
Lemma truncate_from_longest messages maxTokens i :
  (i <= length messages)%nat ->
  exists k, (k <= i)%nat
    /\ Infer.truncate_from JSON_stringify_parts messages maxTokens i
         (total (drop i messages)) (drop i messages)
       = drop k messages
    /\ (forall j msg, (k <= j < i)%nat -> messages !! j = Some msg ->
          tokens msg + total (drop (S j) messages) <= maxTokens
          \/ S j = length messages)
    /\ ((0 < k)%nat ->
        (k < length messages)%nat
        /\ exists msg, messages !! (k - 1)%nat = Some msg
                       /\ maxTokens < total (drop k messages) + tokens msg).
Proof.
  induction i as [|j IH]; intros Hi.
  - exists 0%nat. split; [lia|]. split; [reflexivity|].
    split; [intros j msg Hj; lia|intros Hk; lia].
  - destruct (messages !! j) as [msg|] eqn:Hj.
    2:{ apply lookup_ge_None in Hj. lia. }
    cbn [Infer.truncate_from]. rewrite Hj.
    fold (tokens msg).
    destruct ((total (drop (S j) messages) + tokens msg >? maxTokens)
              && (0 <? length (drop (S j) messages))%nat) eqn:Hstop.
    + apply andb_true_iff in Hstop as [Hover Hsome].
      apply Z.gtb_lt in Hover. apply Nat.ltb_lt in Hsome.
      rewrite length_drop in Hsome.
      exists (S j). split; [lia|]. split; [reflexivity|].
      split; [intros j' msg' Hj'; lia|].
      intros _. split; [lia|]. exists msg.
      replace (S j - 1)%nat with j by lia. split; [exact Hj|lia].
    + destruct IH as (k & Hk & Hrun & Htaken & Hleft); [lia|].
      rewrite (drop_S _ _ _ Hj) in Hrun. cbn [Infer.total_tokens fold_right] in Hrun.
      fold (total (drop (S j) messages)) in Hrun.
      replace (total (drop (S j) messages) + tokens msg)
        with (tokens msg + total (drop (S j) messages)) by lia.
      exists k. split; [lia|]. split; [exact Hrun|]. split; [|exact Hleft].
      intros j' msg' Hj' Hmsg'.
      destruct (decide (j' = j)) as [->|Hne].
      * rewrite Hj in Hmsg'. injection Hmsg' as <-.
        apply andb_false_iff in Hstop as [Hfits|Hnone].
        -- left. rewrite Z.gtb_ltb in Hfits. apply Z.ltb_ge in Hfits. lia.
        -- right. apply Nat.ltb_ge in Hnone. rewrite length_drop in Hnone. lia.
      * apply (Htaken j' msg'); [lia|exact Hmsg'].
Qed.

Lemma truncateMessages_longest messages maxTokens :
  exists k, (k <= length messages)%nat
    /\ truncateMessages messages maxTokens = drop k messages
    /\ (forall j msg, (k <= j)%nat -> messages !! j = Some msg ->
          tokens msg + total (drop (S j) messages) <= maxTokens
          \/ S j = length messages)
    /\ ((0 < k)%nat ->
        (k < length messages)%nat
        /\ exists msg, messages !! (k - 1)%nat = Some msg
                       /\ maxTokens < total (drop k messages) + tokens msg).
Proof.
  destruct (truncate_from_longest messages maxTokens (length messages))
    as (k & Hk & Hrun & Htaken & Hleft); [lia|].
  rewrite drop_all in Hrun. exists k. split; [exact Hk|].
  split; [exact Hrun|]. split; [|exact Hleft].
  intros j msg Hj Hmsg. apply (Htaken j msg); [|exact Hmsg].
  apply lookup_lt_Some in Hmsg. lia.
Qed.

(** A list all of whose messages are taken is returned whole. *)
Lemma truncate_from_all_taken messages maxTokens :
  (forall j msg, messages !! j = Some msg ->
     tokens msg + total (drop (S j) messages) <= maxTokens
     \/ S j = length messages) ->
  forall i, (i <= length messages)%nat ->
    Infer.truncate_from JSON_stringify_parts messages maxTokens i
      (total (drop i messages)) (drop i messages)
    = messages.
Proof.
  intros Htaken. induction i as [|j IH]; intros Hi; [reflexivity|].
  destruct (messages !! j) as [msg|] eqn:Hj.
  2:{ apply lookup_ge_None in Hj. lia. }
  cbn [Infer.truncate_from]. rewrite Hj. fold (tokens msg).
  replace ((total (drop (S j) messages) + tokens msg >? maxTokens)
           && (0 <? length (drop (S j) messages))%nat) with false.
  - replace (total (drop (S j) messages) + tokens msg)
      with (total (drop j messages))
      by (rewrite (total_tokens_drop _ _ _ Hj); lia).
    rewrite <- (drop_S _ _ _ Hj). apply IH. lia.
  - symmetry. apply andb_false_iff.
    destruct (Htaken j msg Hj) as [Hfits|Hlast].
    + left. rewrite Z.gtb_ltb. apply Z.ltb_ge. lia.
    + right. apply Nat.ltb_ge. rewrite length_drop. lia.
Qed.

(** Whenever [truncateMessages] keeps more than one message, what it
    keeps is within the limit: only a single message, the most recent one,
    can be over it. *)
Theorem truncateMessages_within_budget (messages : list Message)
    (maxTokens : Z) :
  (1 < length (truncateMessages messages maxTokens))%nat ->
  total (truncateMessages messages maxTokens) <= maxTokens.
Proof.
  destruct (truncateMessages_longest messages maxTokens)
    as (k & Hk & -> & Htaken & _).
  rewrite length_drop. intros Hmany.
  destruct (messages !! k) as [msg|] eqn:Hmsg.
  2:{ apply lookup_ge_None in Hmsg. lia. }
  rewrite (total_tokens_drop _ _ _ Hmsg).
  destruct (Htaken k msg ltac:(lia) Hmsg) as [Hfits|Hlast]; lia.
Qed.

(** [truncateMessages] keeps the longest suffix it can: messages that fit
    the limit together are returned unchanged, and when a message is
    dropped, it is because it did not fit with the ones kept after it. *)
Theorem truncateMessages_longest_suffix (messages : list Message)
    (maxTokens : Z) :
  (total messages <= maxTokens ->
   truncateMessages messages maxTokens = messages)
  /\ (forall older msg kept,
        messages = older ++ msg :: kept ->
        truncateMessages messages maxTokens = kept ->
        maxTokens < tokens msg + total kept).
Proof.
  destruct (truncateMessages_longest messages maxTokens)
    as (k & Hk & Hrun & _ & Hleft).
  split.
  - intros Hfits. rewrite Hrun.
    destruct k as [|k]; [reflexivity|].
    destruct (Hleft ltac:(lia)) as (_ & msg & Hmsg & Hover).
    replace (S k - 1)%nat with k in Hmsg by lia.
    pose proof (total_tokens_drop _ _ _ Hmsg) as Hsplit.
    pose proof (total_tokens_app (take k messages) (drop k messages)) as Happ.
    rewrite take_drop in Happ.
    pose proof (total_tokens_nonneg (take k messages)). lia.
  - intros older msg kept -> Hkept. rewrite Hrun in Hkept.
    assert (Hlen : k = S (length older)).
    { apply (f_equal length) in Hkept.
      rewrite length_drop, length_app in Hkept. cbn [length] in Hkept.
      rewrite length_app in Hk. cbn [length] in Hk. lia. }
    subst k.
    destruct (Hleft ltac:(lia)) as (_ & msg' & Hmsg' & Hover).
    replace (S (length older) - 1)%nat with (length older) in Hmsg' by lia.
    rewrite list_lookup_middle in Hmsg' by reflexivity.
    injection Hmsg' as <-. rewrite Hkept in Hover. lia.
Qed.

(** Truncating twice is truncating once. *)
Theorem truncateMessages_idempotent (messages : list Message) (maxTokens : Z) :
  truncateMessages (truncateMessages messages maxTokens) maxTokens
  = truncateMessages messages maxTokens.
Proof.
  destruct (truncateMessages_longest messages maxTokens)
    as (k & Hk & -> & Htaken & _).
  unfold Infer.truncateMessages.
  pose proof (truncate_from_all_taken (drop k messages) maxTokens) as Hall.
  assert (Htaken' : forall j msg,
             drop k messages !! j = Some msg ->
             tokens msg + total (drop (S j) (drop k messages)) <= maxTokens
             \/ S j = length (drop k messages)).
  { intros j msg Hmsg. rewrite lookup_drop in Hmsg.
    rewrite drop_drop, length_drop.
    destruct (Htaken (k + j)%nat msg ltac:(lia) Hmsg) as [Hfits|Hlast].
    - left. replace (k + S j)%nat with (S (k + j)) by lia. exact Hfits.
    - right. lia. }
  specialize (Hall Htaken' (length (drop k messages)) (le_n _)).
  rewrite drop_all in Hall. exact Hall.
Qed.

(** A larger limit never keeps less: what is kept under the smaller
    limit is a suffix of what is kept under the larger one. *)
Theorem truncateMessages_monotone (messages : list Message) (small large : Z) :
  small <= large ->
  truncateMessages messages small `suffix_of` truncateMessages messages large.
Proof.
  intros Hle.
  destruct (truncateMessages_longest messages small)
    as (k1 & Hk1 & -> & Htaken & _).
  destruct (truncateMessages_longest messages large)
    as (k2 & Hk2 & -> & _ & Hleft).
  assert (Hk : (k2 <= k1)%nat).
  { destruct (decide (k2 <= k1)%nat) as [|Hgt]; [assumption|exfalso].
    destruct (Hleft ltac:(lia)) as (Hlt & msg & Hmsg & Hover).
    destruct (Htaken (k2 - 1)%nat msg ltac:(lia) Hmsg) as [Hfits|Hlast];
      [|lia].
    replace (S (k2 - 1)) with k2 in Hfits by lia. lia. }
  replace k1 with (k2 + (k1 - k2))%nat by lia.
  rewrite <- drop_drop. apply suffix_drop.
Qed.

End TruncationFacts.

(** ** The stream reader *)

Section StreamFacts.

Variable JSON_parse : string -> Res JsValue.
Variable JSON_stringify : JsValue -> string.

Local Abbreviation yield_lines := (Infer.yield_lines JSON_parse JSON_stringify).
Local Abbreviation read_loop := (Infer.read_loop JSON_parse JSON_stringify).
Local Abbreviation unrecognized := (Infer.unrecognized JSON_parse JSON_stringify).

Lemma split_newline_nonempty s : split_newline s <> [].
Proof.
  destruct s as [|c s]; simpl; [discriminate|].
  destruct (Ascii.eqb c newline); [discriminate|].
  destruct (split_newline s); discriminate.
Qed.

Lemma removelast_cons {A} (x : A) l : l <> [] -> removelast (x :: l) = x :: removelast l.
Proof. destruct l; [congruence|reflexivity]. Qed.

Lemma last_cons {A} (x d : A) l : l <> [] -> List.last (x :: l) d = List.last l d.
Proof. destruct l; [congruence|reflexivity]. Qed.

Lemma append_String c a b : String c a +:+ b = String c (a +:+ b).
Proof. reflexivity. Qed.

Lemma append_empty_l b : "" +:+ b = b.
Proof. reflexivity. Qed.

(** Splitting a text that arrives in two parts: the complete lines of the
    first part, then the lines of its unfinished tail joined to the
    second part. *)
Lemma split_newline_app a b :
  split_newline (a +:+ b)
  = removelast (split_newline a)
    ++ split_newline (List.last (split_newline a) "" +:+ b).
Proof.
  induction a as [|c a IH]; [reflexivity|].
  rewrite append_String. cbn [split_newline].
  pose proof (split_newline_nonempty a) as Hne.
  destruct (Ascii.eqb c newline) eqn:Hc.
  - rewrite removelast_cons, last_cons by assumption.
    rewrite IH. reflexivity.
  - rewrite IH. destruct (split_newline a) as [|p [|q ps]]; [congruence| |].
    + cbn [removelast List.last app].
      rewrite append_String. cbn [split_newline]. rewrite Hc.
      destruct (split_newline (p +:+ b)); reflexivity.
    + cbn [removelast List.last app]. reflexivity.
Qed.

(** The unfinished tail of a text has no line feed in it. *)
Lemma split_newline_last s :
  split_newline (List.last (split_newline s) "")
  = [List.last (split_newline s) ""].
Proof.
  induction s as [|c s IH]; [reflexivity|].
  cbn [split_newline].
  pose proof (split_newline_nonempty s) as Hne.
  destruct (Ascii.eqb c newline) eqn:Hc.
  - rewrite last_cons by assumption. exact IH.
  - destruct (split_newline s) as [|p [|q ps]]; [congruence| |].
    + cbn [List.last] in *. cbn [split_newline]. rewrite Hc, IH. reflexivity.
    + cbn [List.last] in *. exact IH.
Qed.

Lemma yield_lines_app provider l1 l2 :
  yield_lines provider (l1 ++ l2)
  = let '(chunks1, returned1) := yield_lines provider l1 in
    if returned1 then (chunks1, true)
    else let '(chunks2, returned2) := yield_lines provider l2 in
         (chunks1 ++ chunks2, returned2).
Proof.
  induction l1 as [|line l1 IH].
  - simpl. destruct (yield_lines provider l2). reflexivity.
  - cbn [app Infer.yield_lines].
    destruct (_ || _); [exact IH|].
    destruct (String.eqb _ "[DONE]"); [reflexivity|].
    destruct (Infer.frame_chunk _ _ _ _); [|exact IH].
    rewrite IH. destruct (yield_lines provider l1) as [chunks1 [|]];
      [reflexivity|].
    destruct (yield_lines provider l2). reflexivity.
Qed.

(** The reader's output does not depend on how the body is cut into reads:
    it is what the complete lines of the whole text yield, and a failed
    read only shows when no sentinel came before it. *)
Lemma read_loop_lines provider pending at_end buffer :
  split_newline buffer = [buffer] ->
  read_loop provider pending at_end buffer
  = let '(chunks, returned) :=
      yield_lines provider
        (removelast (split_newline
                       (buffer +:+ fold_right String.append "" pending))) in
    Infer.mkRun chunks (if returned then None else at_end).
Proof.
  revert buffer. induction pending as [|value later IH]; intros buffer Hbuf.
  - cbn [fold_right Infer.read_loop].
    replace (buffer +:+ "") with buffer.
    2:{ clear. induction buffer as [|c s IHs]; [reflexivity|].
        rewrite append_String, <- IHs. reflexivity. }
    rewrite Hbuf. reflexivity.
  - cbn [fold_right Infer.read_loop]. unfold Infer.pop_line.
    replace (buffer +:+ value +:+ fold_right String.append "" later)
      with ((buffer +:+ value) +:+ fold_right String.append "" later).
    2:{ clear. induction buffer as [|c s IHs]; [reflexivity|].
        rewrite !append_String, IHs. reflexivity. }
    rewrite (split_newline_app (buffer +:+ value)).
    set (lines := removelast (split_newline (buffer +:+ value))).
    set (tail := List.last (split_newline (buffer +:+ value)) "").
    rewrite removelast_app by apply split_newline_nonempty.
    rewrite yield_lines_app.
    rewrite (IH tail) by apply split_newline_last.
    destruct (yield_lines provider lines) as [chunks1 [|]]; [reflexivity|].
    destruct (yield_lines provider _) as [chunks2 returned2]. reflexivity.
Qed.

Lemma yield_unrecognized provider frames rest :
  forallb (unrecognized provider) frames = true ->
  yield_lines provider (frames ++ rest) = yield_lines provider rest.
Proof.
  induction frames as [|line frames IH]; [reflexivity|].
  cbn [forallb app Infer.yield_lines]. intros Hall.
  apply andb_true_iff in Hall as [Hline Hrest].
  unfold Infer.unrecognized in Hline.
  destruct (String.eqb (trim line) "" || negb (startsWith line "data:"))
    eqn:Hskip; [exact (IH Hrest)|].
  cbn [orb] in Hline. apply andb_true_iff in Hline as [Hdone Hnone].
  apply negb_true_iff in Hdone. rewrite Hdone.
  destruct (Infer.frame_chunk _ _ _ _); [discriminate|exact (IH Hrest)].
Qed.

Lemma yield_sentinel provider line rest :
  Infer.is_sentinel line = true ->
  yield_lines provider (line :: rest) = ([Infer.ChunkComplete], true).
Proof.
  unfold Infer.is_sentinel. intros Hs.
  apply andb_true_iff in Hs as [Hdata Hdone].
  apply negb_true_iff in Hdata.
  cbn [Infer.yield_lines]. rewrite Hdata, Hdone. reflexivity.
Qed.

(** A body whose lines, all ended by a line feed, are unrecognized frames
    and then the sentinel: the reader yields the completion chunk and
    ends, however the body is cut into reads and whatever follows. *)
Lemma createStreamIterator_sentinel body provider frames sentinel rest :
  split_newline (Infer.body_text body) = frames ++ sentinel :: rest ->
  rest <> [] ->
  forallb (unrecognized provider) frames = true ->
  Infer.is_sentinel sentinel = true ->
  Infer.createStreamIterator JSON_parse JSON_stringify body provider
  = Infer.mkRun [Infer.ChunkComplete] None.
Proof.
  intros Htext Hrest Hframes Hsentinel.
  unfold Infer.createStreamIterator.
  rewrite read_loop_lines by reflexivity.
  rewrite append_empty_l. fold (Infer.body_text body). rewrite Htext.
  rewrite removelast_app by discriminate.
  rewrite removelast_cons by assumption.
  rewrite yield_unrecognized by assumption.
  rewrite yield_sentinel by assumption. reflexivity.
Qed.

(** A body whose complete lines are all unrecognized frames: the reader
    yields nothing, whatever the text after the last line feed is, and ends
    the way the reading of the body ends. *)
Lemma createStreamIterator_unterminated body provider frames unfinished :
  split_newline (Infer.body_text body) = frames ++ [unfinished] ->
  forallb (unrecognized provider) frames = true ->
  Infer.createStreamIterator JSON_parse JSON_stringify body provider
  = Infer.mkRun [] (Infer.read_error body).
Proof.
  intros Htext Hframes.
  unfold Infer.createStreamIterator.
  rewrite read_loop_lines by reflexivity.
  rewrite append_empty_l. fold (Infer.body_text body). rewrite Htext.
  rewrite removelast_last.
  rewrite <- (app_nil_r frames), yield_unrecognized by assumption.
  reflexivity.
Qed.

(** What the reader yields depends on the text of the body and on how
    its reading ends, not on where the reads cut the text. *)
Theorem createStreamIterator_cut_independent (body1 body2 : Infer.Body)
    (provider : string) :
  Infer.body_text body1 = Infer.body_text body2 ->
  Infer.read_error body1 = Infer.read_error body2 ->
  Infer.createStreamIterator JSON_parse JSON_stringify body1 provider
  = Infer.createStreamIterator JSON_parse JSON_stringify body2 provider.
Proof.
  intros Htext Hend. unfold Infer.createStreamIterator.
  rewrite !read_loop_lines by reflexivity. rewrite !append_empty_l.
  fold (Infer.body_text body1). fold (Infer.body_text body2).
  rewrite Htext, Hend. reflexivity.
Qed.

(** *** What the reader can yield *)

Lemma parseStreamChunk_payload data provider chunk :
  Infer.parseStreamChunk JSON_stringify data provider = Ok (Some chunk) ->
  Infer.payload_chunk chunk = true.
Proof.
  unfold Infer.parseStreamChunk, Infer.parseAnthropicChunk,
    Infer.parseOpenAIChunk, Infer.parseGoogleChunk.
  destruct (String.eqb provider "anthropic").
  { destruct (js_get data "type") as [type|]; [|discriminate]. cbn [res_bind].
    destruct (js_is_string type "content_block_delta"
              && js_truthy (js_get_opt (js_get_opt data "delta") "text"))
      eqn:Htext.
    - intros [= <-]. apply andb_true_iff in Htext as [_ Htext]. exact Htext.
    - destruct (js_is_string type "tool_use"); intros [= <-]. reflexivity. }
  destruct (String.eqb provider "openai" || String.eqb provider "cloudflare"
            || String.eqb provider "cerebras").
  { destruct (js_get data "choices") as [choices|]; [|discriminate].
    cbn [res_bind].
    destruct (negb (js_truthy (js_get_opt (js_first_opt choices) "delta")));
      [discriminate|].
    destruct (js_truthy (js_get_opt
                           (js_get_opt (js_first_opt choices) "delta")
                           "content")) eqn:Htext.
    - intros [= <-]. exact Htext.
    - clear Htext. destruct (js_truthy _); [|discriminate].
      destruct (js_get_opt _ "tool_calls"); try discriminate.
      destruct (Infer.map_res _ _); [|discriminate].
      intros [= <-]. reflexivity. }
  destruct (String.eqb provider "google"); [|discriminate].
  destruct (js_get data "candidates") as [candidates|]; [|discriminate].
  cbn [res_bind].
  destruct (js_truthy _) eqn:Htext; [|discriminate].
  intros [= <-]. exact Htext.
Qed.

(** A frame is never mapped to the completion chunk nor to empty
    content. *)
Lemma frame_chunk_payload provider data chunk :
  Infer.frame_chunk JSON_parse JSON_stringify provider data = Some chunk ->
  Infer.payload_chunk chunk = true.
Proof.
  unfold Infer.frame_chunk.
  destruct (JSON_parse data) as [parsed|]; [|discriminate]. cbn [res_bind].
  destruct (Infer.parseStreamChunk JSON_stringify parsed provider)
    as [[found|]|] eqn:Hparse; try discriminate.
  intros [= <-]. exact (parseStreamChunk_payload _ _ _ Hparse).
Qed.

(** [parseStreamChunk] has no parser for a provider outside its list. *)
Lemma frame_chunk_unparsed provider data :
  provider ∉ Infer.parsed_providers ->
  Infer.frame_chunk JSON_parse JSON_stringify provider data = None.
Proof.
  intros Hout. unfold Infer.frame_chunk, Infer.parseStreamChunk.
  assert (Hne : forall name, name ∈ Infer.parsed_providers ->
                             String.eqb provider name = false).
  { intros name Hin. apply String.eqb_neq. intros ->. exact (Hout Hin). }
  unfold Infer.parsed_providers in Hne.
  rewrite !Hne by set_solver.
  destruct (JSON_parse data); reflexivity.
Qed.

(** The Gemini parser only ever finds content. *)
Lemma frame_chunk_google data chunk :
  Infer.frame_chunk JSON_parse JSON_stringify "google" data = Some chunk ->
  exists text, chunk = Infer.ChunkContent text.
Proof.
  unfold Infer.frame_chunk.
  destruct (JSON_parse data) as [parsed|]; [|discriminate]. cbn [res_bind].
  change (Infer.parseStreamChunk JSON_stringify parsed "google")
    with (Infer.parseGoogleChunk parsed).
  unfold Infer.parseGoogleChunk.
  destruct (js_get parsed "candidates"); [|discriminate]. cbn [res_bind].
  destruct (js_truthy _); [|discriminate]. intros [= <-]. eauto.
Qed.

(** What the line loop yields: chunks that frames were mapped to, and
    after them the completion chunk exactly when the loop left at the
    sentinel. *)
Lemma yield_lines_shape provider (P : Infer.StreamChunk -> Prop) lines :
  (forall data chunk,
      Infer.frame_chunk JSON_parse JSON_stringify provider data = Some chunk ->
      P chunk) ->
  exists payload,
    Forall P payload
    /\ fst (yield_lines provider lines)
       = payload ++ (if snd (yield_lines provider lines)
                     then [Infer.ChunkComplete] else []).
Proof.
  intros Hframe. induction lines as [|line lines IH].
  - exists []. split; [constructor|reflexivity].
  - cbn [Infer.yield_lines].
    destruct (_ || _); [exact IH|].
    destruct (String.eqb _ "[DONE]").
    { exists []. split; [constructor|reflexivity]. }
    destruct (Infer.frame_chunk _ _ _ _) as [chunk|] eqn:Hchunk; [|exact IH].
    destruct IH as (payload & Hall & Hshape).
    destruct (yield_lines provider lines) as [chunks returned].
    cbn [fst snd] in *. exists (chunk :: payload).
    split; [constructor; eauto|]. rewrite Hshape. reflexivity.
Qed.

Lemma createStreamIterator_shape body provider (P : Infer.StreamChunk -> Prop) :
  (forall data chunk,
      Infer.frame_chunk JSON_parse JSON_stringify provider data = Some chunk ->
      P chunk) ->
  exists payload (returned : bool),
    Forall P payload
    /\ Infer.createStreamIterator JSON_parse JSON_stringify body provider
       = Infer.mkRun
           (payload ++ (if returned then [Infer.ChunkComplete] else []))
           (if returned then None else Infer.read_error body).
Proof.
  intros Hframe. unfold Infer.createStreamIterator.
  rewrite read_loop_lines by reflexivity. rewrite append_empty_l.
  destruct (yield_lines_shape provider P
              (removelast
                 (split_newline (fold_right String.append "" (Infer.reads body))))
              Hframe) as (payload & Hall & Hshape).
  destruct (yield_lines provider _) as [chunks returned].
  cbn [fst snd] in Hshape. exists payload, returned.
  split; [exact Hall|]. rewrite Hshape. reflexivity.
Qed.

(** The completion chunk can only be the last chunk of the stream, and a
    stream that has it ends without error, whatever the reads after the
    sentinel do; a stream that does not have it ends the way the reading of
    the body ended. *)
Theorem createStreamIterator_ends_at_sentinel (body : Infer.Body)
    (provider : string) :
  let run := Infer.createStreamIterator JSON_parse JSON_stringify body provider in
  (forall i, Infer.events run !! i = Some Infer.ChunkComplete ->
             S i = length (Infer.events run) /\ Infer.failure run = None)
  /\ (Infer.ChunkComplete ∉ Infer.events run ->
      Infer.failure run = Infer.read_error body).
Proof.
  cbv zeta.
  destruct (createStreamIterator_shape body provider
              (fun chunk => chunk <> Infer.ChunkComplete))
    as (payload & returned & Hall & ->).
  { intros data chunk Hchunk ->.
    apply frame_chunk_payload in Hchunk. discriminate. }
  cbn [Infer.events Infer.failure].
  assert (Hpayload : forall i, payload !! i <> Some Infer.ChunkComplete).
  { intros i Hi. rewrite Forall_lookup in Hall. exact (Hall i _ Hi eq_refl). }
  split.
  - intros i Hi. destruct returned.
    + destruct (decide (i < length payload)%nat) as [Hlt|Hge].
      * rewrite lookup_app_l in Hi by assumption. destruct (Hpayload i Hi).
      * apply lookup_lt_Some in Hi. rewrite length_app in Hi |- *.
        cbn [length] in *. split; [lia|reflexivity].
    + rewrite app_nil_r in Hi. destruct (Hpayload i Hi).
  - intros Hnone. destruct returned; [|reflexivity].
    exfalso. apply Hnone. set_solver.
Qed.

(** Content that reaches the consumer is never empty: every content
    chunk carries a truthy value, whatever the provider. *)
Theorem createStreamIterator_content_truthy (body : Infer.Body)
    (provider : string) (text : JsValue) :
  Infer.ChunkContent text
    ∈ Infer.events
        (Infer.createStreamIterator JSON_parse JSON_stringify body provider) ->
  js_truthy text = true.
Proof.
  destruct (createStreamIterator_shape body provider
              (fun chunk => Infer.payload_chunk chunk = true))
    as (payload & returned & Hall & ->).
  { intros data chunk. apply frame_chunk_payload. }
  cbn [Infer.events]. intros Hin. apply elem_of_app in Hin as [Hin|Hin].
  - rewrite Forall_forall in Hall. exact (Hall _ Hin).
  - destruct returned; [|inversion Hin].
    inversion Hin as [|? ? ? Hnil]; inversion Hnil.
Qed.

(** For a provider that [parseStreamChunk] has no parser for, no frame
    yields anything: the stream is empty, or the completion chunk alone. *)
Theorem createStreamIterator_unparsed_provider (body : Infer.Body)
    (provider : string) :
  provider ∉ Infer.parsed_providers ->
  Infer.events
    (Infer.createStreamIterator JSON_parse JSON_stringify body provider) = []
  \/ Infer.createStreamIterator JSON_parse JSON_stringify body provider
     = Infer.mkRun [Infer.ChunkComplete] None.
Proof.
  intros Hout.
  destruct (createStreamIterator_shape body provider (fun _ => False))
    as (payload & returned & Hall & ->).
  { intros data chunk Hchunk.
    rewrite (frame_chunk_unparsed provider data Hout) in Hchunk.
    discriminate. }
  destruct payload as [|chunk payload]; [|inversion Hall; contradiction].
  destruct returned; [right|left]; reflexivity.
Qed.

(** Text after the last line feed is never looked at: a body that stops
    right after the characters of the sentinel yields nothing. *)
Lemma unfinished_line_not_read provider at_end :
  Infer.createStreamIterator JSON_parse JSON_stringify
    (Infer.mkBody ["data: [DONE]"] at_end) provider
  = Infer.mkRun [] at_end.
Proof. reflexivity. Qed.

End StreamFacts.

(** ** The tool-calling loop *)

Lemma bind_Ok {St A B} (m : Eff St A) (k : A -> Eff St B) st a st' :
  m st = (Ok a, st') -> bind m k st = k a st'.
Proof. unfold bind. intros ->. reflexivity. Qed.

Lemma bind_Throw {St A B} (m : Eff St A) (k : A -> Eff St B) st t st' :
  m st = (Throw t, st') -> bind m k st = (Throw t, st').
Proof. unfold bind. intros ->. reflexivity. Qed.

Lemma gtb_within (a b : Z) : a <= b -> (a >? b) = false.
Proof. intros Hle. rewrite Z.gtb_ltb. apply Z.ltb_ge. exact Hle. Qed.

Lemma append_assoc (a b c : string) : (a +:+ b) +:+ c = a +:+ (b +:+ c).
Proof.
  induction a as [|x a IH]; [reflexivity|].
  rewrite !append_String, IH. reflexivity.
Qed.

Lemma append_empty_r (a : string) : a +:+ "" = a.
Proof.
  induction a as [|x a IH]; [reflexivity|].
  rewrite append_String, IH. reflexivity.
Qed.

Section ToolLoopFacts.

(** A proof depends on the parameters of its statement only. *)
Set Default Proof Using "Type".

Import Operations.

Variable W : Type.
Variable Date_now : nat -> Z.
Variable inferStream :
  nat -> list HistoryMessage -> list ToolSchema -> Res Infer.StreamRun.
Variable JSON_parse : string -> Res JsValue.
Variable JSON_stringify : JsValue -> string.
Variable JSON_stringify_unknown : JsValue -> Res string.
Variable ToString : JsValue -> string.

Local Abbreviation stringify := (Operations.stringify JSON_stringify_unknown).
Local Abbreviation run_tool := (Operations.run_tool W JSON_stringify_unknown).
Local Abbreviation executeToolCalls_from :=
  (Operations.executeToolCalls_from W JSON_stringify_unknown ToString).
Local Abbreviation executeToolCalls :=
  (Operations.executeToolCalls W JSON_stringify_unknown ToString).
Local Abbreviation tool_messages_from :=
  (Operations.tool_messages_from JSON_stringify_unknown).
Local Abbreviation tool_messages :=
  (Operations.tool_messages JSON_stringify_unknown).
Local Abbreviation assistant_message :=
  (Operations.assistant_message JSON_stringify_unknown).
Local Abbreviation result_text :=
  (Operations.result_text JSON_stringify_unknown).
Local Abbreviation stringify_threw :=
  (Operations.stringify_threw JSON_stringify_unknown).
Local Abbreviation writes_everything :=
  (Operations.writes_everything JSON_stringify_unknown).
Local Abbreviation consume := (Operations.consume W JSON_parse ToString).
Local Abbreviation streamInference :=
  (Operations.streamInference W inferStream JSON_parse ToString).
Local Abbreviation turn :=
  (Operations.turn W Date_now inferStream JSON_parse JSON_stringify_unknown
     ToString).
Local Abbreviation tool_loop :=
  (Operations.tool_loop W Date_now inferStream JSON_parse
     JSON_stringify_unknown ToString).
Local Abbreviation iterations :=
  (Operations.iterations W Date_now inferStream JSON_parse
     JSON_stringify_unknown ToString).
Local Abbreviation runInferenceWithTools :=
  (Operations.runInferenceWithTools W Date_now inferStream JSON_parse
     JSON_stringify_unknown ToString).
Local Abbreviation now := (Operations.now W Date_now).

(** *** One call of a tool *)

(** [JSON.stringify] on a value of unknown type throws only what the
    serialisation throws. *)
Lemma stringify_throw v thrown :
  stringify v = Throw thrown -> JSON_stringify_unknown v = Throw thrown.
Proof.
  unfold Operations.stringify, stringify_unknown.
  destruct v; try discriminate;
    destruct (JSON_stringify_unknown _); congruence.
Qed.

Lemma stringify_writes v :
  writes_everything -> exists content, stringify v = Ok content.
Proof.
  intros Hwrites. unfold Operations.stringify, stringify_unknown.
  destruct v; eauto; match goal with
                     | |- context [JSON_stringify_unknown ?x] =>
                         destruct (Hwrites x) as [text ->]
                     end; eauto.
Qed.

Ltac run_tool_cases :=
  unfold Operations.run_tool, try_catch, bind, Operations.call_toolRenderer,
    Operations.in_world, Operations.lift_res, ret;
  cbn [world clock_reads infer_calls streamed rendered];
  repeat (match goal with
          | |- context [match ?x with _ => _ end] =>
              lazymatch x with
              | context [match _ with _ => _ end] => fail
              | _ => destruct x eqn:?
              end
          end;
          cbn [world clock_reads infer_calls streamed rendered]).

(** One found tool, whatever it does, leaves one more result or throws
    what the renderer threw at the report of the failure; it touches neither
    counter and streams nothing. *)
Lemma run_tool_outcome toolCall tool callbacks results (st st' : OpState W)
    outcome :
  run_tool toolCall tool callbacks results st = (outcome, st') ->
  counters W st' = counters W st
  /\ streamed W st' = streamed W st
  /\ match outcome with
     | Ok out => exists result, out = results ++ [result]
     | Throw thrown => failure_report_threw W callbacks thrown
     end.
Proof.
  run_tool_cases; intros [= <- <-]; (split; [reflexivity|]);
    (split; [reflexivity|]); eauto;
    eexists _, _, _; (split; [|eassumption]); reflexivity.
Qed.

(** What a tool pushes does not depend on the results pushed before. *)
Lemma run_tool_prefix toolCall tool callbacks results (st : OpState W) :
  run_tool toolCall tool callbacks results st
  = match run_tool toolCall tool callbacks [] st with
    | (Ok out, st') => (Ok (results ++ out), st')
    | (Throw thrown, st') => (Throw thrown, st')
    end.
Proof. run_tool_cases; reflexivity. Qed.

(** With a renderer that returns at every report of a failure, one found
    tool leaves exactly one more result. *)
Lemma run_tool_returns toolCall tool callbacks results (st : OpState W) :
  reports_failures W callbacks ->
  exists result st',
    run_tool toolCall tool callbacks results st
    = (Ok (results ++ [result]), st').
Proof.
  intros Hreports.
  destruct (run_tool toolCall tool callbacks results st) as [outcome st']
    eqn:Hrun.
  pose proof (run_tool_outcome _ _ _ _ _ _ _ Hrun) as (_ & _ & Hout).
  destruct outcome as [out|thrown].
  - destruct Hout as [result ->]. eauto.
  - destruct Hout as (call & w & w' & Herror & Hthrew).
    destruct (Hreports call w Herror) as [w'' Hok]. congruence.
Qed.

Lemma run_tool_renders toolCall tool callbacks results (st st' : OpState W)
    outcome :
  run_tool toolCall tool callbacks results st = (outcome, st') ->
  exists entries,
    rendered W st' = rendered W st ++ entries
    /\ render_group toolCall entries.
Proof.
  run_tool_cases; intros [= _ <-]; cbn [rendered]; rewrite <- ?app_assoc;
    (eexists; split; [reflexivity|]); (eexists; split; [reflexivity|]);
    eauto 6.
Qed.

(** *** A batch of calls *)

(** What a batch pushes does not depend on the results pushed before. *)
Lemma executeToolCalls_from_prefix toolCalls tools callbacks :
  forall results (st : OpState W),
    executeToolCalls_from toolCalls tools callbacks results st
    = match executeToolCalls_from toolCalls tools callbacks [] st with
      | (Ok out, st') => (Ok (results ++ out), st')
      | (Throw thrown, st') => (Throw thrown, st')
      end.
Proof.
  induction toolCalls as [|toolCall later IH]; intros results st.
  - cbn. rewrite app_nil_r. reflexivity.
  - cbn [Operations.executeToolCalls_from].
    destruct (find _ tools) as [tool|].
    + unfold bind. rewrite (run_tool_prefix _ _ _ results).
      destruct (run_tool toolCall tool callbacks [] st) as [[out|thrown] st1];
        [|reflexivity].
      rewrite (IH (results ++ out)), (IH out).
      destruct (executeToolCalls_from later tools callbacks [] st1)
        as [[more|thrown] st2]; [|reflexivity].
      rewrite app_assoc. reflexivity.
    + rewrite (IH (results ++ _)), (IH ([] ++ _)).
      destruct (executeToolCalls_from later tools callbacks [] st)
        as [[more|thrown] st2]; [|reflexivity].
      rewrite app_assoc. reflexivity.
Qed.

(** A batch is run call by call: the calls of a second part run in the
    state that the first part has left. *)
Lemma executeToolCalls_from_app first second tools callbacks :
  forall results (st : OpState W),
    executeToolCalls_from (first ++ second) tools callbacks results st
    = bind (executeToolCalls_from first tools callbacks results)
        (executeToolCalls_from second tools callbacks) st.
Proof.
  induction first as [|toolCall later IH]; intros results st; [reflexivity|].
  cbn [app Operations.executeToolCalls_from].
  destruct (find _ tools) as [tool|].
  - unfold bind.
    destruct (run_tool toolCall tool callbacks results st)
      as [[pushed|thrown] st1]; [rewrite IH; reflexivity|reflexivity].
  - apply IH.
Qed.

(** A batch touches neither counter and streams nothing; it returns one
    result per call, or throws what the renderer threw at the report of a
    failure. *)
Lemma executeToolCalls_from_outcome toolCalls tools callbacks :
  forall results (st st' : OpState W) outcome,
    executeToolCalls_from toolCalls tools callbacks results st
    = (outcome, st') ->
    counters W st' = counters W st
    /\ streamed W st' = streamed W st
    /\ match outcome with
       | Ok out => length out = (length results + length toolCalls)%nat
       | Throw thrown => failure_report_threw W callbacks thrown
       end.
Proof.
  induction toolCalls as [|toolCall later IH]; intros results st st' outcome.
  - cbn. intros [= <- <-]. repeat split. lia.
  - cbn [Operations.executeToolCalls_from].
    destruct (find _ tools) as [tool|].
    + unfold bind.
      destruct (run_tool toolCall tool callbacks results st)
        as [[pushed|thrown] st1] eqn:Hrun;
        apply run_tool_outcome in Hrun as (Hcounters & Hstreamed & Hout).
      * intros Hlater. apply IH in Hlater as (Hc & Hs & Hlater).
        split; [congruence|]. split; [congruence|].
        destruct outcome as [out|thrown]; [|exact Hlater].
        destruct Hout as [result ->]. rewrite Hlater, length_app.
        cbn [length]. lia.
      * intros [= <- <-]. auto.
    + intros Hlater. apply IH in Hlater as (Hc & Hs & Hlater).
      split; [exact Hc|]. split; [exact Hs|].
      destruct outcome as [out|thrown]; [|exact Hlater].
      rewrite Hlater, length_app. cbn [length]. lia.
Qed.

(** With a renderer that returns at every report of a failure,
    [executeToolCalls] never throws. *)
Lemma executeToolCalls_from_returns toolCalls tools callbacks results
    (st : OpState W) :
  reports_failures W callbacks ->
  exists out st',
    executeToolCalls_from toolCalls tools callbacks results st = (Ok out, st').
Proof.
  intros Hreports.
  destruct (executeToolCalls_from toolCalls tools callbacks results st)
    as [[out|thrown] st'] eqn:Hrun; [eauto|].
  apply executeToolCalls_from_outcome in Hrun
    as (_ & _ & call & w & w' & Herror & Hthrew).
  destruct (Hreports call w Herror) as [w'' Hok]. congruence.
Qed.

(** A batch that returns has returned part by part. *)
Lemma executeToolCalls_app_inv first second tools callbacks
    (st st2 : OpState W) toolResults :
  executeToolCalls (first ++ second) tools callbacks st = (Ok toolResults, st2) ->
  exists before after st1,
    executeToolCalls first tools callbacks st = (Ok before, st1)
    /\ executeToolCalls second tools callbacks st1 = (Ok after, st2)
    /\ toolResults = before ++ after
    /\ length before = length first.
Proof.
  unfold Operations.executeToolCalls.
  rewrite executeToolCalls_from_app. unfold bind.
  destruct (executeToolCalls_from first tools callbacks [] st)
    as [[before|thrown] st1] eqn:Hfirst; [|discriminate].
  rewrite executeToolCalls_from_prefix.
  destruct (executeToolCalls_from second tools callbacks [] st1)
    as [[after|thrown] st2'] eqn:Hsecond; [|discriminate].
  intros [= <- <-]. exists before, after, st1.
  apply executeToolCalls_from_outcome in Hfirst as (_ & _ & Hlen).
  auto.
Qed.

(** The results of a batch are in the order of its calls: the [i]-th
    result is what the [i]-th call, run by itself, gives in the state that
    the calls before it have left. *)
Lemma executeToolCalls_in_order toolCalls tools callbacks (st st2 : OpState W)
    toolResults i toolCall :
  executeToolCalls toolCalls tools callbacks st = (Ok toolResults, st2) ->
  toolCalls !! i = Some toolCall ->
  exists before result after,
    executeToolCalls (take i toolCalls) tools callbacks st
    = (Ok (take i toolResults), before)
    /\ executeToolCalls [toolCall] tools callbacks before = (Ok [result], after)
    /\ toolResults !! i = Some result.
Proof.
  intros Hrun Hcall.
  rewrite <- (take_drop_middle toolCalls i toolCall Hcall) in Hrun.
  apply executeToolCalls_app_inv in Hrun
    as (earlier & others & before & Hearlier & Hothers & -> & Hlen).
  change (toolCall :: drop (S i) toolCalls)
    with ([toolCall] ++ drop (S i) toolCalls) in Hothers.
  apply executeToolCalls_app_inv in Hothers
    as (this & later & after & Hthis & _ & -> & Hone).
  destruct this as [|result [|extra more]]; try discriminate Hone.
  assert (Hi : length earlier = i).
  { rewrite Hlen, length_take. apply lookup_lt_Some in Hcall. lia. }
  exists before, result, after.
  rewrite take_app_length' by (symmetry; exact Hi).
  split; [exact Hearlier|]. split; [exact Hthis|].
  rewrite lookup_app_r by lia. rewrite Hi, Nat.sub_diag. reflexivity.
Qed.

(** *** The messages of a batch *)

Lemma result_text_throw result thrown :
  result_text result = Throw thrown -> stringify_threw thrown.
Proof.
  unfold Operations.result_text. intros Hthrow. exists result.
  destruct result; try discriminate; apply stringify_throw; exact Hthrow.
Qed.

Lemma result_text_writes result :
  writes_everything -> exists content, result_text result = Ok content.
Proof.
  intros Hwrites. unfold Operations.result_text.
  destruct result; eauto using stringify_writes.
Qed.

(** Results that do not outnumber the calls from [idx] on become tool
    messages, the [i]-th one carrying the id of call [idx + i], unless the
    serialisation throws on one of them. *)
Lemma tool_messages_from_outcome toolCalls toolResults :
  forall idx,
    (idx + length toolResults <= length toolCalls)%nat ->
    match tool_messages_from toolCalls idx toolResults with
    | Ok messages =>
        length messages = length toolResults
        /\ forall i result,
            toolResults !! i = Some result ->
            exists toolCall content,
              toolCalls !! (idx + i)%nat = Some toolCall
              /\ result_text result = Ok content
              /\ messages !! i = Some (tool_reply (id toolCall) content)
    | Throw thrown => stringify_threw thrown
    end.
Proof.
  induction toolResults as [|result later IH]; intros idx Hlen.
  - cbn. split; [reflexivity|]. intros i r Hi. discriminate.
  - cbn [length] in Hlen. cbn [Operations.tool_messages_from].
    destruct (toolCalls !! idx) as [toolCall|] eqn:Hcall.
    2:{ apply lookup_ge_None in Hcall. lia. }
    destruct (result_text result) as [content|thrown] eqn:Htext; cbn [res_bind].
    2:{ exact (result_text_throw _ _ Htext). }
    specialize (IH (S idx) ltac:(lia)).
    destruct (tool_messages_from toolCalls (S idx) later)
      as [messages|thrown]; cbn [res_bind]; [|exact IH].
    destruct IH as (Hl & Hpair). split; [cbn; lia|].
    intros [|i] r Hi.
    + cbn in Hi. injection Hi as <-. exists toolCall, content.
      rewrite Nat.add_0_r. auto.
    + cbn in Hi. destruct (Hpair i r Hi) as (tc & c & Htc & Hc & Hm).
      exists tc, c. split; [|auto].
      rewrite <- Htc. f_equal. lia.
Qed.

Lemma assistant_message_outcome text toolCalls :
  match assistant_message text toolCalls with
  | Ok _ => True
  | Throw thrown => stringify_threw thrown
  end.
Proof.
  unfold Operations.assistant_message.
  induction toolCalls as [|toolCall later IH]; cbn [Infer.map_res res_bind];
    [exact I|].
  destruct (Operations.stringify _ _) as [arguments|thrown] eqn:Hargs;
    cbn [res_bind].
  2:{ exists (parameters toolCall). apply stringify_throw. exact Hargs. }
  destruct (Infer.map_res _ later) as [calls|thrown]; cbn [res_bind] in *;
    [exact I|exact IH].
Qed.

(** *** The chunk loop *)

Lemma consume_keeps_counts callbacks chunks accumulatedContent toolCalls
    isComplete (st : OpState W) :
  counters W
    (snd (consume callbacks chunks accumulatedContent toolCalls isComplete st))
  = counters W st.
Proof.
  revert accumulatedContent toolCalls isComplete st.
  induction chunks as [|chunk later IH];
    intros accumulatedContent toolCalls isComplete st; [reflexivity|].
  destruct chunk as [text|calls|]; cbn [Operations.consume].
  - unfold bind at 1, Operations.call_streamCb, modify.
    rewrite IH. destruct (streamCb W callbacks); reflexivity.
  - unfold bind at 1, Operations.lift_res.
    destruct (parseToolCalls _ _ _); [apply IH|reflexivity].
  - apply IH.
Qed.

(** Each call of [streamInference] is one call of [inferStream], and no
    reading of the clock. *)
Lemma streamInference_counts messages tools config callbacks (st : OpState W) :
  counters W (snd (streamInference messages tools config callbacks st))
  = (S (infer_calls W st), clock_reads W st).
Proof.
  unfold Operations.streamInference, try_catch, bind at 1,
    Operations.call_inferStream.
  destruct (inferStream _ _ _) as [stream|thrown]; [|reflexivity].
  unfold bind.
  match goal with
  | |- context [consume ?c ?e ?a ?t ?i ?s] =>
      pose proof (consume_keeps_counts c e a t i s) as Hkeep;
      destruct (consume c e a t i s) as [[[[acc calls] done]|thrown] st']
  end; cbn [snd] in Hkeep; [|exact Hkeep].
  destruct (Infer.failure stream); [exact Hkeep|].
  destruct (0 <? length calls)%nat; [exact Hkeep|].
  destruct (_ || _); exact Hkeep.
Qed.

(** A response that carries tool calls carries at least one. *)
Lemma tool_calls_response_nonempty messages tools config callbacks
    (st st' : OpState W) text toolCalls :
  streamInference messages tools config callbacks st
  = (Ok (tool_calls_response text toolCalls), st') ->
  toolCalls <> [].
Proof.
  unfold Operations.streamInference, try_catch, bind at 1,
    Operations.call_inferStream.
  destruct (inferStream _ _ _) as [stream|thrown]; [|discriminate].
  unfold bind.
  destruct (consume _ _ _ _ _ _) as [[[[acc calls] done]|thrown] st1];
    [|discriminate].
  destruct (Infer.failure stream); [discriminate|].
  destruct (0 <? length calls)%nat eqn:Hlen.
  - intros [= _ <- _]. destruct calls; [discriminate|discriminate].
  - destruct (_ || _); discriminate.
Qed.

Lemma stream_text_pieces chunks :
  stream_text ToString chunks
  = fold_right String.append ""
      (map (js_string ToString) (stream_pieces chunks)).
Proof.
  induction chunks as [|[text|calls|] later IH]; cbn [stream_text stream_pieces];
    [reflexivity| |exact IH|exact IH].
  cbn [map fold_right]. rewrite IH. reflexivity.
Qed.

(** The chunk loop touches nothing but the streaming callback; when it
    finishes, it has passed every content chunk to the callback, in order,
    and accumulated their text. *)
Lemma consume_outcome callbacks chunks accumulatedContent toolCalls isComplete
    (st st' : OpState W) outcome :
  consume callbacks chunks accumulatedContent toolCalls isComplete st
  = (outcome, st') ->
  world W st' = world W st
  /\ rendered W st' = rendered W st
  /\ exists pieces,
      streamed W st'
      = streamed W st ++ (if streamCb W callbacks then pieces else [])
      /\ match outcome with
         | Ok (accumulated, _, _) =>
             accumulated = accumulatedContent +:+ stream_text ToString chunks
             /\ pieces = stream_pieces chunks
         | Throw _ => True
         end.
Proof.
  revert accumulatedContent toolCalls isComplete st.
  induction chunks as [|chunk later IH];
    intros accumulatedContent toolCalls isComplete st Hrun.
  - cbn in Hrun. injection Hrun as <- <-.
    split; [reflexivity|]. split; [reflexivity|]. exists [].
    rewrite append_empty_r. destruct (streamCb W callbacks);
      rewrite app_nil_r; auto.
  - destruct chunk as [text|calls|]; cbn [Operations.consume] in Hrun.
    + unfold bind at 1, Operations.call_streamCb, modify in Hrun.
      apply IH in Hrun as (Hworld & Hrendered & pieces & Hstreamed & Hacc).
      rewrite Hworld, Hrendered, Hstreamed.
      split; [destruct (streamCb W callbacks); reflexivity|].
      split; [destruct (streamCb W callbacks); reflexivity|].
      exists (text :: pieces). split.
      * destruct (streamCb W callbacks); cbn [streamed];
          [rewrite <- app_assoc|]; reflexivity.
      * destruct outcome as [[[acc calls'] done']|]; [|exact I].
        destruct Hacc as [-> ->]. cbn [stream_text stream_pieces].
        rewrite append_assoc. auto.
    + unfold bind at 1, Operations.lift_res in Hrun.
      destruct (parseToolCalls JSON_parse ToString calls) as [parsed|thrown].
      * apply IH in Hrun. exact Hrun.
      * injection Hrun as <- <-.
        split; [reflexivity|]. split; [reflexivity|]. exists [].
        destruct (streamCb W callbacks); rewrite app_nil_r; auto.
    + apply IH in Hrun. exact Hrun.
Qed.

(** The chunk loop finishes when every tool-call chunk parses. *)
Lemma consume_returns callbacks chunks accumulatedContent toolCalls isComplete
    (st : OpState W) :
  (forall calls,
      Infer.ChunkToolCall calls ∈ chunks ->
      exists parsed, parseToolCalls JSON_parse ToString calls = Ok parsed) ->
  exists out st',
    consume callbacks chunks accumulatedContent toolCalls isComplete st
    = (Ok out, st').
Proof.
  revert accumulatedContent toolCalls isComplete st.
  induction chunks as [|[text|calls|] later IH];
    intros acc held done s Hparse; cbn [Operations.consume].
  - eexists _, _. reflexivity.
  - unfold bind, Operations.call_streamCb, modify. apply IH.
    intros c Hc. apply Hparse, elem_of_cons. right. exact Hc.
  - unfold bind at 1, Operations.lift_res.
    destruct (Hparse calls ltac:(apply elem_of_cons; left; reflexivity)) as (parsed & ->).
    apply IH. intros c Hc. apply Hparse, elem_of_cons. right. exact Hc.
  - apply IH. intros c Hc. apply Hparse, elem_of_cons. right. exact Hc.
Qed.

(** [streamInference] never throws: what goes wrong inside becomes an
    error response. *)
Lemma streamInference_total messages tools config callbacks (st : OpState W) :
  exists response st',
    streamInference messages tools config callbacks st = (Ok response, st').
Proof.
  unfold Operations.streamInference, try_catch.
  match goal with
  | |- context [match ?body st with _ => _ end] =>
      destruct (body st) as [[response|thrown] st1]
  end; eauto.
Qed.

(** *** One turn of the loop *)

(** A turn that returns has read the clock once and called the model
    once.  A turn throws the time limit or an inference error, or what the
    renderer threw at the report of a failure, or what the serialisation
    threw. *)
Lemma turn_outcome tools config callbacks startTime currentMessages
    (st st' : OpState W) outcome :
  turn tools config callbacks startTime currentMessages st = (outcome, st') ->
  match outcome with
  | Ok _ => counters W st' = (S (infer_calls W st), S (clock_reads W st))
  | Throw thrown =>
      (exists text,
          thrown = ThrownError (new_Error text)
          /\ (text = "Operation timeout exceeded"
              \/ exists reason, text = "Inference error: " +:+ reason))
      \/ failure_report_threw W callbacks thrown
      \/ stringify_threw thrown
  end.
Proof.
  unfold Operations.turn, bind at 1. cbn [Operations.now].
  destruct (_ >? _).
  { intros [= <- _]. left. eauto. }
  set (st0 := mkOp W _ _ _ _ _).
  pose proof (streamInference_counts currentMessages tools config callbacks st0)
    as Hcounters.
  destruct (streamInference_total currentMessages tools config callbacks st0)
    as (response & st1 & Hstream).
  rewrite Hstream in Hcounters. cbn [snd] in Hcounters.
  subst st0. cbn [infer_calls clock_reads] in Hcounters.
  rewrite (bind_Ok _ _ _ _ _ Hstream).
  destruct response as [text|text toolCalls|reason].
  - intros [= <- <-]. exact Hcounters.
  - unfold Operations.executeToolCalls, bind at 1.
    destruct (executeToolCalls_from toolCalls tools callbacks [] st1)
      as [[toolResults|thrown] st2] eqn:Hexec;
      apply executeToolCalls_from_outcome in Hexec as (Hkeep & _ & Hout).
    2:{ intros [= <- _]. auto. }
    cbn [length Nat.add] in Hout.
    unfold bind at 1, Operations.lift_res.
    pose proof (assistant_message_outcome text toolCalls) as Hassistant.
    destruct (assistant_message text toolCalls) as [assistant|thrown].
    2:{ intros [= <- _]. auto. }
    unfold bind at 1, Operations.tool_messages.
    pose proof (tool_messages_from_outcome toolCalls toolResults 0
                  ltac:(lia)) as Hmessages.
    destruct (tool_messages_from toolCalls 0 toolResults)
      as [messages|thrown].
    2:{ intros [= <- _]. auto. }
    intros [= <- <-]. congruence.
  - intros [= <- _]. left. eauto.
Qed.

(** A turn on a response with tool calls, within the time limit, with a
    renderer that returns at every report of a failure and a serialisation
    that writes everything: the loop goes on. *)
Lemma turn_continues tools config callbacks startTime currentMessages
    (st : OpState W) text toolCalls :
  Date_now (clock_reads W st) - startTime <= MAX_OPERATION_TIME_MS ->
  fst (streamInference currentMessages tools config callbacks (snd (now st)))
  = Ok (tool_calls_response text toolCalls) ->
  reports_failures W callbacks ->
  writes_everything ->
  exists messages st',
    turn tools config callbacks startTime currentMessages st
    = (Ok (continue messages), st').
Proof.
  intros Htime Hresponse Hreports Hwrites.
  unfold Operations.turn, bind at 1. cbn [Operations.now snd] in *.
  rewrite (gtb_within _ _ Htime).
  destruct (streamInference currentMessages tools config callbacks _)
    as [response st1] eqn:Hstream.
  cbn [fst] in Hresponse. subst response.
  rewrite (bind_Ok _ _ _ _ _ Hstream).
  destruct (executeToolCalls_from_returns toolCalls tools callbacks [] st1
              Hreports) as (toolResults & st2 & Hexec).
  unfold Operations.executeToolCalls. rewrite (bind_Ok _ _ _ _ _ Hexec).
  apply executeToolCalls_from_outcome in Hexec as (_ & _ & Hlen).
  cbn [length Nat.add] in Hlen.
  unfold bind at 1, Operations.lift_res.
  pose proof (assistant_message_outcome text toolCalls) as Hassistant.
  destruct (assistant_message text toolCalls) as [assistant|thrown].
  2:{ destruct Hassistant as [v Hv]. destruct (Hwrites v). congruence. }
  unfold bind at 1, Operations.tool_messages.
  pose proof (tool_messages_from_outcome toolCalls toolResults 0 ltac:(lia))
    as Hmessages.
  destruct (tool_messages_from toolCalls 0 toolResults) as [messages|thrown].
  2:{ destruct Hmessages as [v Hv]. destruct (Hwrites v). congruence. }
  eexists _, _. reflexivity.
Qed.

(** Turns that go on count: [n] of them are [n] readings of the clock
    and [n] calls of the model. *)
Lemma iterations_counts tools config callbacks startTime n messages
    (st : OpState W) messages' st' :
  iterations tools config callbacks startTime n messages st messages' st' ->
  counters W st' = ((infer_calls W st + n)%nat, (clock_reads W st + n)%nat).
Proof.
  induction 1 as [messages st|n messages st m1 st1 m2 st2 _ IH Hturn].
  - unfold Operations.counters. rewrite !Nat.add_0_r. reflexivity.
  - apply turn_outcome in Hturn. unfold Operations.counters in *.
    injection IH as Hi Hc. rewrite Hturn, Hi, Hc. f_equal; lia.
Qed.


(** *** The ceiling of the loop *)

(** From a point that the run has reached with all its turns going on so
    far: when each of the turns left finds the operation within its time
    budget, receives tool calls and does not throw, the loop uses up its
    turns and then throws. *)
Lemma tool_loop_exhausts tools config callbacks startTime first
    (start : OpState W) (ceiling : nat) :
  (forall n currentMessages st,
      (n < ceiling)%nat ->
      iterations tools config callbacks startTime n first start
        currentMessages st ->
      Date_now (clock_reads W st) - startTime <= MAX_OPERATION_TIME_MS
      /\ (exists text toolCalls,
             fst (streamInference currentMessages tools config callbacks
                    (snd (now st)))
             = Ok (tool_calls_response text toolCalls))
      /\ (forall thrown st',
             turn tools config callbacks startTime currentMessages st
             <> (Throw thrown, st'))) ->
  forall fuel n currentMessages (st : OpState W),
    (n + fuel)%nat = ceiling ->
    iterations tools config callbacks startTime n first start currentMessages
      st ->
    exists st' lastMessages,
      tool_loop tools config callbacks startTime fuel n currentMessages st
      = (Throw (ThrownError (new_Error max_iterations_message)), st')
      /\ iterations tools config callbacks startTime ceiling first start
           lastMessages st'.
Proof.
  intros Hturns fuel.
  induction fuel as [|fuel IH]; intros n currentMessages st Hsum Hreached.
  - rewrite Nat.add_0_r in Hsum. subst n.
    exists st, currentMessages. split; [reflexivity|exact Hreached].
  - destruct (Hturns n currentMessages st ltac:(lia) Hreached)
      as (Htime & (text & toolCalls & Hresponse) & Hreturns).
    assert (Hgoes : exists messages st1,
               turn tools config callbacks startTime currentMessages st
               = (Ok (continue messages), st1)).
    { destruct (turn tools config callbacks startTime currentMessages st)
        as [[[done|messages]|thrown] st1] eqn:Hturn.
      - exfalso. revert Hturn.
        unfold Operations.turn, bind at 1. cbn [Operations.now snd] in *.
        rewrite (gtb_within _ _ Htime).
        destruct (streamInference currentMessages tools config callbacks _)
          as [response st0] eqn:Hstream.
        cbn [fst] in Hresponse. subst response.
        rewrite (bind_Ok _ _ _ _ _ Hstream).
        unfold bind, Operations.lift_res.
        repeat match goal with
               | |- context [match ?x with _ => _ end] =>
                   lazymatch x with
                   | context [match _ with _ => _ end] => fail
                   | _ => destruct x
                   end
               end; discriminate.
      - eauto.
      - destruct (Hreturns thrown st1 eq_refl). }
    destruct Hgoes as (messages & st1 & Hturn).
    cbn [Operations.tool_loop]. rewrite (bind_Ok _ _ _ _ _ Hturn).
    apply (IH (S n) messages st1); [lia|].
    eapply iterations_S; eassumption.
Qed.


(** *** How an operation can fail *)

Lemma tool_loop_failure_modes tools config callbacks startTime fuel :
  forall iteration currentMessages (st st' : OpState W) thrown,
    tool_loop tools config callbacks startTime fuel iteration currentMessages st
    = (Throw thrown, st') ->
    (exists text,
        thrown = ThrownError (new_Error text)
        /\ (text = "Operation timeout exceeded"
            \/ text = max_iterations_message
            \/ exists reason, text = "Inference error: " +:+ reason))
    \/ failure_report_threw W callbacks thrown
    \/ stringify_threw thrown.
Proof.
  induction fuel as [|fuel IH]; intros iteration currentMessages st st' thrown.
  - cbn. intros [= <- _]. left. eauto.
  - cbn [Operations.tool_loop]. unfold bind at 1.
    destruct (turn tools config callbacks startTime currentMessages st)
      as [[[text|messages]|escaped] st1] eqn:Hturn.
    + discriminate.
    + apply IH.
    + intros [= <- _]. apply turn_outcome in Hturn.
      destruct Hturn as [(text & -> & [->|Hreason])|Hforeign]; [| |auto];
        left; eauto.
Qed.


(** *** The first turn of an operation *)

Lemma runInferenceWithTools_first_turn messages tools config callbacks
    (st : OpState W) :
  runInferenceWithTools messages tools config callbacks st
  = match turn tools config callbacks (Date_now (clock_reads W st))
            (map typed messages) (snd (now st)) with
    | (Ok (finished text), st') => (Ok text, st')
    | (Ok (continue currentMessages), st') =>
        tool_loop tools config callbacks (Date_now (clock_reads W st)) 49 1
          currentMessages st'
    | (Throw thrown, st') => (Throw thrown, st')
    end.
Proof.
  unfold Operations.runInferenceWithTools, bind at 1.
  cbn [Operations.now snd fst].
  change MAX_TOOL_ITERATIONS with 50%nat. cbn [Operations.tool_loop].
  unfold bind at 1.
  destruct (turn _ _ _ _ _ _) as [[[text|currentMessages]|thrown] st'];
    reflexivity.
Qed.

(** A turn within the time limit whose response is no batch of tool
    calls ends the operation, with the content or with an inference
    error. *)
Lemma turn_on_response tools config callbacks startTime currentMessages
    (st st1 : OpState W) response :
  Date_now (clock_reads W st) - startTime <= MAX_OPERATION_TIME_MS ->
  streamInference currentMessages tools config callbacks (snd (now st))
  = (Ok response, st1) ->
  match response with
  | complete text =>
      turn tools config callbacks startTime currentMessages st
      = (Ok (finished text), st1)
  | tool_calls_response _ _ => True
  | error_response reason =>
      turn tools config callbacks startTime currentMessages st
      = (Throw (ThrownError (new_Error ("Inference error: " +:+ reason))), st1)
  end.
Proof.
  intros Htime Hresponse. cbn [Operations.now snd] in Hresponse.
  destruct response as [text|text toolCalls|reason]; [|exact I|];
    unfold Operations.turn, bind at 1; cbn [Operations.now];
    rewrite (gtb_within _ _ Htime), (bind_Ok _ _ _ _ _ Hresponse);
    reflexivity.
Qed.

(** Completion chunks leave the content, the calls and the state of the
    loop as they are. *)
Lemma consume_quiet callbacks chunks :
  Forall (fun chunk => chunk = Infer.ChunkComplete) chunks ->
  forall accumulatedContent toolCalls isComplete (st : OpState W),
  exists done,
    consume callbacks chunks accumulatedContent toolCalls isComplete st
    = (Ok (accumulatedContent, toolCalls, done), st).
Proof.
  induction 1 as [|chunk later -> _ IH]; intros acc calls done st;
    cbn [Operations.consume]; [eexists; reflexivity|apply IH].
Qed.

(** A stream that ends without error and has nothing but completion
    chunks is a completion with empty content. *)
Lemma streamInference_nothing_streamed messages tools config callbacks
    (st : OpState W) chunks :
  inferStream (infer_calls W st) messages (map (schema_of W) tools)
  = Ok (Infer.mkRun chunks None) ->
  Forall (fun chunk => chunk = Infer.ChunkComplete) chunks ->
  exists st',
    streamInference messages tools config callbacks st
    = (Ok (complete ""), st').
Proof.
  intros Hstream Hquiet.
  unfold Operations.streamInference, try_catch, bind at 1,
    Operations.call_inferStream.
  rewrite Hstream. unfold bind. cbn [Infer.events Infer.failure].
  match goal with
  | |- context [consume ?c ?e ?a ?t ?i ?s] =>
      destruct (consume_quiet c e Hquiet a t i s) as (done & ->)
  end.
  cbn [length Nat.ltb Nat.leb].
  destruct (_ || _); eexists; reflexivity.
Qed.

(** C7, as the code has it.  A response body whose complete lines are
    frames mapped to no chunk, followed by the sentinel [data: [DONE]].
    When the line of the sentinel is ended by a line feed, then however the
    body is cut into reads, the normalized stream is the one completion
    chunk and then ends; [streamInference] on that stream answers with a
    completion whose content is empty (and so without tool calls), not with
    an error, and [runInferenceWithTools] returns the empty string when its
    first clock check passes.  When no line feed follows the sentinel, its
    line is never read: the stream has no chunk at all and ends the way the
    reading of the body ends, and where that is without error the operation
    answers as before. *)
Theorem unrecognized_frames_complete_empty (body : Infer.Body)
    (provider : string) (frames : list string) (sentinel : string)
    (rest : list string) (messages : list Message)
    (tools : list (ToolDefinition W)) (config : AgentConfig)
    (callbacks : ToolCallbacks W) (st : OpState W) :
  split_newline (Infer.body_text body) = frames ++ sentinel :: rest ->
  forallb (Infer.unrecognized JSON_parse JSON_stringify provider) frames = true ->
  Infer.is_sentinel sentinel = true ->
  inferStream (infer_calls W st) (map typed messages) (map (schema_of W) tools)
  = Ok (Infer.createStreamIterator JSON_parse JSON_stringify body provider) ->
  (rest <> [] ->
   Infer.createStreamIterator JSON_parse JSON_stringify body provider
   = Infer.mkRun [Infer.ChunkComplete] None
   /\ fst (streamInference (map typed messages) tools config callbacks st)
      = Ok (complete "")
   /\ (Date_now (S (clock_reads W st)) - Date_now (clock_reads W st)
       <= MAX_OPERATION_TIME_MS ->
       fst (runInferenceWithTools messages tools config callbacks st) = Ok ""))
  /\ (rest = [] ->
      Infer.createStreamIterator JSON_parse JSON_stringify body provider
      = Infer.mkRun [] (Infer.read_error body)
      /\ (Infer.read_error body = None ->
          fst (streamInference (map typed messages) tools config callbacks st)
          = Ok (complete "")
          /\ (Date_now (S (clock_reads W st)) - Date_now (clock_reads W st)
              <= MAX_OPERATION_TIME_MS ->
              fst (runInferenceWithTools messages tools config callbacks st)
              = Ok ""))).
Proof.
  intros Htext Hframes Hsentinel Hstream.
  assert (Hanswer :
            forall chunks,
              Infer.createStreamIterator JSON_parse JSON_stringify body provider
              = Infer.mkRun chunks None ->
              Forall (fun chunk => chunk = Infer.ChunkComplete) chunks ->
              fst (streamInference (map typed messages) tools config callbacks
                     st)
              = Ok (complete "")
              /\ (Date_now (S (clock_reads W st)) - Date_now (clock_reads W st)
                  <= MAX_OPERATION_TIME_MS ->
                  fst (runInferenceWithTools messages tools config callbacks st)
                  = Ok "")).
  { intros chunks Hrun Hquiet. rewrite Hrun in Hstream. split.
    - destruct (streamInference_nothing_streamed _ tools config callbacks st
                  chunks Hstream Hquiet) as (st' & ->).
      reflexivity.
    - intros Htime. rewrite runInferenceWithTools_first_turn.
      destruct (streamInference_nothing_streamed _ tools config callbacks
                  (snd (now (snd (now st)))) chunks Hstream Hquiet)
        as (st' & Hresponse).
      pose proof (turn_on_response tools config callbacks
                    (Date_now (clock_reads W st)) (map typed messages)
                    (snd (now st)) st' (complete "") Htime Hresponse) as Hturn.
      cbv beta iota in Hturn. rewrite Hturn. reflexivity. }
  split.
  - intros Hrest.
    pose proof (createStreamIterator_sentinel JSON_parse JSON_stringify body
                  provider frames sentinel rest Htext Hrest Hframes Hsentinel)
      as Hrun.
    split; [exact Hrun|]. apply (Hanswer _ Hrun). repeat constructor.
  - intros ->.
    pose proof (createStreamIterator_unterminated JSON_parse JSON_stringify
                  body provider frames sentinel Htext Hframes) as Hrun.
    split; [exact Hrun|]. intros Hclean. rewrite Hclean in Hrun.
    apply (Hanswer _ Hrun). constructor.
Qed.

(** *** What a turn streams and returns *)

(** The chunk loop passes the content chunks to the streaming callback in
    the order of the stream: all of them when it finishes, and those before
    the tool-call chunk that does not parse when it throws. *)
Lemma consume_streams callbacks chunks :
  forall accumulatedContent toolCalls isComplete (st st' : OpState W) outcome,
    consume callbacks chunks accumulatedContent toolCalls isComplete st
    = (outcome, st') ->
    exists k,
      (k <= length chunks)%nat
      /\ streamed W st'
         = streamed W st
           ++ (if streamCb W callbacks then stream_pieces (take k chunks)
               else [])
      /\ match outcome with
         | Ok _ => k = length chunks
         | Throw thrown =>
             exists calls,
               chunks !! k = Some (Infer.ChunkToolCall calls)
               /\ parseToolCalls JSON_parse ToString calls = Throw thrown
         end.
Proof.
  induction chunks as [|chunk later IH];
    intros accumulatedContent toolCalls isComplete st st' outcome Hrun.
  - cbn in Hrun. injection Hrun as <- <-. exists 0%nat.
    split; [reflexivity|]. split; [|reflexivity].
    destruct (streamCb W callbacks); rewrite app_nil_r; reflexivity.
  - destruct chunk as [text|calls|]; cbn [Operations.consume] in Hrun.
    + unfold bind at 1, Operations.call_streamCb, modify in Hrun.
      apply IH in Hrun as (k & Hk & Hstreamed & Hout).
      exists (S k). split; [cbn; lia|].
      split; [|destruct outcome; [cbn; lia|exact Hout]].
      rewrite Hstreamed. cbn [take stream_pieces].
      destruct (streamCb W callbacks); cbn [streamed];
        [rewrite <- app_assoc|]; reflexivity.
    + unfold bind at 1, Operations.lift_res in Hrun.
      destruct (parseToolCalls JSON_parse ToString calls) as [parsed|thrown]
        eqn:Hparse.
      * apply IH in Hrun as (k & Hk & Hstreamed & Hout).
        exists (S k). split; [cbn; lia|].
        split; [exact Hstreamed|destruct outcome; [cbn; lia|exact Hout]].
      * injection Hrun as <- <-. exists 0%nat. split; [cbn; lia|].
        split; [destruct (streamCb W callbacks); rewrite app_nil_r; reflexivity|].
        exists calls. auto.
    + apply IH in Hrun as (k & Hk & Hstreamed & Hout).
      exists (S k). split; [cbn; lia|].
      split; [exact Hstreamed|destruct outcome; [cbn; lia|exact Hout]].
Qed.

(** With a streaming callback, [streamInference] passes the content
    chunks of the stream to the callback one by one, in the order of the
    stream: when the model call throws, none; otherwise those of a first part
    of the stream, and when the turn is a completion or a batch of tool
    calls, every content chunk of the stream, once each, and the content
    returned is their texts put together.  (An error response may follow
    content that was streamed already.) *)
Theorem streamInference_returns_what_it_streamed
    (messages : list HistoryMessage) (tools : list (ToolDefinition W))
    (config : AgentConfig) (callbacks : ToolCallbacks W) (st : OpState W) :
  streamCb W callbacks = true ->
  let response := fst (streamInference messages tools config callbacks st) in
  let st' := snd (streamInference messages tools config callbacks st) in
  match inferStream (infer_calls W st) messages (map (schema_of W) tools) with
  | Throw thrown =>
      streamed W st' = streamed W st
      /\ response = Ok (error_response (message_or "Unknown error" thrown))
  | Ok stream =>
      (exists k,
          (k <= length (Infer.events stream))%nat
          /\ streamed W st'
             = streamed W st ++ stream_pieces (take k (Infer.events stream)))
      /\ forall text,
          response = Ok (complete text)
          \/ (exists toolCalls,
                 response = Ok (tool_calls_response text toolCalls)) ->
          streamed W st'
          = streamed W st ++ stream_pieces (Infer.events stream)
          /\ text
             = fold_right String.append ""
                 (map (js_string ToString)
                    (stream_pieces (Infer.events stream)))
  end.
Proof.
  intros Hcb. cbv zeta.
  destruct (streamInference messages tools config callbacks st)
    as [response st'] eqn:Hrun.
  cbn [fst snd]. revert Hrun.
  unfold Operations.streamInference, try_catch, bind at 1,
    Operations.call_inferStream.
  destruct (inferStream _ _ _) as [stream|thrown].
  2:{ intros [= <- <-]. split; reflexivity. }
  unfold bind.
  match goal with
  | |- context [consume ?c ?e ?a ?t ?i ?s] =>
      destruct (consume c e a t i s) as [[[[acc calls] done]|thrown] st1]
        eqn:Hconsume;
      pose proof (consume_streams _ _ _ _ _ _ _ _ Hconsume)
        as (k & Hk & Hstreamed & Hall);
      apply consume_outcome in Hconsume as (_ & _ & pieces & _ & Hacc)
  end; rewrite Hcb in Hstreamed; cbn [streamed] in Hstreamed.
  2:{ intros [= <- <-]. split; [eauto|].
      intros text [Hc|[calls Hc]]; discriminate. }
  destruct Hacc as [-> _]. rewrite append_empty_l. subst k.
  rewrite firstn_all in Hstreamed.
  intros Hrun.
  assert (Hst : streamed W st'
                = streamed W st ++ stream_pieces (Infer.events stream)).
  { destruct (Infer.failure stream); [injection Hrun as _ <-; exact Hstreamed|].
    destruct (0 <? length calls)%nat;
      [injection Hrun as _ <-; exact Hstreamed|].
    destruct (_ || _); injection Hrun as _ <-; exact Hstreamed. }
  split.
  { exists (length (Infer.events stream)). rewrite firstn_all. auto. }
  intros text Hresponse. split; [exact Hst|].
  rewrite <- stream_text_pieces.
  destruct (Infer.failure stream).
  { injection Hrun as <- _. destruct Hresponse as [Hc|[calls' Hc]];
      discriminate. }
  destruct (0 <? length calls)%nat.
  { injection Hrun as <- _. destruct Hresponse as [Hc|[calls' Hc]];
      [discriminate|]. injection Hc as <- _. reflexivity. }
  destruct (_ || _); injection Hrun as <- _;
    destruct Hresponse as [Hc|[calls' Hc]]; try discriminate;
    injection Hc as <-; reflexivity.
Qed.

(** *** A turn that fails *)

(** A model call that fails, before the stream or in the middle of it,
    makes the turn an error response with the message of what was thrown;
    the chunk loop has touched neither the world nor the renderer. *)
Lemma streamInference_fails messages tools config callbacks (st : OpState W)
    thrown :
  inferStream (infer_calls W st) messages (map (schema_of W) tools)
  = Throw thrown
  \/ (exists chunks,
        inferStream (infer_calls W st) messages (map (schema_of W) tools)
        = Ok (Infer.mkRun chunks (Some thrown))
        /\ forall calls,
            Infer.ChunkToolCall calls ∈ chunks ->
            exists parsed,
              parseToolCalls JSON_parse ToString calls = Ok parsed) ->
  exists st',
    streamInference messages tools config callbacks st
    = (Ok (error_response (message_or "Unknown error" thrown)), st')
    /\ world W st' = world W st
    /\ rendered W st' = rendered W st
    /\ infer_calls W st' = S (infer_calls W st).
Proof.
  intros Hfails.
  unfold Operations.streamInference, try_catch, bind at 1,
    Operations.call_inferStream.
  destruct Hfails as [->|(chunks & -> & Hquiet)].
  - eexists. split; [reflexivity|]. cbn. auto.
  - unfold bind. cbn [Infer.events Infer.failure].
    match goal with
    | |- context [consume ?c ?e ?a ?t ?i ?s] =>
        pose proof (consume_keeps_counts c e a t i s) as Hcounts;
        assert (Hok : exists out st1, consume c e a t i s = (Ok out, st1))
    end.
    { apply consume_returns. exact Hquiet. }
    destruct Hok as ([[acc calls] done] & st1 & Hconsume).
    rewrite Hconsume in Hcounts |- *.
    apply consume_outcome in Hconsume as (Hworld & Hrendered & _).
    cbn [snd world rendered] in Hworld, Hrendered, Hcounts.
    unfold Operations.counters in Hcounts. cbn in Hcounts.
    injection Hcounts as Hcalls _.
    eexists. split; [reflexivity|]. cbn [world rendered infer_calls]. auto.
Qed.




(** A Gemini stream never asks for a tool: its parser only finds
    content, so whatever the body, the turn is a completion or an error. *)
Theorem google_stream_calls_no_tool (messages : list HistoryMessage)
    (tools : list (ToolDefinition W)) (config : AgentConfig)
    (callbacks : ToolCallbacks W) (st : OpState W) (body : Infer.Body) :
  inferStream (infer_calls W st) messages (map (schema_of W) tools)
  = Ok (Infer.createStreamIterator JSON_parse JSON_stringify body "google") ->
  (exists text,
      fst (streamInference messages tools config callbacks st)
      = Ok (complete text))
  \/ (exists reason,
        fst (streamInference messages tools config callbacks st)
        = Ok (error_response reason)).
Proof.
  intros Hstream.
  destruct (createStreamIterator_shape JSON_parse JSON_stringify body "google"
              (fun chunk => exists text, chunk = Infer.ChunkContent text))
    as (payload & returned & Hall & Hrun).
  { intros data chunk. apply frame_chunk_google. }
  rewrite Hrun in Hstream.
  destruct (streamInference messages tools config callbacks st)
    as [response st'] eqn:Hresponse.
  cbn [fst]. revert Hresponse.
  unfold Operations.streamInference, try_catch, bind at 1,
    Operations.call_inferStream.
  rewrite Hstream. unfold bind. cbn [Infer.events Infer.failure].
  match goal with
  | |- context [consume ?c ?e ?a ?t ?i ?s] =>
      assert (Hheld : exists acc done st1,
                 consume c e a t i s = (Ok (acc, t, done), st1))
  end.
  { generalize (@nil ToolCall). generalize false. generalize "".
    generalize (mkOp W (world W st) (clock_reads W st) (S (infer_calls W st))
                  (streamed W st) (rendered W st)).
    clear Hstream Hrun.
    induction Hall as [|chunk payload (text & ->) _ IH];
      intros s acc done held; cbn [app Operations.consume].
    - destruct returned; cbn [Operations.consume]; eexists _, _, _; reflexivity.
    - unfold bind, Operations.call_streamCb, modify. apply IH. }
  destruct Hheld as (acc & done & st1 & ->). cbn [length Nat.ltb Nat.leb].
  destruct (if returned then None else Infer.read_error body).
  - intros [= <- _]. right. eexists. reflexivity.
  - left. destruct (_ || _); injection Hresponse as <- _; eexists; reflexivity.
Qed.

(** *** Running the tools of a batch *)

(** Calls to tools that are not available run nothing and render
    nothing: each one is answered by the object that says which tool was
    not found. *)
Theorem executeToolCalls_unavailable_tools (toolCalls : list ToolCall)
    (tools : list (ToolDefinition W)) (callbacks : ToolCallbacks W)
    (st : OpState W) :
  (forall toolCall, toolCall ∈ toolCalls ->
     find (fun t => js_is_string (name toolCall) (tool_name W t)) tools = None) ->
  executeToolCalls toolCalls tools callbacks st
  = (Ok (map (fun toolCall =>
                error_result ("Tool not found: "
                              +:+ js_string ToString (name toolCall)))
           toolCalls), st).
Proof.
  intros Hnone. unfold Operations.executeToolCalls.
  change (map _ toolCalls) with ([] ++ map (fun toolCall =>
                error_result ("Tool not found: "
                              +:+ js_string ToString (name toolCall)))
           toolCalls).
  generalize (@nil JsValue) as results.
  induction toolCalls as [|toolCall later IH]; intros results.
  - cbn. rewrite app_nil_r. reflexivity.
  - cbn [Operations.executeToolCalls_from map].
    rewrite (Hnone toolCall) by (apply elem_of_cons; left; reflexivity).
    rewrite IH by (intros c Hc; apply Hnone, elem_of_cons; right; exact Hc).
    rewrite <- app_assoc. reflexivity.
Qed.

(** A completion callback that throws after the tool has returned: the
    call has been rendered as running and as a success, and is then reported
    to the renderer as an error; when the renderer returns from that report,
    the result of the tool is dropped and the error takes its place in the
    results; when the renderer throws there, inside the [catch], what it
    throws leaves [executeToolCalls]. *)
Theorem failed_completion_callback_masks_result (toolCall : ToolCall)
    (tool : ToolDefinition W) (tools : list (ToolDefinition W))
    (callbacks : ToolCallbacks W) (st : OpState W)
    (notify : HistoryMessage -> W -> Res unit * W) (result : JsValue)
    (content : option string) (w1 w2 w3 w4 : W) (thrown : Thrown) :
  find (fun t => js_is_string (name toolCall) (tool_name W t)) tools
  = Some tool ->
  toolRenderer W callbacks
    (mkRender (name toolCall) status_running (parameters toolCall) None None)
    (world W st)
  = (Ok tt, w1) ->
  execute W tool (parameters toolCall) w1 = (Ok result, w2) ->
  toolRenderer W callbacks
    (mkRender (name toolCall) status_success (parameters toolCall)
       (Some result) None) w2
  = (Ok tt, w3) ->
  onToolComplete W callbacks = Some notify ->
  stringify result = Ok content ->
  notify (tool_reply (id toolCall) content) w3 = (Throw thrown, w4) ->
  let report :=
    toolRenderer W callbacks
      (mkRender (name toolCall) status_error (parameters toolCall) None
         (Some (message_or "Unknown error" thrown))) w4 in
  executeToolCalls [toolCall] tools callbacks st
  = (match fst report with
     | Ok _ => Ok [error_result (message_or "Tool execution failed" thrown)]
     | Throw escaped => Throw escaped
     end,
     mkOp W (snd report) (clock_reads W st) (infer_calls W st) (streamed W st)
       (rendered W st
        ++ [mkRender (name toolCall) status_running (parameters toolCall)
              None None;
            mkRender (name toolCall) status_success (parameters toolCall)
              (Some result) None;
            mkRender (name toolCall) status_error (parameters toolCall) None
              (Some (message_or "Unknown error" thrown))])).
Proof.
  intros Hfound Hrunning Hrun Hsuccess Hcb Hcontent Hnotify report.
  subst report.
  unfold Operations.executeToolCalls.
  cbn [Operations.executeToolCalls_from]. rewrite Hfound.
  unfold bind at 1, Operations.run_tool, try_catch, bind,
    Operations.call_toolRenderer, Operations.in_world, Operations.lift_res,
    ret.
  cbn [world clock_reads infer_calls streamed rendered].
  rewrite Hrunning. cbn [world clock_reads infer_calls streamed rendered].
  rewrite Hrun. cbn [world clock_reads infer_calls streamed rendered].
  rewrite Hsuccess, Hcb. cbn [world clock_reads infer_calls streamed rendered].
  fold (stringify result). rewrite Hcontent.
  cbn [world clock_reads infer_calls streamed rendered].
  rewrite Hnotify. cbn [world clock_reads infer_calls streamed rendered].
  destruct (toolRenderer W callbacks _ w4) as [[[]|escaped] w5];
    cbn [fst snd app]; rewrite <- !app_assoc; reflexivity.
Qed.

(** What the loop has told the renderer when it ends, by returning or by
    throwing: the renderings of the calls it got to, call by call. *)
Lemma executeToolCalls_from_renders toolCalls tools callbacks :
  forall results (st st' : OpState W) outcome,
    executeToolCalls_from toolCalls tools callbacks results st
    = (outcome, st') ->
    exists groups,
      rendered W st' = rendered W st ++ concat groups
      /\ Forall2
           (fun toolCall entries =>
              match find (fun t => js_is_string (name toolCall)
                                     (tool_name W t)) tools with
              | None => entries = []
              | Some _ => render_group toolCall entries
              end)
           (take (length groups) toolCalls) groups
      /\ match outcome with
         | Ok _ => length groups = length toolCalls
         | Throw _ => (0 < length groups <= length toolCalls)%nat
         end.
Proof.
  induction toolCalls as [|toolCall later IH]; intros results st st' outcome.
  - cbn. intros [= <- <-]. exists []. cbn. rewrite app_nil_r.
    repeat split. constructor.
  - cbn [Operations.executeToolCalls_from].
    destruct (find _ tools) as [tool|] eqn:Hfind.
    + unfold bind at 1.
      destruct (run_tool toolCall tool callbacks results st)
        as [[pushed|thrown] st1] eqn:Hrun;
        destruct (run_tool_renders _ _ _ _ _ _ _ Hrun)
        as (entries & Hentries & Hgroup).
      * intros Hrest.
        apply IH in Hrest as (groups & Hrendered & Hall & Hlen).
        exists (entries :: groups). split.
        { rewrite Hrendered, Hentries. cbn [concat]. rewrite app_assoc.
          reflexivity. }
        split.
        { cbn [length take]. constructor; [rewrite Hfind; exact Hgroup|].
          exact Hall. }
        destruct outcome; cbn [length]; lia.
      * intros [= <- <-]. exists [entries]. split.
        { cbn [concat]. rewrite app_nil_r. exact Hentries. }
        split.
        { cbn [length take]. constructor; [rewrite Hfind; exact Hgroup|].
          constructor. }
        cbn [length]. lia.
    + intros Hrest. apply IH in Hrest as (groups & Hrendered & Hall & Hlen).
      exists ([] :: groups). split; [exact Hrendered|]. split.
      { cbn [length take]. constructor; [rewrite Hfind; reflexivity|].
        exact Hall. }
      destruct outcome; cbn [length]; lia.
Qed.


End ToolLoopFacts.

(** ** Retrying *)

Lemma startsWith_toLowerCase s p :
  startsWith s p = true ->
  startsWith (toLowerCase s) (toLowerCase p) = true.
Proof.
  revert s. induction p as [|a p IH]; intros s Hs; [reflexivity|].
  destruct s as [|b s]; [discriminate|].
  cbn [startsWith toLowerCase] in *.
  apply andb_true_iff in Hs as [Hab Hrest].
  apply Ascii.eqb_eq in Hab. subst b.
  rewrite Ascii.eqb_refl. exact (IH s Hrest).
Qed.

Lemma includes_toLowerCase s sub :
  includes s sub = true ->
  includes (toLowerCase s) (toLowerCase sub) = true.
Proof.
  induction s as [|c s IH]; cbn [includes]; intros Hs.
  - apply orb_true_iff in Hs as [Hs|Hs]; [|discriminate].
    apply orb_true_iff. left. exact (startsWith_toLowerCase "" sub Hs).
  - apply orb_true_iff in Hs as [Hs|Hs].
    + apply orb_true_iff. left. exact (startsWith_toLowerCase _ _ Hs).
    + apply orb_true_iff. right. exact (IH Hs).
Qed.

Section RetryFacts.

Import Operations.

Variable String_of : JsValue -> string.
Variable Math_random : nat -> float.
Context {S T : Type}.

Local Abbreviation withRetry := (@Operations.withRetry String_of Math_random S T).

(** Under the default options, a message that contains one of the
    configured substrings is classified as retryable. *)
Lemma default_contains_isRetryable (e : JsError) :
  message_contains_retryable default_options e = true ->
  isRetryable default_options e = true.
Proof.
  unfold message_contains_retryable, isRetryable.
  cbn [retryableErrors default_options existsb].
  rewrite !orb_false_r. intros Hany.
  repeat (apply orb_true_iff in Hany as [Hany|Hany]);
    apply includes_toLowerCase in Hany; cbn [toLowerCase] in Hany;
    change (lower_char ?c) with c in Hany; rewrite Hany;
    rewrite ?orb_true_r; reflexivity.
Qed.

(** One turn of the loop on an invocation that throws: what is
    classified, kept and thrown on is the [Error] itself, or the [Error]
    made of a thrown value that is none. *)
Lemma retry_turn_throw (operation : S -> Res T * S) options fuel attempt
    lastError thrown w (st : RetryState S) :
  operation (target st) = (Throw thrown, w) ->
  Operations.retry_from String_of Math_random operation options (Datatypes.S fuel)
    attempt lastError st
  = let e := to_Error String_of thrown in
    let st1 := mkRetry w (Datatypes.S (invocations st)) (sleeps st)
                 (random_draws st) in
    if negb (isRetryable options e) || (attempt =? maxRetries options - 1)%nat
    then (Throw (ThrownError e), st1)
    else
      Operations.retry_from String_of Math_random operation options fuel
        (Datatypes.S attempt) (Some e)
        (mkRetry w (Datatypes.S (invocations st))
           (sleeps st
            ++ [PrimFloat.add
                  (Math_min (PrimFloat.mul (baseDelay options)
                               (Math_pow2 attempt))
                     (maxDelay options))
                  (PrimFloat.mul (Math_random (random_draws st)) 1000%float)])
           (Datatypes.S (random_draws st))).
Proof.
  intros Hop. cbn [Operations.retry_from]. unfold try_catch, invoke.
  rewrite Hop. cbv zeta.
  destruct (negb _ || _); reflexivity.
Qed.

Lemma retry_turn_ok (operation : S -> Res T * S) options fuel attempt
    lastError v w (st : RetryState S) :
  operation (target st) = (Ok v, w) ->
  Operations.retry_from String_of Math_random operation options (Datatypes.S fuel)
    attempt lastError st
  = (Ok v, mkRetry w (Datatypes.S (invocations st)) (sleeps st)
             (random_draws st)).
Proof.
  intros Hop. cbn [Operations.retry_from]. unfold try_catch, invoke.
  rewrite Hop. reflexivity.
Qed.

(** An operation that throws at every attempt of the budget, what is
    retryable each time but possibly the last: the loop invokes it at every
    attempt and throws on what the last attempt threw. *)
Lemma retry_from_exhausts (operation : S -> Res T * S) options n
    (thrown : nat -> Thrown) (worlds : nat -> S) :
  maxRetries options = Datatypes.S n ->
  (forall k, (k <= n)%nat ->
             operation (worlds k) = (Throw (thrown k), worlds (Datatypes.S k))) ->
  (forall k, (k < n)%nat ->
             isRetryable options (to_Error String_of (thrown k)) = true) ->
  forall fuel attempt lastError (st : RetryState S),
    (attempt + fuel = Datatypes.S n)%nat ->
    (0 < fuel)%nat ->
    target st = worlds attempt ->
    exists st',
      Operations.retry_from String_of Math_random operation options fuel attempt
        lastError st
      = (Throw (ThrownError (to_Error String_of (thrown n))), st')
      /\ target st' = worlds (Datatypes.S n)
      /\ invocations st' = (invocations st + fuel)%nat.
Proof.
  intros Hbudget Hthrows Hretryable fuel.
  induction fuel as [|fuel IH]; intros attempt lastError st Hsum Hpos Hworld;
    [lia|].
  assert (Hop : operation (target st)
                = (Throw (thrown attempt), worlds (Datatypes.S attempt))).
  { rewrite Hworld. apply Hthrows. lia. }
  rewrite (retry_turn_throw _ _ _ _ _ _ _ _ Hop). cbn zeta.
  rewrite Hbudget. cbn [Nat.sub]. rewrite Nat.sub_0_r.
  destruct (Nat.eqb_spec attempt n) as [->|Hne].
  - rewrite orb_true_r. eexists. split; [reflexivity|].
    cbn [target invocations]. split; [reflexivity|lia].
  - rewrite Hretryable by lia. cbn [negb orb].
    destruct (IH (Datatypes.S attempt)
                (Some (to_Error String_of (thrown attempt)))
                (mkRetry (worlds (Datatypes.S attempt))
                   (Datatypes.S (invocations st))
                   (sleeps st
                    ++ [PrimFloat.add
                          (Math_min (PrimFloat.mul (baseDelay options)
                                       (Math_pow2 attempt))
                             (maxDelay options))
                          (PrimFloat.mul (Math_random (random_draws st))
                             1000%float)])
                   (Datatypes.S (random_draws st))))
      as (st' & Hrun & Htarget & Hcount); [lia|lia|reflexivity|].
    exists st'. split; [exact Hrun|]. split; [exact Htarget|].
    rewrite Hcount. cbn [invocations]. lia.
Qed.


(** *** The attempt budget *)

(** The loop from any counter: it invokes the operation at least once and
    at most as often as it has turns left, pauses once (with one jitter
    draw) between two invocations, and throws [Error]s only. *)
Lemma retry_from_bounds (operation : S -> Res T * S) options fuel :
  forall attempt lastError (st st' : RetryState S) outcome,
    (attempt + fuel = maxRetries options)%nat ->
    Operations.retry_from String_of Math_random operation options fuel attempt
      lastError st = (outcome, st') ->
    exists n,
      invocations st' = (invocations st + n)%nat
      /\ (n <= fuel)%nat
      /\ length (sleeps st') = (length (sleeps st) + (n - 1))%nat
      /\ random_draws st' = (random_draws st + (n - 1))%nat
      /\ ((0 < fuel)%nat ->
          (1 <= n)%nat
          /\ forall thrown, outcome = Throw thrown ->
                            exists e, thrown = ThrownError e).
Proof.
  induction fuel as [|fuel IH]; intros attempt lastError st st' outcome Hsum.
  - cbn [Operations.retry_from]. intros Hrun. exists 0%nat.
    assert (st' = st) as ->
      by (unfold throw_last, throw in Hrun; destruct lastError; congruence).
    repeat split; lia.
  - cbn [Operations.retry_from]. unfold try_catch, invoke.
    destruct (operation (target st)) as [[v|thrown] w].
    { intros [= <- <-]. exists 1%nat. cbn [invocations sleeps random_draws].
      repeat split; try lia. intros t [=]. }
    destruct (negb _ || (attempt =? maxRetries options - 1)%nat) eqn:Hstop.
    { intros [= <- <-]. exists 1%nat. cbn [invocations sleeps random_draws].
      repeat split; try lia. intros t [= <-]. eauto. }
    apply orb_false_iff in Hstop as [_ Hmore].
    apply Nat.eqb_neq in Hmore.
    unfold bind at 1, Operations.draw_random, bind at 1, sleep, modify.
    cbn [target invocations sleeps random_draws].
    intros Hrun.
    apply IH in Hrun as (n & Hcount & Hle & Hsleeps & Hdraws & Hpos); [|lia].
    cbn [invocations sleeps random_draws] in Hcount, Hsleeps, Hdraws.
    rewrite length_app in Hsleeps. cbn [length] in Hsleeps.
    destruct (Hpos ltac:(lia)) as [Hone Herrors].
    exists (Datatypes.S n). repeat split; try lia. exact Herrors.
Qed.

(** [withRetry] never invokes the operation more often than [maxRetries]
    says; it pauses exactly once between two invocations and not after the
    last one, and draws one random jitter for each pause. *)
Theorem withRetry_attempts_and_pauses (operation : S -> Res T * S)
    (options : RetryOptions) (st : RetryState S) :
  let st' := snd (withRetry operation options st) in
  exists n,
    invocations st' = (invocations st + n)%nat
    /\ (n <= maxRetries options)%nat
    /\ length (sleeps st') = (length (sleeps st) + (n - 1))%nat
    /\ random_draws st' = (random_draws st + (n - 1))%nat.
Proof.
  cbv zeta. unfold Operations.withRetry.
  destruct (Operations.retry_from String_of Math_random operation options
              (maxRetries options) 0 None st) as [outcome st'] eqn:Hrun.
  apply retry_from_bounds in Hrun as (n & ? & ? & ? & ? & _); [|lia].
  exists n. cbn [snd]. auto.
Qed.


End RetryFacts.

(** The retry wrapper of the inference utilities follows the same policy
    with a predicate in place of the substrings: an [Error] that the
    predicate refuses is thrown on after one invocation, and with the
    defaults (three attempts, every error retried) the third error in a
    row is thrown on as it is. *)
Lemma inference_withRetry_policy (String_of : JsValue -> string)
    {S T : Type} (fn : S -> Res T * S) (st : RetryState S) :
  (forall options e w1,
      (0 < Infer.maxRetries options)%nat ->
      fn (target st) = (Throw (ThrownError e), w1) ->
      Infer.shouldRetry options e = false ->
      Infer.withRetry String_of fn options st
      = (Throw (ThrownError e),
         mkRetry w1 (Datatypes.S (invocations st)) (sleeps st)
           (random_draws st)))
  /\ (forall e1 e2 e3 w1 w2 w3,
         fn (target st) = (Throw (ThrownError e1), w1) ->
         fn w1 = (Throw (ThrownError e2), w2) ->
         fn w2 = (Throw (ThrownError e3), w3) ->
         exists st',
           Infer.withRetry String_of fn Infer.default_options st
           = (Throw (ThrownError e3), st')
           /\ invocations st' = (invocations st + 3)%nat).
Proof.
  unfold Infer.withRetry. split.
  - intros options e w1 Hpos H1 Hrefused.
    destruct (Infer.maxRetries options) as [|fuel]; [lia|].
    cbn [Infer.retry_from]. unfold try_catch, invoke. rewrite H1.
    cbn [to_Error]. rewrite Hrefused. reflexivity.
  - intros e1 e2 e3 w1 w2 w3 H1 H2 H3.
    cbn [Infer.maxRetries Infer.default_options Infer.retry_from].
    unfold try_catch at 1, invoke at 1. rewrite H1.
    cbn [to_Error Infer.shouldRetry Infer.default_options negb orb
           Infer.maxRetries Nat.sub Nat.eqb].
    unfold bind at 1, sleep at 1, modify at 1.
    cbn [target invocations sleeps random_draws].
    unfold try_catch at 1, invoke at 1. cbn [target]. rewrite H2.
    cbn [to_Error Infer.shouldRetry Infer.default_options negb orb
           Infer.maxRetries Nat.sub Nat.eqb].
    unfold bind at 1, sleep at 1, modify at 1.
    cbn [target invocations sleeps random_draws].
    unfold try_catch at 1, invoke at 1. cbn [target]. rewrite H3.
    cbn [to_Error Infer.shouldRetry Infer.default_options negb orb
           Infer.maxRetries Nat.sub Nat.eqb].
    eexists. split; [reflexivity|]. cbn [invocations]. lia.
Qed.

Section InferenceRetryFacts.

Variable String_of : JsValue -> string.
Context {S T : Type}.

(** The pause after a failed attempt: [Math.min(baseDelay * Math.pow(2,
    attempt), maxDelay)]. *)
Local Abbreviation backoff options :=
  (fun attempt : nat =>
     Math_min (PrimFloat.mul (Infer.baseDelay options) (Math_pow2 attempt))
       (Infer.maxDelay options)).

Lemma inference_retry_from_bounds (fn : S -> Res T * S) options fuel :
  forall attempt lastError (st st' : RetryState S) outcome,
    (attempt + fuel = Infer.maxRetries options)%nat ->
    Infer.retry_from String_of fn options fuel attempt lastError st
    = (outcome, st') ->
    exists n,
      invocations st' = (invocations st + n)%nat
      /\ (n <= fuel)%nat
      /\ sleeps st'
         = sleeps st ++ map (backoff options) (seq attempt (n - 1))
      /\ random_draws st' = random_draws st
      /\ ((0 < fuel)%nat -> (1 <= n)%nat).
Proof.
  induction fuel as [|fuel IH]; intros attempt lastError st st' outcome Hsum.
  - cbn [Infer.retry_from]. intros Hrun. exists 0%nat.
    assert (st' = st) as ->
      by (unfold throw_last, throw in Hrun; destruct lastError; congruence).
    cbn. rewrite app_nil_r. repeat split; lia.
  - cbn [Infer.retry_from]. unfold try_catch, invoke.
    destruct (fn (target st)) as [[v|thrown] w].
    { intros [= <- <-]. exists 1%nat. cbn. rewrite app_nil_r.
      repeat split; lia. }
    destruct (negb _ || (attempt =? Infer.maxRetries options - 1)%nat)
      eqn:Hstop.
    { intros [= <- <-]. exists 1%nat. cbn. rewrite app_nil_r.
      repeat split; lia. }
    apply orb_false_iff in Hstop as [_ Hmore].
    apply Nat.eqb_neq in Hmore.
    unfold bind at 1, sleep, modify.
    cbn [target invocations sleeps random_draws].
    intros Hrun.
    apply IH in Hrun as (n & Hcount & Hle & Hsleeps & Hdraws & Hpos); [|lia].
    cbn [invocations sleeps random_draws] in Hcount, Hsleeps, Hdraws.
    pose proof (Hpos ltac:(lia)) as Hone.
    exists (Datatypes.S n). split; [lia|]. split; [lia|].
    split; [|split; [exact Hdraws|lia]].
    rewrite Hsleeps, <- app_assoc.
    replace (Datatypes.S n - 1)%nat with (Datatypes.S (n - 1)) by lia.
    reflexivity.
Qed.

(** The retry wrapper of the inference utilities never invokes its
    function more often than [maxRetries] says, and between two invocations
    it pauses for [min(baseDelay * 2^k, maxDelay)] milliseconds, [k] the
    number of the failed attempt: the pauses double until they reach the
    cap, without jitter.  With the default options they are 1000 ms and
    2000 ms. *)
Theorem inference_withRetry_backoff (fn : S -> Res T * S)
    (options : Infer.RetryOptions) (st : RetryState S) :
  let st' := snd (Infer.withRetry String_of fn options st) in
  (exists n,
      invocations st' = (invocations st + n)%nat
      /\ (n <= Infer.maxRetries options)%nat
      /\ sleeps st' = sleeps st ++ map (backoff options) (seq 0 (n - 1)))
  /\ map (backoff Infer.default_options) (seq 0 2) = [1000%float; 2000%float].
Proof.
  cbv zeta. split; [|vm_compute; reflexivity].
  unfold Infer.withRetry.
  destruct (Infer.retry_from String_of fn options (Infer.maxRetries options) 0
              None st) as [outcome st'] eqn:Hrun.
  apply inference_retry_from_bounds in Hrun as (n & ? & ? & ? & _); [|lia].
  exists n. cbn [snd]. auto.
Qed.

End InferenceRetryFacts.

(** ** Provider requests *)

Section RequestFacts.

Import Requests.

Lemma assoc_field_absent fields key :
  has_field fields key = false -> assoc_field fields key = JUndefined.
Proof.
  induction fields as [|[k x] fields IH]; [reflexivity|].
  cbn [has_field existsb assoc_field fst]. intros Hnone.
  apply orb_false_iff in Hnone as [-> Hnone]. exact (IH Hnone).
Qed.

Lemma assoc_field_app fields more key :
  assoc_field (fields ++ more) key
  = if has_field fields key then assoc_field fields key
    else assoc_field more key.
Proof.
  induction fields as [|[k x] fields IH]; [reflexivity|].
  cbn [app has_field existsb assoc_field fst].
  destruct (String.eqb k key); [reflexivity|exact IH].
Qed.

Lemma assoc_field_replace fields key v key' :
  assoc_field
    (map (fun entry => if String.eqb (fst entry) key then (key, v) else entry)
       fields) key'
  = if String.eqb key key'
    then (if has_field fields key then v else JUndefined)
    else assoc_field fields key'.
Proof.
  induction fields as [|[k x] fields IH].
  - cbn. destruct (String.eqb key key'); reflexivity.
  - cbn [map fst has_field existsb assoc_field].
    destruct (String.eqb_spec k key) as [->|Hk]; cbn [assoc_field orb].
    + destruct (String.eqb key key'); [reflexivity|exact IH].
    + rewrite IH. destruct (String.eqb_spec key key') as [Hkey|Hkey].
      * subst key'. apply String.eqb_neq in Hk. rewrite Hk. reflexivity.
      * reflexivity.
Qed.

(** Reading a key of an object after one of its keys was set. *)
Lemma assoc_field_assign fields key v key' :
  assoc_field (assign fields key v) key'
  = if String.eqb key key' then v else assoc_field fields key'.
Proof.
  unfold assign. destruct (has_field fields key) eqn:Hkey.
  - rewrite assoc_field_replace, Hkey. reflexivity.
  - rewrite assoc_field_app.
    destruct (String.eqb_spec key key') as [Hsame|Hne].
    + subst key'. rewrite Hkey. cbn. rewrite String.eqb_refl. reflexivity.
    + destruct (has_field fields key') eqn:Hkey'; [reflexivity|].
      cbn. apply String.eqb_neq in Hne. rewrite Hne.
      symmetry. apply assoc_field_absent. exact Hkey'.
Qed.

(** [...(a && { key: v })]: the key is set when [a] is truthy, and
    nothing happens when it is not. *)
Lemma spread_guarded fields a key v :
  add_member fields (rest (js_and a (object [field key v])))
  = if js_truthy a then assign fields key v else fields.
Proof.
  unfold js_and. destruct (js_truthy a) eqn:Ha; [reflexivity|].
  destruct a as [| |flag|x|text|items|entries]; try reflexivity;
    try discriminate.
  destruct text; [reflexivity|discriminate].
Qed.

Lemma object_members members :
  object members = JObj (fold_left add_member members []).
Proof. reflexivity. Qed.

(** A sampling parameter reaches Anthropic and the OpenAI-compatible
    providers exactly when it is truthy: [undefined] is left out, and so
    is a temperature of 0 or a token limit of 0, for which the provider then
    applies its own default. *)
Theorem falsy_sampling_parameters_are_not_sent (model : string)
    (messages : list Message) (tools : option (list Operations.ToolSchema))
    (temperature maxTokens : JsValue) :
  js_get_opt (openai_payload model messages tools temperature maxTokens)
    "temperature"
  = (if js_truthy temperature then temperature else JUndefined)
  /\ js_get_opt (openai_payload model messages tools temperature maxTokens)
       "max_tokens"
     = (if js_truthy maxTokens then maxTokens else JUndefined)
  /\ js_get_opt (anthropic_payload model messages tools temperature maxTokens)
       "temperature"
     = (if js_truthy temperature then temperature else JUndefined)
  /\ js_get_opt (anthropic_payload model messages tools temperature maxTokens)
       "max_tokens"
     = (if js_truthy maxTokens then maxTokens else JUndefined)
  /\ js_truthy (JNum 0%float) = false.
Proof.
  unfold openai_payload, anthropic_payload.
  rewrite !(object_members (_ :: _ :: _ :: _ :: _ :: _ :: nil)).
  cbn [fold_left js_get_opt]. rewrite !spread_guarded. cbn [add_member].
  repeat split;
    destruct (js_truthy temperature), (js_truthy maxTokens),
      (js_truthy (tools_value tools)), (js_truthy (anthropic_tools tools));
    rewrite ?assoc_field_assign; reflexivity.
Qed.

(** In a Gemini request the token limit displaces the temperature: both
    are written under the key [generationConfig], the limit last, so with
    both set the request carries the limit alone and the temperature asked
    for is lost. *)
Theorem gemini_token_limit_displaces_temperature (messages : list Message)
    (temperature maxTokens : JsValue) :
  js_get_opt (google_payload messages temperature maxTokens) "generationConfig"
  = (if js_truthy maxTokens
     then object [field "maxOutputTokens" maxTokens]
     else if js_truthy temperature
          then object [field "temperature" temperature]
          else JUndefined)
  /\ (js_truthy maxTokens = true ->
      js_get_opt
        (js_get_opt (google_payload messages temperature maxTokens)
           "generationConfig")
        "temperature"
      = JUndefined).
Proof.
  unfold google_payload.
  rewrite !(object_members (_ :: _ :: _ :: nil)).
  cbn [fold_left js_get_opt]. rewrite !spread_guarded. cbn [add_member].
  assert (Hconfig :
            assoc_field
              (if js_truthy maxTokens
               then assign
                      (if js_truthy temperature
                       then assign
                              (assign [] "contents"
                                 (JArr (map gemini_message messages)))
                              "generationConfig"
                              (object [field "temperature" temperature])
                       else assign [] "contents"
                              (JArr (map gemini_message messages)))
                      "generationConfig"
                      (object [field "maxOutputTokens" maxTokens])
               else if js_truthy temperature
                    then assign
                           (assign [] "contents"
                              (JArr (map gemini_message messages)))
                           "generationConfig"
                           (object [field "temperature" temperature])
                    else assign [] "contents"
                           (JArr (map gemini_message messages)))
              "generationConfig"
            = (if js_truthy maxTokens
               then object [field "maxOutputTokens" maxTokens]
               else if js_truthy temperature
                    then object [field "temperature" temperature]
                    else JUndefined)).
  { destruct (js_truthy maxTokens), (js_truthy temperature);
      rewrite ?assoc_field_assign; reflexivity. }
  split; [exact Hconfig|].
  intros Hlimit. rewrite Hconfig, Hlimit. reflexivity.
Qed.

Section Calls.

Variable JSON_parse : string -> Res JsValue.
Variable JSON_stringify : JsValue -> string.
Variable ToString : JsValue -> string.
Variable fetch : nat -> Request -> Res Response.

Local Abbreviation inferStream :=
  (Requests.inferStream JSON_parse JSON_stringify ToString fetch).
Local Abbreviation infer :=
  (Requests.infer JSON_parse JSON_stringify ToString fetch).

(** What one provider function does, whatever its key test and its
    request: no request and an error, or one request and then an error or
    the stream of the response that was ok, read with the provider's
    parser. *)
Lemma provider_outcome (name : string) (configured : bool) (missing : string)
    (request : Request) (label : string) (made : list Request) :
  let run : Eff (list Request) Infer.StreamRun :=
    if negb configured then throw_new_Error missing
    else
      (response <- call_fetch fetch request ;;
       expect_ok label response ;;;
       ret (Infer.createStreamIterator JSON_parse JSON_stringify
              (reader response) name))%eff in
  (configured = false
   /\ run made = (Throw (ThrownError (new_Error missing)), made))
  \/ (configured = true
      /\ snd (run made) = made ++ [request]
      /\ forall stream, fst (run made) = Ok stream ->
            exists response,
              fetch (length made) request = Ok response
              /\ ok response = true
              /\ stream
                 = Infer.createStreamIterator JSON_parse JSON_stringify
                     (reader response) name).
Proof.
  cbv zeta. destruct configured; [right|left; auto].
  split; [reflexivity|]. cbn [negb].
  match goal with
  | |- snd (?m made) = _ /\ _ => destruct (m made) as [r made'] eqn:Hrun
  end.
  cbn [fst snd]. revert Hrun. unfold bind at 1, call_fetch.
  destruct (fetch (length made) request) as [response|thrown].
  2:{ intros [= <- <-]. split; [reflexivity|]. intros stream [=]. }
  unfold bind at 1, expect_ok.
  destruct (ok response) eqn:Hok; cbn [negb].
  - unfold ret. intros [= <- <-]. split; [reflexivity|].
    intros stream [= <-]. eauto.
  - unfold bind, settle, throw_new_Error, throw.
    destruct (text response); intros [= <- <-]; (split; [reflexivity|]);
      intros stream [=].
Qed.

(** [inferStream] makes at most one request, and none for a provider that
    it does not know: that provider is refused by name.  A stream comes
    from a request that was answered ok, and it is read with the parser of
    the provider asked for, which [parseStreamChunk] always has: the two
    switches on the provider name agree. *)
Theorem inferStream_request_discipline (options : InferOptions)
    (made : list Request) :
  let outcome := inferStream options made in
  (snd outcome = made \/ exists request, snd outcome = made ++ [request])
  /\ (provider options ∉ Infer.parsed_providers ->
      outcome
      = (Throw (ThrownError
                  (new_Error ("Unknown provider: " +:+ provider options))),
         made))
  /\ (forall run,
        fst outcome = Ok run ->
        provider options ∈ Infer.parsed_providers
        /\ exists request response,
            snd outcome = made ++ [request]
            /\ fetch (length made) request = Ok response
            /\ ok response = true
            /\ run
               = Infer.createStreamIterator JSON_parse JSON_stringify
                   (reader response) (provider options)).
Proof.
  cbv zeta. unfold Requests.inferStream, Infer.parsed_providers.
  assert (Hcase :
            forall name (configured : bool) missing request label,
              provider options = name ->
              name ∈ Infer.parsed_providers ->
              let run : Eff (list Request) Infer.StreamRun :=
                if negb configured then throw_new_Error missing
                else
                  (response <- call_fetch fetch request ;;
                   expect_ok label response ;;;
                   ret (Infer.createStreamIterator JSON_parse JSON_stringify
                          (reader response) name))%eff in
              (snd (run made) = made
               \/ exists request, snd (run made) = made ++ [request])
              /\ (provider options ∉ Infer.parsed_providers ->
                  run made
                  = (Throw (ThrownError
                              (new_Error ("Unknown provider: "
                                          +:+ provider options))), made))
              /\ (forall stream,
                    fst (run made) = Ok stream ->
                    provider options ∈ Infer.parsed_providers
                    /\ exists request response,
                        snd (run made) = made ++ [request]
                        /\ fetch (length made) request = Ok response
                        /\ ok response = true
                        /\ stream
                           = Infer.createStreamIterator JSON_parse
                               JSON_stringify (reader response)
                               (provider options))).
  { intros name configured missing request label Hname Hin. cbv zeta.
    rewrite Hname.
    destruct (provider_outcome name configured missing request label made)
      as [[_ Hrun]|(_ & Hmade & Hstream)].
    - cbv zeta in Hrun. rewrite Hrun. cbn [fst snd].
      split; [auto|]. split; [intros Hout; destruct (Hout Hin)|].
      intros stream [=].
    - cbv zeta in Hmade, Hstream. split; [eauto|].
      split; [intros Hout; destruct (Hout Hin)|].
      intros stream Hok. split; [exact Hin|].
      destruct (Hstream stream Hok) as (response & ? & ? & ?). eauto 6. }
  destruct (String.eqb_spec (provider options) "anthropic") as [Hp|Hp1].
  { apply (Hcase "anthropic" (js_truthy (ANTHROPIC_API_KEY (env options))));
      [exact Hp|unfold Infer.parsed_providers; rewrite !elem_of_cons; auto 10]. }
  destruct (String.eqb_spec (provider options) "openai") as [Hp|Hp2].
  { apply (Hcase "openai" (js_truthy (OPENAI_API_KEY (env options))));
      [exact Hp|unfold Infer.parsed_providers; rewrite !elem_of_cons; auto 10]. }
  destruct (String.eqb_spec (provider options) "google") as [Hp|Hp3].
  { apply (Hcase "google" (js_truthy (GOOGLE_API_KEY (env options))));
      [exact Hp|unfold Infer.parsed_providers; rewrite !elem_of_cons; auto 10]. }
  destruct (String.eqb_spec (provider options) "cerebras") as [Hp|Hp4].
  { apply (Hcase "cerebras" (js_truthy (CEREBRAS_API_KEY (env options))));
      [exact Hp|unfold Infer.parsed_providers; rewrite !elem_of_cons; auto 10]. }
  destruct (String.eqb_spec (provider options) "cloudflare") as [Hp|Hp5].
  { apply (Hcase "cloudflare" true "" _ "Cloudflare AI");
      [exact Hp|unfold Infer.parsed_providers; rewrite !elem_of_cons; auto 10]. }
  cbn [fst snd]. split; [auto|]. split; [reflexivity|]. intros run [=].
Qed.

Lemma collect_text chunks content toolCalls :
  fst (collect ToString chunks content toolCalls)
  = content +:+ Operations.stream_text ToString chunks.
Proof.
  revert content toolCalls.
  induction chunks as [|[piece|calls|] later IH]; intros content toolCalls;
    cbn [collect Operations.stream_text].
  - rewrite append_empty_r. reflexivity.
  - rewrite IH, append_assoc. reflexivity.
  - apply IH.
  - apply IH.
Qed.

Lemma collect_calls_quiet chunks content toolCalls :
  forallb (fun chunk => negb (Operations.is_tool_chunk chunk)) chunks = true ->
  snd (collect ToString chunks content toolCalls) = toolCalls.
Proof.
  revert content.
  induction chunks as [|[piece|calls|] later IH]; intros content Hquiet;
    cbn [collect]; [reflexivity| |discriminate|]; apply IH; exact Hquiet.
Qed.

Lemma collect_calls_last before calls after content toolCalls :
  forallb (fun chunk => negb (Operations.is_tool_chunk chunk)) after = true ->
  snd (collect ToString (before ++ Infer.ChunkToolCall calls :: after) content
         toolCalls)
  = Some calls.
Proof.
  intros Hquiet. revert content toolCalls.
  induction before as [|[piece|earlier|] before IH]; intros content toolCalls;
    cbn [app collect]; try apply IH.
  apply collect_calls_quiet. exact Hquiet.
Qed.


End Calls.

End RequestFacts.

(** ** The orchestrator *)

Lemma returns_ret {St A} (a : A) (Q : A -> St -> Prop) st :
  Q a st -> returns (ret a) Q st.
Proof. intros HQ. exact HQ. Qed.

Lemma returns_bind {St A B} (m : Eff St A) (k : A -> Eff St B) Q st :
  returns m (fun a => returns (k a) Q) st -> returns (bind m k) Q st.
Proof.
  unfold returns, bind. destruct (m st) as [[a|t] st']; [auto|contradiction].
Qed.

Lemma returns_try_catch {St A} (body : Eff St A) handler Q st :
  returns body Q st -> returns (try_catch body handler) Q st.
Proof.
  unfold returns, try_catch.
  destruct (body st) as [[a|t] st']; [auto|contradiction].
Qed.

Lemma returns_weaken {St A} (m : Eff St A) (Q Q' : A -> St -> Prop) st :
  returns m Q st -> (forall a st', Q a st' -> Q' a st') -> returns m Q' st.
Proof.
  unfold returns. destruct (m st) as [[a|t] st']; [auto|contradiction].
Qed.

Lemma returns_elim {St A} (m : Eff St A) Q st :
  returns m Q st -> exists a st', m st = (Ok a, st') /\ Q a st'.
Proof.
  unfold returns. destruct (m st) as [[a|t] st']; [eauto|contradiction].
Qed.

Lemma throws_throw {St A} (thrown : Thrown) (Q : St -> Prop) st :
  Q st -> throws (@throw St A thrown) thrown Q st.
Proof. intros HQ. split; [reflexivity|exact HQ]. Qed.

Lemma throws_bind_l {St A B} (m : Eff St A) (k : A -> Eff St B) thrown Q st :
  throws m thrown Q st -> throws (bind m k) thrown Q st.
Proof.
  unfold throws, bind. destruct (m st) as [[a|t] st']; [contradiction|auto].
Qed.

Lemma throws_bind_r {St A B} (m : Eff St A) (k : A -> Eff St B) thrown Q st :
  returns m (fun a => throws (k a) thrown Q) st ->
  throws (bind m k) thrown Q st.
Proof.
  unfold returns, throws, bind.
  destruct (m st) as [[a|t] st']; [auto|contradiction].
Qed.

Lemma throws_try_catch {St A} (body : Eff St A) handler caught thrown Q st :
  throws body caught (throws (handler caught) thrown Q) st ->
  throws (try_catch body handler) thrown Q st.
Proof.
  unfold throws, try_catch.
  destruct (body st) as [[a|t] st']; [contradiction|].
  intros [-> Hhandler]. exact Hhandler.
Qed.

Lemma throws_weaken {St A} (m : Eff St A) thrown (Q Q' : St -> Prop) st :
  throws m thrown Q st -> (forall st', Q st' -> Q' st') -> throws m thrown Q' st.
Proof.
  unfold throws. destruct (m st) as [[a|t] st']; [contradiction|].
  intros [-> HQ] Himp. auto.
Qed.

Lemma throws_elim {St A} (m : Eff St A) thrown Q st :
  throws m thrown Q st -> exists st', m st = (Throw thrown, st') /\ Q st'.
Proof.
  unfold throws. destruct (m st) as [[a|t] st']; [contradiction|].
  intros [-> HQ]. eauto.
Qed.

Section OrchestratorFacts.

Import Core.

Variable W : Type.
Context {Store : Type} `{IStateManager Store}.
Variable Date_now : nat -> Z.
Variable behaviors : AgentMode -> BaseBehavior W.
Variable toolkit : gmap string (Tool W).
Variable JSON_stringify_unknown : JsValue -> Res string.
Variable logToolExecution_settles : nat -> ToolExecution -> Res unit.
Variable development : bool.
Variable stack_of : JsError -> option string.

Local Abbreviation State := (CoreState W (Store := Store)).
Local Abbreviation tracks := (Core.tracks W (Store := Store)).
Local Abbreviation now := (Core.now W Date_now).
Local Abbreviation runPhase := (Core.runPhase W Date_now).
Local Abbreviation processSession := (Core.processSession W Date_now behaviors).
Local Abbreviation handlePostReview :=
  (Core.handlePostReview W (Store := Store) behaviors).
Local Abbreviation executeToolCall :=
  (Core.executeToolCall W (Store := Store) Date_now toolkit
     JSON_stringify_unknown logToolExecution_settles).
Local Abbreviation toolkit_get := (Core.toolkit_get W toolkit).
Local Abbreviation answers_failure :=
  (Core.answers_failure W (Store := Store) Date_now toolkit
     JSON_stringify_unknown logToolExecution_settles).
Local Abbreviation terminateSession := (Core.terminateSession W Date_now).
Local Abbreviation terminate := (Core.terminate W (Store := Store) Date_now).
Local Abbreviation complete := (Core.complete W (Store := Store) Date_now).
Local Abbreviation fail :=
  (Core.fail W (Store := Store) Date_now development stack_of).
Local Abbreviation stream := (Core.stream W (Store := Store)).
Local Abbreviation getSessionStatus := (Core.getSessionStatus W (Store := Store)).
Local Abbreviation initializeSession :=
  (Core.initializeSession W (Store := Store) Date_now).
Local Abbreviation recoverSession := (Core.recoverSession W (Store := Store)).

(** *** Tool calls through the orchestrator *)

(** A live session: the steps of [executeToolCall] after the lookup of
    the session. *)
Lemma executeToolCall_live sessionId toolCall session (st : State) :
  activeSessions W st !! sessionId = Some session ->
  executeToolCall sessionId toolCall st
  = (startTime <- now ;;
     try_catch
       (match toolkit_get (name toolCall) with
        | no_property =>
            throw_new_Error ("Unknown tool: " +:+ name toolCall)
        | inherited_property =>
            throw (TypeError "tool.execute is not a function")
        | own_property tool =>
            this <- deref W session ;;
            result <-
              (fun st' =>
                 let '(run, w) :=
                   execute W tool (parameters toolCall) sessionId
                     (context this) (world W st') in
                 (race_with_timeout run,
                  mkCore W (heap W st') (activeSessions W st') (store W st')
                    (emitted W st') (analytics W st') (timers W st')
                    (clock_reads W st') w)) ;;
            finished <- now ;;
            let duration := finished - startTime in
            size <- (fun st' =>
                       (resultSize_of JSON_stringify_unknown result, st')) ;;
            logToolExecution W logToolExecution_settles
              (mkExecution sessionId (name toolCall) duration true None
                 (Some size)) ;;;
            ret (mkResult true (Some result) None duration)
        end)
       (fun thrown =>
          finished <- now ;;
          let duration := finished - startTime in
          logToolExecution W logToolExecution_settles
            (mkExecution sessionId (name toolCall) duration false
               (Some (message_or "Unknown error" thrown)) None) ;;;
          ret (mkResult false None
                 (Some (message_or "Tool execution failed" thrown))
                 duration)))%eff st.
Proof. intros Hlive. unfold Core.executeToolCall. rewrite Hlive. reflexivity. Qed.

(** What leaves [executeToolCall] for a live session is what the logging
    of a failure rejected with. *)
Lemma executeToolCall_live_throw sessionId toolCall session (st st' : State)
    thrown :
  activeSessions W st !! sessionId = Some session ->
  executeToolCall sessionId toolCall st = (Throw thrown, st') ->
  exists entry,
    log_success entry = false
    /\ log_sessionId entry = sessionId
    /\ toolName entry = name toolCall
    /\ analytics W st' = removelast (analytics W st') ++ [entry]
    /\ logToolExecution_settles (length (analytics W st') - 1) entry
       = Throw thrown.
Proof.
  intros Hlive. rewrite (executeToolCall_live _ _ _ _ Hlive).
  unfold bind at 1. cbn [Core.now]. unfold try_catch.
  match goal with
  | |- context [match ?body ?s with _ => _ end] =>
      destruct (body s) as [[result|caught] st1]
  end; [discriminate|].
  unfold bind at 1. cbn [Core.now].
  unfold bind at 1, Core.logToolExecution.
  cbn [analytics heap activeSessions store emitted timers clock_reads world].
  destruct (logToolExecution_settles _ _) as [[]|rejected] eqn:Hlog;
    [discriminate|].
  intros [= <- <-].
  match type of Hlog with _ _ ?e = _ => exists e end. cbn [analytics].
  rewrite removelast_last, length_app. cbn [length].
  replace (length (analytics W st1) + 1 - 1)%nat
    with (length (analytics W st1)) by lia.
  do 4 (split; [reflexivity|]). exact Hlog.
Qed.

(** C3, as the code has it.  For a live session and a tool name under
    which the toolkit object has nothing, neither a property of its own nor
    one inherited from [Object.prototype], [executeToolCall] logs the
    failure and returns a result with [success = false] and the error text
    ["Unknown tool: <name>"].  A name that the toolkit only inherits (as
    [constructor] or [toString]) is not answered with that text but with
    ["tool.execute is not a function"].  [executeToolCall] throws for a
    session id that is not live, and then the error is
    ["Session not found: <id>"] and nothing has changed; for a live session
    it throws only what the logging of a failure rejected with, and never
    when that logging resolves. *)
Theorem executeToolCall_unknown_tool (sessionId : string)
    (toolCall : ToolCall) (st : State) :
  (forall session,
      activeSessions W st !! sessionId = Some session ->
      (toolkit_get (name toolCall) = no_property ->
       answers_failure sessionId toolCall
         ("Unknown tool: " +:+ name toolCall) st)
      /\ (toolkit_get (name toolCall) = inherited_property ->
          answers_failure sessionId toolCall
            "tool.execute is not a function" st))
  /\ (activeSessions W st !! sessionId = None ->
      executeToolCall sessionId toolCall st
      = (Throw (ThrownError (new_Error ("Session not found: " +:+ sessionId))),
         st))
  /\ (forall thrown st',
         executeToolCall sessionId toolCall st = (Throw thrown, st') ->
         (activeSessions W st !! sessionId = None
          /\ thrown
             = ThrownError (new_Error ("Session not found: " +:+ sessionId))
          /\ st' = st)
         \/ (is_Some (activeSessions W st !! sessionId)
             /\ exists n entry,
                 log_success entry = false
                 /\ logToolExecution_settles n entry = Throw thrown))
  /\ ((forall n entry,
          log_success entry = false ->
          logToolExecution_settles n entry = Ok tt) ->
      is_Some (activeSessions W st !! sessionId) ->
      exists result st',
        executeToolCall sessionId toolCall st = (Ok result, st')).
Proof.
  split; [|split; [|split]].
  - intros session Hlive. unfold Core.answers_failure.
    rewrite (executeToolCall_live _ _ _ _ Hlive).
    split; intros ->; unfold bind at 1; cbn [Core.now]; unfold try_catch;
      cbn; destruct (logToolExecution_settles _ _) as [[]|rejected];
      reflexivity.
  - intros Hnone. unfold Core.executeToolCall. rewrite Hnone. reflexivity.
  - intros thrown st' Hrun.
    destruct (activeSessions W st !! sessionId) as [session|] eqn:Hlive.
    + right. split; [eauto|].
      destruct (executeToolCall_live_throw _ _ _ _ _ _ Hlive Hrun)
        as (entry & Hfailed & _ & _ & _ & Hlog).
      eauto.
    + left. unfold Core.executeToolCall in Hrun. rewrite Hlive in Hrun.
      unfold throw_new_Error, throw in Hrun. injection Hrun as <- <-. auto.
  - intros Hresolves [session Hlive].
    destruct (executeToolCall sessionId toolCall st) as [[result|thrown] st']
      eqn:Hrun; [eauto|].
    destruct (executeToolCall_live_throw _ _ _ _ _ _ Hlive Hrun)
      as (entry & Hfailed & _ & _ & _ & Hlog).
    rewrite (Hresolves _ _ Hfailed) in Hlog. discriminate.
Qed.

(** *** Running the phases *)

Lemma tracks_weaken session live sessionId (P P' : AgentSession -> Prop)
    trace st :
  tracks session live sessionId P trace st ->
  (forall s, P s -> P' s) ->
  tracks session live sessionId P' trace st.
Proof. intros (s & ? & ? & ? & ?) Himp. exists s. auto. Qed.

Lemma phase_trace_app sessionId l1 l2 :
  phase_trace sessionId (l1 ++ l2)
  = phase_trace sessionId l1 ++ phase_trace sessionId l2.
Proof. unfold phase_trace. apply flat_map_app. Qed.

Section Tracking.

Variable session : nat.
Variable live : gmap string nat.
Variable sessionId : string.

Lemma returns_deref P trace (Q : AgentSession -> State -> Prop) st :
  tracks session live sessionId P trace st ->
  (forall s, P s -> Q s st) ->
  returns (deref W session) Q st.
Proof.
  intros (s & Hs & HP & _) HQ. unfold returns, deref. rewrite Hs. auto.
Qed.

Lemma returns_update_context f P P' trace (Q : unit -> State -> Prop) st :
  tracks session live sessionId P trace st ->
  (forall s, P s -> P' (mkSession (id s) (f (context s)) (isTerminated s))) ->
  (forall st', tracks session live sessionId P' trace st' -> Q tt st') ->
  returns (update_context W session f) Q st.
Proof.
  intros (s & Hs & HP & Hlive & Htrace) HP' HQ.
  unfold returns, update_context, update_session, modify. apply HQ.
  exists (mkSession (id s) (f (context s)) (isTerminated s)).
  cbn [heap activeSessions emitted with_heap].
  rewrite lookup_alter_eq, Hs. auto.
Qed.

Lemma returns_persist P trace (Q : unit -> State -> Prop) st :
  tracks session live sessionId P trace st ->
  (forall st', tracks session live sessionId P trace st' -> Q tt st') ->
  returns (persist W session) Q st.
Proof.
  intros Ht HQ. destruct Ht as (s & Hs & HP & Hlive & Htrace).
  unfold returns, persist, bind, deref. rewrite Hs.
  unfold modify. apply HQ. exists s. auto.
Qed.

Lemma returns_now P trace (Q : Z -> State -> Prop) st :
  tracks session live sessionId P trace st ->
  (forall time st', tracks session live sessionId P trace st' -> Q time st') ->
  returns now Q st.
Proof.
  intros (s & Hs & HP & Hlive & Htrace) HQ.
  unfold returns, Core.now. apply HQ. exists s. auto.
Qed.

Lemma returns_emit_phase P trace p outcome error time
    (Q : unit -> State -> Prop) st :
  tracks session live sessionId P trace st ->
  (forall st',
      tracks session live sessionId P (trace ++ [(p, outcome)]) st' ->
      Q tt st') ->
  returns (emit W sessionId (phase_event p outcome error time)) Q st.
Proof.
  intros (s & Hs & HP & Hlive & Htrace) HQ.
  unfold returns, emit, modify. apply HQ. exists s.
  cbn [heap activeSessions emitted]. rewrite phase_trace_app, Htrace.
  cbn [phase_trace flat_map]. rewrite String.eqb_refl, app_nil_r. auto.
Qed.

Lemma returns_emit_other P trace target event (Q : unit -> State -> Prop) st :
  tracks session live sessionId P trace st ->
  phase_trace sessionId [(target, event)] = [] ->
  (forall st', tracks session live sessionId P trace st' -> Q tt st') ->
  returns (emit W target event) Q st.
Proof.
  intros (s & Hs & HP & Hlive & Htrace) Hother HQ.
  unfold returns, emit, modify. apply HQ. exists s.
  cbn [heap activeSessions emitted].
  rewrite phase_trace_app, Htrace, Hother, app_nil_r. auto.
Qed.

Lemma returns_in_world {A} (f : W -> Res A * W) P trace
    (Q : A -> State -> Prop) st :
  tracks session live sessionId P trace st ->
  (forall w, exists a w', f w = (Ok a, w')) ->
  (forall a st', tracks session live sessionId P trace st' -> Q a st') ->
  returns (in_world W f) Q st.
Proof.
  intros (s & Hs & HP & Hlive & Htrace) Hf HQ.
  unfold returns, in_world.
  destruct (Hf (world W st)) as (a & w' & ->).
  apply HQ. exists s. auto.
Qed.

Lemma returns_stream_all chunks P trace (Q : unit -> State -> Prop) st :
  tracks session live sessionId P trace st ->
  (forall st', tracks session live sessionId P trace st' -> Q tt st') ->
  returns (stream_all W session chunks) Q st.
Proof.
  revert st. induction chunks as [|chunk later IH]; intros st Ht HQ.
  - apply returns_ret. auto.
  - cbn [stream_all]. apply returns_bind.
    unfold Core.stream. apply returns_bind.
    eapply returns_deref; [exact Ht|]. intros s _.
    destruct (isTerminated s).
    + apply returns_ret. apply IH; assumption.
    + unfold returns, setTimeout_emit, modify.
      apply IH; [|assumption].
      destruct Ht as (s' & Hs & HP & Hlive & Htrace). exists s'. auto.
Qed.

(** [runPhase] around a body that returns: the phase is set, and the
    started and completed events of the phase are emitted around what
    the body emits. *)
Lemma returns_runPhase p phaseFn (P : AgentSession -> Prop) trace
    (Q : unit -> State -> Prop) st :
  tracks session live sessionId (fun s => id s = sessionId /\ P s) trace st ->
  (forall s c, mode c = mode (context s) -> P s ->
               P (mkSession (id s) c (isTerminated s))) ->
  (forall trace' st',
      tracks session live sessionId
        (fun s => id s = sessionId /\ phase (context s) = p /\ P s) trace' st' ->
      returns phaseFn
        (fun _ =>
           tracks session live sessionId
             (fun s => id s = sessionId /\ phase (context s) = p /\ P s) trace')
        st') ->
  (forall st',
      tracks session live sessionId
        (fun s => id s = sessionId /\ phase (context s) = p /\ P s)
        (trace ++ [(p, started); (p, completed)]) st' ->
      Q tt st') ->
  returns (runPhase session p phaseFn) Q st.
Proof.
  intros Ht Hfree Hbody HQ. unfold Core.runPhase.
  apply returns_bind. eapply returns_deref; [exact Ht|].
  intros this [Hid _]. rewrite Hid.
  apply returns_bind.
  eapply (returns_update_context _ _
            (fun s => id s = sessionId /\ phase (context s) = p /\ P s));
    [exact Ht| |].
  { intros s [Hs HP]. cbn. repeat split; [assumption|].
    apply Hfree; [reflexivity|assumption]. }
  intros st1 Ht1. apply returns_bind.
  eapply (returns_update_context _ _
            (fun s => id s = sessionId /\ phase (context s) = p /\ P s));
    [exact Ht1| |].
  { intros s (Hs & Hp & HP). cbn. repeat split; [assumption..|].
    apply Hfree; [reflexivity|assumption]. }
  intros st2 Ht2. apply returns_bind.
  eapply returns_persist; [exact Ht2|]. intros st3 Ht3.
  apply returns_bind. eapply returns_now; [exact Ht3|]. intros time st4 Ht4.
  apply returns_bind. eapply returns_emit_phase; [exact Ht4|]. intros st5 Ht5.
  apply returns_try_catch. apply returns_bind.
  eapply returns_weaken; [exact (Hbody _ _ Ht5)|].
  intros [] st6 Ht6. cbn beta.
  apply returns_bind. eapply returns_now; [exact Ht6|]. intros time' st7 Ht7.
  eapply returns_emit_phase; [exact Ht7|]. intros st8 Ht8.
  apply HQ. rewrite <- app_assoc in Ht8. exact Ht8.
Qed.

Lemma throws_in_world {A} (f : W -> Res A * W) thrown P trace
    (Q : State -> Prop) st :
  tracks session live sessionId P trace st ->
  (forall w, exists w', f w = (Throw thrown, w')) ->
  (forall st', tracks session live sessionId P trace st' -> Q st') ->
  throws (in_world W f) thrown Q st.
Proof.
  intros (s & Hs & HP & Hlive & Htrace) Hf HQ.
  unfold throws, in_world.
  destruct (Hf (world W st)) as (w' & ->).
  split; [reflexivity|]. apply HQ. exists s. auto.
Qed.

(** [runPhase] around a body that throws: the phase is set, the started
    and failed events of the phase are emitted around what the body
    emits, and what the body threw is thrown on. *)
Lemma throws_runPhase p phaseFn thrown (P : AgentSession -> Prop) trace
    (Q : State -> Prop) st :
  tracks session live sessionId (fun s => id s = sessionId /\ P s) trace st ->
  (forall s c, mode c = mode (context s) -> P s ->
               P (mkSession (id s) c (isTerminated s))) ->
  (forall trace' st',
      tracks session live sessionId
        (fun s => id s = sessionId /\ phase (context s) = p /\ P s) trace' st' ->
      throws phaseFn thrown
        (tracks session live sessionId
           (fun s => id s = sessionId /\ phase (context s) = p /\ P s) trace')
        st') ->
  (forall st',
      tracks session live sessionId
        (fun s => id s = sessionId /\ phase (context s) = p /\ P s)
        (trace ++ [(p, started); (p, failed)]) st' ->
      Q st') ->
  throws (runPhase session p phaseFn) thrown Q st.
Proof.
  intros Ht Hfree Hbody HQ. unfold Core.runPhase.
  apply throws_bind_r. eapply returns_deref; [exact Ht|].
  intros this [Hid _]. rewrite Hid.
  apply throws_bind_r.
  eapply (returns_update_context _ _
            (fun s => id s = sessionId /\ phase (context s) = p /\ P s));
    [exact Ht| |].
  { intros s [Hs HP]. cbn. repeat split; [assumption|].
    apply Hfree; [reflexivity|assumption]. }
  intros st1 Ht1. apply throws_bind_r.
  eapply (returns_update_context _ _
            (fun s => id s = sessionId /\ phase (context s) = p /\ P s));
    [exact Ht1| |].
  { intros s (Hs & Hp & HP). cbn. repeat split; [assumption..|].
    apply Hfree; [reflexivity|assumption]. }
  intros st2 Ht2. apply throws_bind_r.
  eapply returns_persist; [exact Ht2|]. intros st3 Ht3.
  apply throws_bind_r. eapply returns_now; [exact Ht3|]. intros time st4 Ht4.
  apply throws_bind_r. eapply returns_emit_phase; [exact Ht4|]. intros st5 Ht5.
  apply (throws_try_catch _ _ thrown). apply throws_bind_l.
  eapply throws_weaken; [exact (Hbody _ _ Ht5)|].
  intros st6 Ht6.
  apply throws_bind_r. eapply returns_now; [exact Ht6|]. intros time' st7 Ht7.
  apply throws_bind_r. eapply returns_emit_phase; [exact Ht7|]. intros st8 Ht8.
  apply throws_throw. apply HQ. rewrite <- app_assoc in Ht8. exact Ht8.
Qed.

End Tracking.

Lemma calculateProgress_deployment (c : GenerationContext) :
  phase c = DEPLOYMENT ->
  calculateProgress c = 0x1.ccccccccccccdp-1%float.
Proof.
  intros Hphase. unfold calculateProgress. rewrite Hphase.
  vm_compute. reflexivity.
Qed.

Lemma returns_processSession session live (s0 : AgentSession) trace st :
  tracks session live (id s0)
    (fun s => id s = id s0 /\ mode (context s) = mode (context s0)) trace st ->
  never_throws W (behaviors (mode (context s0))) ->
  returns (processSession session)
    (fun _ =>
       tracks session live (id s0)
         (fun s => id s = id s0 /\ phase (context s) = DEPLOYMENT
                   /\ status (context s) = COMPLETED)
         (trace ++ all_phases_run))
    st.
Proof.
  intros Ht (Hplan & Hinit & Himpl & Hreview & Hdeploy & Hfix).
  set (m := mode (context s0)) in *.
  set (P := fun s : AgentSession => mode (context s) = m).
  assert (Hstable : forall s c, mode c = mode (context s) -> P s ->
                               P (mkSession (id s) c (isTerminated s))).
  { unfold P. intros s c Hc Hs. cbn. congruence. }
  unfold Core.processSession.
  apply returns_bind. eapply returns_deref; [exact Ht|].
  intros this [Hid Hmode]. rewrite Hid, Hmode. fold m.
  apply returns_try_catch.
  (* ANALYSIS *)
  apply returns_bind.
  eapply (returns_runPhase session live (id s0) ANALYSIS _ P);
    [exact Ht|exact Hstable| |].
  { intros trace' st' Ht'. apply returns_bind. unfold on_context.
    apply returns_bind. eapply returns_deref; [exact Ht'|]. intros cur _.
    eapply returns_in_world; [exact Ht'|apply Hplan|].
    intros plan st1 Ht1. apply returns_bind.
    eapply (returns_update_context session live (id s0) _ _
              (fun s => id s = id s0 /\ phase (context s) = ANALYSIS /\ P s));
      [exact Ht1| |].
    { intros s (? & ? & ?). cbn. auto. }
    intros st2 Ht2.
    eapply returns_emit_other; [exact Ht2|reflexivity|].
    intros st3 Ht3. exact Ht3. }
  intros st1 Ht1.
  (* SETUP *)
  apply returns_bind.
  eapply (returns_runPhase session live (id s0) SETUP _ P);
    [|exact Hstable| |].
  { eapply tracks_weaken; [exact Ht1|]. intros s (? & ? & ?). auto. }
  { intros trace' st' Ht'. unfold on_context.
    apply returns_bind. eapply returns_deref; [exact Ht'|]. intros cur _.
    eapply returns_in_world; [exact Ht'| |].
    - intros w. destruct (Hinit (context cur) w) as (w' & ->). eauto.
    - intros [] st2 Ht2. exact Ht2. }
  intros st2 Ht2.
  (* IMPLEMENTATION *)
  apply returns_bind.
  eapply (returns_runPhase session live (id s0) IMPLEMENTATION _ P);
    [|exact Hstable| |].
  { eapply tracks_weaken; [exact Ht2|]. intros s (? & ? & ?). auto. }
  { intros trace' st' Ht'.
    apply returns_bind. eapply returns_deref; [exact Ht'|]. intros cur _.
    unfold returns at 1.
    destruct (Himpl (context cur) (world W st')) as (chunks & w' & ->).
    change (returns
              (bind (stream_all W session chunks)
                 (fun (_ : unit) (st'' : State) => (Ok tt, st'')))
              (fun _ =>
                 tracks session live (id s0)
                   (fun s => id s = id s0
                             /\ phase (context s) = IMPLEMENTATION /\ P s)
                   trace')
              (mkCore W (heap W st') (activeSessions W st') (store W st')
                 (emitted W st') (analytics W st') (timers W st')
                 (clock_reads W st') w')).
    apply returns_bind.
    eapply (returns_stream_all session live (id s0) chunks
              (fun s => id s = id s0
                        /\ phase (context s) = IMPLEMENTATION /\ P s) trace').
    - destruct Ht' as (s & ? & ? & ? & ?). exists s. cbn. auto.
    - intros st3 Ht3. exact Ht3. }
  intros st3 Ht3.
  (* REVIEW *)
  apply returns_bind.
  eapply (returns_runPhase session live (id s0) REVIEW _ P);
    [|exact Hstable| |].
  { eapply tracks_weaken; [exact Ht3|]. intros s (? & ? & ?). auto. }
  { intros trace' st' Ht'. apply returns_bind. unfold on_context.
    apply returns_bind. eapply returns_deref; [exact Ht'|]. intros cur _.
    eapply returns_in_world; [exact Ht'|apply Hreview|].
    intros analysis st4 Ht4. unfold Core.handlePostReview.
    apply returns_bind. eapply returns_deref; [exact Ht4|].
    intros this' (Hid' & _ & _). rewrite Hid'.
    destruct (length (issues analysis) =? 0)%nat.
    - eapply returns_emit_other; [exact Ht4|reflexivity|].
      intros st5 Ht5. exact Ht5.
    - apply returns_bind.
      eapply returns_emit_other; [exact Ht4|reflexivity|].
      intros st5 Ht5.
      destruct (PrimFloat.ltb _ _).
      + apply returns_bind. eapply returns_deref; [exact Ht5|].
        intros current (_ & _ & Hm). unfold P in Hm. rewrite Hm.
        eapply returns_in_world; [exact Ht5| |].
        * intros w.
          destruct (Hfix (context current) (issues analysis) w) as (w' & ->).
          eauto.
        * intros [] st6 Ht6. exact Ht6.
      + apply returns_ret. exact Ht5. }
  intros st4 Ht4.
  (* DEPLOYMENT *)
  apply returns_bind.
  eapply (returns_runPhase session live (id s0) DEPLOYMENT _ P);
    [|exact Hstable| |].
  { eapply tracks_weaken; [exact Ht4|]. intros s (? & ? & ?). auto. }
  { intros trace' st' Ht'. unfold on_context.
    apply returns_bind. eapply returns_deref; [exact Ht'|]. intros cur _.
    eapply returns_in_world; [exact Ht'| |].
    - intros w. destruct (Hdeploy (context cur) w) as (w' & ->). eauto.
    - intros [] st5 Ht5. exact Ht5. }
  intros st5 Ht5.
  (* completion *)
  apply returns_bind.
  eapply (returns_update_context session live (id s0) _ _
            (fun s => id s = id s0 /\ phase (context s) = DEPLOYMENT
                      /\ status (context s) = COMPLETED));
    [exact Ht5| |].
  { intros s (? & ? & ?). cbn. auto. }
  intros st6 Ht6. apply returns_bind.
  eapply returns_persist; [exact Ht6|]. intros st7 Ht7.
  unfold Core.complete.
  apply returns_bind. eapply returns_deref; [exact Ht7|].
  intros this' (Hid' & _ & _). rewrite Hid'.
  assert (Hdone : forall st8,
             tracks session live (id s0)
               (fun s => id s = id s0 /\ phase (context s) = DEPLOYMENT
                         /\ status (context s) = COMPLETED)
               (((((trace ++ [(ANALYSIS, started); (ANALYSIS, completed)])
                     ++ [(SETUP, started); (SETUP, completed)])
                    ++ [(IMPLEMENTATION, started); (IMPLEMENTATION, completed)])
                   ++ [(REVIEW, started); (REVIEW, completed)])
                  ++ [(DEPLOYMENT, started); (DEPLOYMENT, completed)]) st8 ->
             tracks session live (id s0)
               (fun s => id s = id s0 /\ phase (context s) = DEPLOYMENT
                         /\ status (context s) = COMPLETED)
               (trace ++ all_phases_run) st8).
  { intros st8 Ht8. unfold all_phases_run.
    repeat rewrite <- app_assoc in Ht8. exact Ht8. }
  destruct (isTerminated this').
  - apply returns_ret. apply Hdone. exact Ht7.
  - apply returns_bind.
    eapply (returns_update_context session live (id s0) _ _
              (fun s => id s = id s0 /\ phase (context s) = DEPLOYMENT
                        /\ status (context s) = COMPLETED));
      [exact Ht7| |].
    { intros s (? & ? & ?). cbn. auto. }
    intros st8 Ht8. apply returns_bind.
    eapply returns_now; [exact Ht8|]. intros time st9 Ht9.
    eapply returns_emit_other; [exact Ht9|reflexivity|].
    intros st10 Ht10. apply Hdone. exact Ht10.
Qed.


(** *** Notifications of a cancelled session *)

(** After [terminate], [stream] schedules nothing and emits nothing. *)
Lemma stream_after_terminate_silent (session : nat) (s : AgentSession)
    (chunk : JsValue) (st : State) :
  heap W st !! session = Some s ->
  isTerminated s = true ->
  stream session chunk st = (Ok tt, st).
Proof.
  intros Hs Hterm. unfold Core.stream, bind, deref. rewrite Hs, Hterm.
  reflexivity.
Qed.

(** After [terminate], [complete] changes nothing and emits nothing. *)
Lemma complete_after_terminate_silent (session : nat) (s : AgentSession)
    (st : State) :
  heap W st !! session = Some s ->
  isTerminated s = true ->
  complete session st = (Ok tt, st).
Proof.
  intros Hs Hterm. unfold Core.complete, bind, deref. rewrite Hs, Hterm.
  reflexivity.
Qed.

(** [fail] has no such test: terminated or not, it emits an error event. *)
Lemma fail_always_emits (session : nat) (s : AgentSession) (error : JsError)
    (st : State) :
  heap W st !! session = Some s ->
  exists st',
    fail session error st = (Ok tt, st')
    /\ emitted W st'
       = emitted W st
         ++ [(id s,
              error_event (message error)
                (if development then stack_of error else None)
                (Date_now (clock_reads W st)))].
Proof.
  intros Hs. unfold Core.fail, bind, deref. rewrite Hs.
  eexists. split; reflexivity.
Qed.

(** *** Termination through the orchestrator *)

(** C9.  Over a store in which writing the same status twice is writing
    it once, and for an orchestrator whose live sessions are session
    objects: [terminateSession] returns; the session is no longer live, its
    object is marked terminated, and the store has received the TERMINATED
    status with the reason; a second call with the same reason returns too
    and leaves that very state. *)
Theorem terminateSession_idempotent (sessionId : string)
    (reason : option string) (st : State) :
  (forall saved : Store,
      updateSessionStatus sessionId TERMINATED reason
        (updateSessionStatus sessionId TERMINATED reason saved)
      = updateSessionStatus sessionId TERMINATED reason saved) ->
  (forall session,
      activeSessions W st !! sessionId = Some session ->
      is_Some (heap W st !! session)) ->
  exists st1,
    terminateSession sessionId reason st = (Ok tt, st1)
    /\ terminateSession sessionId reason st1 = (Ok tt, st1)
    /\ activeSessions W st1 !! sessionId = None
    /\ store W st1
       = updateSessionStatus sessionId TERMINATED reason (store W st)
    /\ (forall session,
           activeSessions W st !! sessionId = Some session ->
           isTerminated <$> heap W st1 !! session = Some true).
Proof.
  intros Hlaw Hobjects. unfold Core.terminateSession.
  destruct (activeSessions W st !! sessionId) as [session|] eqn:Hlive.
  - destruct (Hobjects session eq_refl) as [s Hs].
    unfold bind at 1, bind at 1, Core.terminate, bind at 1, deref.
    rewrite Hs. cbn.
    eexists. split; [reflexivity|].
    cbn [activeSessions with_activeSessions with_store store heap].
    rewrite lookup_delete_eq. cbn.
    unfold modify, with_store, with_activeSessions.
    cbn [heap activeSessions store emitted analytics timers clock_reads world].
    rewrite Hlaw.
    split; [reflexivity|]. split; [reflexivity|]. split; [reflexivity|].
    intros session' [= <-]. rewrite lookup_alter_eq, Hs. reflexivity.
  - cbn. eexists. split; [reflexivity|].
    cbn [activeSessions with_store store]. rewrite Hlive. cbn.
    unfold modify, with_store.
    cbn [heap activeSessions store emitted analytics timers clock_reads world].
    rewrite Hlaw.
    split; [reflexivity|]. split; [reflexivity|]. split; [reflexivity|].
    intros session' [=].
Qed.

(** *** A session whose phase fails *)

Section PhaseSteps.

Variable session : nat.
Variable live : gmap string nat.
Variable s0 : AgentSession.

Local Abbreviation b := (behaviors (mode (context s0))).
Local Abbreviation same_mode :=
  (fun s : AgentSession => mode (context s) = mode (context s0)).
Local Abbreviation anywhere :=
  (fun s : AgentSession =>
     id s = id s0 /\ mode (context s) = mode (context s0)).
Local Abbreviation at_phase p :=
  (fun s : AgentSession =>
     id s = id s0 /\ phase (context s) = p
     /\ mode (context s) = mode (context s0)).

Lemma same_mode_stable :
  forall s c, mode c = mode (context s) -> same_mode s ->
              same_mode (mkSession (id s) c (isTerminated s)).
Proof. intros s c Hc Hs. cbn. congruence. Qed.

Lemma at_phase_anywhere p trace st :
  tracks session live (id s0) (at_phase p) trace st ->
  tracks session live (id s0) anywhere trace st.
Proof.
  intros Ht. eapply tracks_weaken; [exact Ht|]. intros s (? & ? & ?). auto.
Qed.

Local Abbreviation analysis_body :=
  (bind (on_context W session (generateBlueprint W b))
     (fun plan =>
        bind (update_context W session (set_blueprint plan))
          (fun _ => emit W (id s0) (blueprint_event plan)))).

Local Abbreviation implementation_body :=
  (bind (deref W session)
     (fun current (st : State) =>
        let '((chunks, outcome), w) :=
          implementProject W b (context current) (world W st) in
        bind (stream_all W session chunks) (fun _ st' => (outcome, st'))
          (mkCore W (heap W st) (activeSessions W st) (store W st)
             (emitted W st) (analytics W st) (timers W st) (clock_reads W st)
             w))).

Local Abbreviation review_body :=
  (bind (on_context W session (reviewProject W b))
     (fun analysis => handlePostReview session analysis)).

Lemma returns_analysis trace (Q : unit -> State -> Prop) st :
  tracks session live (id s0) anywhere trace st ->
  (forall c w, exists plan w', generateBlueprint W b c w = (Ok plan, w')) ->
  (forall st',
      tracks session live (id s0) (at_phase ANALYSIS)
        (trace ++ [(ANALYSIS, started); (ANALYSIS, completed)]) st' ->
      Q tt st') ->
  returns (runPhase session ANALYSIS analysis_body) Q st.
Proof.
  intros Ht Hplan HQ.
  eapply (returns_runPhase session live (id s0) ANALYSIS _ same_mode);
    [exact Ht|exact same_mode_stable| |exact HQ].
  intros trace' st' Ht'. apply returns_bind. unfold on_context.
  apply returns_bind. eapply returns_deref; [exact Ht'|]. intros cur _.
  eapply returns_in_world; [exact Ht'|apply Hplan|].
  intros plan st1 Ht1. apply returns_bind.
  eapply (returns_update_context session live (id s0) _ _ (at_phase ANALYSIS));
    [exact Ht1| |].
  { intros s (? & ? & ?). cbn. auto. }
  intros st2 Ht2.
  eapply returns_emit_other; [exact Ht2|reflexivity|].
  intros st3 Ht3. exact Ht3.
Qed.

Lemma returns_setup trace (Q : unit -> State -> Prop) st :
  tracks session live (id s0) anywhere trace st ->
  (forall c w, exists w', initializeProject W b c w = (Ok tt, w')) ->
  (forall st',
      tracks session live (id s0) (at_phase SETUP)
        (trace ++ [(SETUP, started); (SETUP, completed)]) st' ->
      Q tt st') ->
  returns (runPhase session SETUP
             (on_context W session (initializeProject W b))) Q st.
Proof.
  intros Ht Hinit HQ.
  eapply (returns_runPhase session live (id s0) SETUP _ same_mode);
    [exact Ht|exact same_mode_stable| |exact HQ].
  intros trace' st' Ht'. unfold on_context.
  apply returns_bind. eapply returns_deref; [exact Ht'|]. intros cur _.
  eapply returns_in_world; [exact Ht'| |].
  - intros w. destruct (Hinit (context cur) w) as (w' & ->). eauto.
  - intros [] st2 Ht2. exact Ht2.
Qed.

Lemma returns_implementation trace (Q : unit -> State -> Prop) st :
  tracks session live (id s0) anywhere trace st ->
  (forall c w, exists chunks w',
      implementProject W b c w = ((chunks, Ok tt), w')) ->
  (forall st',
      tracks session live (id s0) (at_phase IMPLEMENTATION)
        (trace ++ [(IMPLEMENTATION, started); (IMPLEMENTATION, completed)])
        st' ->
      Q tt st') ->
  returns (runPhase session IMPLEMENTATION implementation_body) Q st.
Proof.
  intros Ht Himpl HQ.
  eapply (returns_runPhase session live (id s0) IMPLEMENTATION _ same_mode);
    [exact Ht|exact same_mode_stable| |exact HQ].
  intros trace' st' Ht'.
  apply returns_bind. eapply returns_deref; [exact Ht'|]. intros cur _.
  unfold returns at 1.
  destruct (Himpl (context cur) (world W st')) as (chunks & w' & ->).
  change (returns
            (bind (stream_all W session chunks)
               (fun (_ : unit) (st'' : State) => (Ok tt, st'')))
            (fun _ =>
               tracks session live (id s0) (at_phase IMPLEMENTATION) trace')
            (mkCore W (heap W st') (activeSessions W st') (store W st')
               (emitted W st') (analytics W st') (timers W st')
               (clock_reads W st') w')).
  apply returns_bind.
  eapply (returns_stream_all session live (id s0) chunks
            (at_phase IMPLEMENTATION) trace').
  - destruct Ht' as (s & ? & ? & ? & ?). exists s. cbn. auto.
  - intros st3 Ht3. exact Ht3.
Qed.

Lemma returns_review trace (Q : unit -> State -> Prop) st :
  tracks session live (id s0) anywhere trace st ->
  (forall c w, exists analysis w', reviewProject W b c w = (Ok analysis, w')) ->
  (forall c found w, exists w', applyFixes W b c found w = (Ok tt, w')) ->
  (forall st',
      tracks session live (id s0) (at_phase REVIEW)
        (trace ++ [(REVIEW, started); (REVIEW, completed)]) st' ->
      Q tt st') ->
  returns (runPhase session REVIEW review_body) Q st.
Proof.
  intros Ht Hreview Hfix HQ.
  eapply (returns_runPhase session live (id s0) REVIEW _ same_mode);
    [exact Ht|exact same_mode_stable| |exact HQ].
  intros trace' st' Ht'. apply returns_bind. unfold on_context.
  apply returns_bind. eapply returns_deref; [exact Ht'|]. intros cur _.
  eapply returns_in_world; [exact Ht'|apply Hreview|].
  intros analysis st4 Ht4. unfold Core.handlePostReview.
  apply returns_bind. eapply returns_deref; [exact Ht4|].
  intros this' (Hid' & _ & _). rewrite Hid'.
  destruct (length (issues analysis) =? 0)%nat.
  - eapply returns_emit_other; [exact Ht4|reflexivity|].
    intros st5 Ht5. exact Ht5.
  - apply returns_bind.
    eapply returns_emit_other; [exact Ht4|reflexivity|].
    intros st5 Ht5.
    destruct (PrimFloat.ltb _ _).
    + apply returns_bind. eapply returns_deref; [exact Ht5|].
      intros current (_ & _ & Hm). rewrite Hm.
      eapply returns_in_world; [exact Ht5| |].
      * intros w.
        destruct (Hfix (context current) (issues analysis) w) as (w' & ->).
        eauto.
      * intros [] st6 Ht6. exact Ht6.
    + apply returns_ret. exact Ht5.
Qed.

(** The [catch] of [processSession]: the status becomes FAILED, the
    context is persisted, and what was caught is thrown on. *)
Lemma throws_failure_handler p thrown trace st :
  tracks session live (id s0) (at_phase p) trace st ->
  throws
    (bind (update_context W session (set_status FAILED))
       (fun _ => bind (persist W session) (fun _ => @throw _ unit thrown)))
    thrown
    (tracks session live (id s0)
       (fun s => id s = id s0 /\ phase (context s) = p
                 /\ status (context s) = FAILED)
       trace)
    st.
Proof.
  intros Ht. apply throws_bind_r.
  eapply (returns_update_context session live (id s0) _ _
            (fun s => id s = id s0 /\ phase (context s) = p
                      /\ status (context s) = FAILED));
    [exact Ht| |].
  { intros s (? & ? & ?). cbn. auto. }
  intros st1 Ht1. apply throws_bind_r.
  eapply returns_persist; [exact Ht1|]. intros st2 Ht2.
  apply throws_throw. exact Ht2.
Qed.

Lemma throws_processSession p thrown trace st :
  tracks session live (id s0) anywhere trace st ->
  phase_throws W b p thrown ->
  throws (processSession session) thrown
    (tracks session live (id s0)
       (fun s => id s = id s0 /\ phase (context s) = p
                 /\ status (context s) = FAILED)
       (trace ++ phases_before p ++ [(p, started); (p, failed)]))
    st.
Proof.
  intros Ht Hthrows. unfold Core.processSession.
  apply throws_bind_r. eapply returns_deref; [exact Ht|].
  intros this [Hid Hmode]. rewrite Hid, Hmode.
  apply (throws_try_catch _ _ thrown).
  assert (Hend : forall q trace' st',
             tracks session live (id s0) (at_phase q) trace' st' ->
             throws
               (bind (update_context W session (set_status FAILED))
                  (fun _ => bind (persist W session) (fun _ => @throw _ unit thrown)))
               thrown
               (tracks session live (id s0)
                  (fun s => id s = id s0 /\ phase (context s) = q
                            /\ status (context s) = FAILED)
                  trace')
               st')
    by (intros q trace' st'; apply throws_failure_handler).
  destruct p; cbn [phase_throws] in Hthrows.
  - (* ANALYSIS *)
    apply throws_bind_l.
    eapply (throws_runPhase session live (id s0) ANALYSIS _ thrown same_mode);
      [exact Ht|exact same_mode_stable| |].
    + intros trace' st' Ht'. apply throws_bind_l. unfold on_context.
      apply throws_bind_r. eapply returns_deref; [exact Ht'|]. intros cur _.
      eapply throws_in_world; [exact Ht'|apply Hthrows|].
      intros st1 Ht1. exact Ht1.
    + intros st1 Ht1. apply Hend. exact Ht1.
  - (* SETUP *)
    destruct Hthrows as (Hplan & Hthrows).
    apply throws_bind_r. eapply returns_analysis; [exact Ht|exact Hplan|].
    intros st1 Ht1%at_phase_anywhere.
    apply throws_bind_l.
    eapply (throws_runPhase session live (id s0) SETUP _ thrown same_mode);
      [exact Ht1|exact same_mode_stable| |].
    + intros trace' st' Ht'. unfold on_context.
      apply throws_bind_r. eapply returns_deref; [exact Ht'|]. intros cur _.
      eapply throws_in_world; [exact Ht'|apply Hthrows|].
      intros st2 Ht2. exact Ht2.
    + intros st2 Ht2. apply Hend.
      rewrite <- app_assoc in Ht2. exact Ht2.
  - (* IMPLEMENTATION *)
    destruct Hthrows as (Hplan & Hinit & Hthrows).
    apply throws_bind_r. eapply returns_analysis; [exact Ht|exact Hplan|].
    intros st1 Ht1%at_phase_anywhere.
    apply throws_bind_r. eapply returns_setup; [exact Ht1|exact Hinit|].
    intros st2 Ht2%at_phase_anywhere.
    apply throws_bind_l.
    eapply (throws_runPhase session live (id s0) IMPLEMENTATION _ thrown
              same_mode);
      [exact Ht2|exact same_mode_stable| |].
    + intros trace' st' Ht'.
      apply throws_bind_r. eapply returns_deref; [exact Ht'|]. intros cur _.
      unfold throws at 1.
      destruct (Hthrows (context cur) (world W st')) as (chunks & w' & ->).
      change (throws
                (bind (stream_all W session chunks)
                   (fun (_ : unit) (st'' : State) =>
                      (@Throw unit thrown, st'')))
                thrown
                (tracks session live (id s0) (at_phase IMPLEMENTATION) trace')
                (mkCore W (heap W st') (activeSessions W st') (store W st')
                   (emitted W st') (analytics W st') (timers W st')
                   (clock_reads W st') w')).
      apply throws_bind_r.
      eapply (returns_stream_all session live (id s0) chunks
                (at_phase IMPLEMENTATION) trace').
      * destruct Ht' as (s & ? & ? & ? & ?). exists s. cbn. auto.
      * intros st3 Ht3. split; [reflexivity|exact Ht3].
    + intros st3 Ht3. apply Hend.
      rewrite <- !app_assoc in Ht3. exact Ht3.
  - (* REVIEW *)
    destruct Hthrows as (Hplan & Hinit & Himpl & Hthrows).
    apply throws_bind_r. eapply returns_analysis; [exact Ht|exact Hplan|].
    intros st1 Ht1%at_phase_anywhere.
    apply throws_bind_r. eapply returns_setup; [exact Ht1|exact Hinit|].
    intros st2 Ht2%at_phase_anywhere.
    apply throws_bind_r.
    eapply returns_implementation; [exact Ht2|exact Himpl|].
    intros st3 Ht3%at_phase_anywhere.
    apply throws_bind_l.
    eapply (throws_runPhase session live (id s0) REVIEW _ thrown same_mode);
      [exact Ht3|exact same_mode_stable| |].
    + intros trace' st' Ht'. apply throws_bind_l. unfold on_context.
      apply throws_bind_r. eapply returns_deref; [exact Ht'|]. intros cur _.
      eapply throws_in_world; [exact Ht'|apply Hthrows|].
      intros st4 Ht4. exact Ht4.
    + intros st4 Ht4. apply Hend.
      rewrite <- !app_assoc in Ht4. exact Ht4.
  - (* DEPLOYMENT *)
    destruct Hthrows as (Hplan & Hinit & Himpl & (Hreview & Hfix) & Hthrows).
    apply throws_bind_r. eapply returns_analysis; [exact Ht|exact Hplan|].
    intros st1 Ht1%at_phase_anywhere.
    apply throws_bind_r. eapply returns_setup; [exact Ht1|exact Hinit|].
    intros st2 Ht2%at_phase_anywhere.
    apply throws_bind_r.
    eapply returns_implementation; [exact Ht2|exact Himpl|].
    intros st3 Ht3%at_phase_anywhere.
    apply throws_bind_r.
    eapply returns_review; [exact Ht3|exact Hreview|exact Hfix|].
    intros st4 Ht4%at_phase_anywhere.
    apply throws_bind_l.
    eapply (throws_runPhase session live (id s0) DEPLOYMENT _ thrown same_mode);
      [exact Ht4|exact same_mode_stable| |].
    + intros trace' st' Ht'. unfold on_context.
      apply throws_bind_r. eapply returns_deref; [exact Ht'|]. intros cur _.
      eapply throws_in_world; [exact Ht'|apply Hthrows|].
      intros st5 Ht5. exact Ht5.
    + intros st5 Ht5. apply Hend.
      rewrite <- !app_assoc in Ht5. exact Ht5.
Qed.

End PhaseSteps.


(** *** After the termination *)

Lemma stream_all_after_terminate_silent (session : nat) (s : AgentSession)
    (chunks : list JsValue) (st : State) :
  heap W st !! session = Some s ->
  isTerminated s = true ->
  stream_all W session chunks st = (Ok tt, st).
Proof.
  intros Hs Hterm. induction chunks as [|chunk later IH]; [reflexivity|].
  cbn [stream_all].
  rewrite (bind_Ok _ _ _ _ _
             (stream_after_terminate_silent session s chunk st Hs Hterm)).
  exact IH.
Qed.

(** Once [terminate] has run on a session, [stream] and [complete] on it
    do nothing at all: no event, no timer, no change of status, however
    many chunks the behaviour still streams. *)
Theorem terminated_session_is_silent (session : nat) (s : AgentSession)
    (reason : option string) (st : State) :
  heap W st !! session = Some s ->
  let cancelled := snd (terminate session reason st) in
  (forall chunks, stream_all W session chunks cancelled = (Ok tt, cancelled))
  /\ (forall chunk, stream session chunk cancelled = (Ok tt, cancelled))
  /\ complete session cancelled = (Ok tt, cancelled).
Proof.
  intros Hs. cbv zeta.
  assert (Hobject :
            heap W (snd (terminate session reason st)) !! session
            = Some (mkSession (id s) (context s) true)).
  { unfold Core.terminate, bind, deref. rewrite Hs.
    cbn. rewrite lookup_alter_eq, Hs. reflexivity. }
  split; [|split].
  - intros chunks.
    exact (stream_all_after_terminate_silent _ _ chunks _ Hobject eq_refl).
  - intros chunk.
    exact (stream_after_terminate_silent _ _ chunk _ Hobject eq_refl).
  - exact (complete_after_terminate_silent _ _ _ Hobject eq_refl).
Qed.

(** After [terminateSession] the session is gone from the orchestrator: a
    tool call for it is refused with ["Session not found"] and changes
    nothing, and its status is answered by the store, not by the session
    object. *)
Theorem terminated_session_is_gone (sessionId : string)
    (reason : option string) (st : State) :
  (forall session,
      activeSessions W st !! sessionId = Some session ->
      is_Some (heap W st !! session)) ->
  let st1 := snd (terminateSession sessionId reason st) in
  fst (terminateSession sessionId reason st) = Ok tt
  /\ (forall toolCall,
        executeToolCall sessionId toolCall st1
        = (Throw (ThrownError
                    (new_Error ("Session not found: " +:+ sessionId))), st1))
  /\ getSessionStatus sessionId st1
     = (Ok (getStoredStatus sessionId (store W st1)), st1).
Proof.
  intros Hobjects. cbv zeta.
  assert (Hgone :
            exists st1,
              terminateSession sessionId reason st = (Ok tt, st1)
              /\ activeSessions W st1 !! sessionId = None).
  { unfold Core.terminateSession.
    destruct (activeSessions W st !! sessionId) as [session|] eqn:Hlive.
    - destruct (Hobjects session eq_refl) as [s Hs].
      unfold bind at 1, bind at 1, Core.terminate, bind at 1, deref.
      rewrite Hs. cbn. eexists. split; [reflexivity|].
      cbn [activeSessions]. apply lookup_delete_eq.
    - cbn. eexists. split; [reflexivity|exact Hlive]. }
  destruct Hgone as (st1 & -> & Hgone). cbn [fst snd].
  split; [reflexivity|]. split.
  - intros toolCall. unfold Core.executeToolCall. rewrite Hgone. reflexivity.
  - unfold Core.getSessionStatus. rewrite Hgone. reflexivity.
Qed.

(** *** Every tool call is answered and logged *)

(** The record of an answer or of a rejection, once the run is known. *)
Ltac show_failure Hlog :=
  do 4 (split; [reflexivity|]);
  split; [first [split; [exact Hlog|];
                 split; [reflexivity|]; split; [reflexivity|]; eauto
                |split; [exact Hlog|reflexivity]]|];
  split; [left; reflexivity|];
  split; [intros Hall; first [split; [reflexivity|eexists; reflexivity]
                             |rewrite Hall in Hlog; discriminate]|].

(** For a live session whose object is there, [executeToolCall] calls
    the logging once, or twice when the logging of a success rejected (the
    call is then logged again, and answered, as a failure).  It returns when
    its last logging resolves, and the record of that logging agrees with
    the answer on the session, the tool's name, the success flag and the
    duration; a failed answer carries an error text.  It throws only what
    the logging of a failure rejected with.  So with a logging that always
    resolves, every call is answered and leaves exactly one record.  A tool
    that is overtaken by the timeout is answered with ["Tool timeout"], and
    a tool that resolves with [undefined] is answered as a failure, since
    the size of its result cannot be taken. *)
Theorem executeToolCall_answers_and_logs (sessionId : string)
    (toolCall : ToolCall) (session : nat) (s : AgentSession) (st : State) :
  activeSessions W st !! sessionId = Some session ->
  heap W st !! session = Some s ->
  exists outcome entries entry st',
    executeToolCall sessionId toolCall st = (outcome, st')
    /\ analytics W st' = analytics W st ++ entries
    /\ last entries = Some entry
    /\ log_sessionId entry = sessionId
    /\ toolName entry = name toolCall
    /\ match outcome with
       | Ok result =>
           logToolExecution_settles
             (length (analytics W st) + length entries - 1) entry = Ok tt
           /\ log_success entry = success result
           /\ duration entry = executionTime result
           /\ (success result = false -> is_Some (error result))
       | Throw rejected =>
           logToolExecution_settles
             (length (analytics W st) + length entries - 1) entry
           = Throw rejected
           /\ log_success entry = false
       end
    /\ (entries = [entry]
        \/ exists first rejected,
            entries = [first; entry]
            /\ log_success first = true
            /\ log_success entry = false
            /\ logToolExecution_settles (length (analytics W st)) first
               = Throw rejected)
    /\ ((forall n logged, logToolExecution_settles n logged = Ok tt) ->
        entries = [entry] /\ exists result, outcome = Ok result)
    /\ (forall tool w result,
          toolkit !! name toolCall = Some tool ->
          outcome = Ok result ->
          (execute W tool (parameters toolCall) sessionId (context s)
             (world W st) = (timer_first, w) ->
           success result = false /\ error result = Some "Tool timeout")
          /\ (execute W tool (parameters toolCall) sessionId (context s)
                (world W st) = (settles_first (Ok JUndefined), w) ->
              success result = false
              /\ error result
                 = Some "Cannot read properties of undefined (reading 'length')")).
Proof.
  intros Hlive Hs. rewrite (executeToolCall_live _ _ _ _ Hlive).
  unfold bind at 1. cbn [Core.now]. unfold try_catch, Core.toolkit_get.
  destruct (toolkit !! name toolCall) as [tool|] eqn:Htool.
  2:{ destruct (bool_decide _); cbn.
      all: destruct (logToolExecution_settles _ _) as [[]|rejected] eqn:Hlog.
      all: eexists _, [_], _, _.
      all: split; [reflexivity|].
      all: cbn; rewrite ?Nat.add_sub.
      all: show_failure Hlog.
      all: intros tool w result [=]. }
  unfold bind at 1, deref. cbn [heap]. rewrite Hs.
  unfold bind at 1. cbn [world heap activeSessions store emitted analytics
                           timers clock_reads].
  destruct (execute W tool (parameters toolCall) sessionId (context s)
              (world W st)) as [[[result|thrown]|] w] eqn:Hrun;
    cbn [race_with_timeout].
  2,3: cbn; destruct (logToolExecution_settles _ _) as [[]|rejected] eqn:Hlog;
    eexists _, [_], _, _; (split; [reflexivity|]); cbn; rewrite ?Nat.add_sub;
    show_failure Hlog; intros tool' w' answer [= <-]; try discriminate;
    intros [= <-]; rewrite Hrun; split; intros Hexec; try discriminate Hexec;
    split; reflexivity.
  unfold bind at 1. cbn [Core.now]. unfold bind at 1.
  destruct (resultSize_of JSON_stringify_unknown result) as [size|refused]
    eqn:Hsize.
  - unfold bind at 1, Core.logToolExecution.
    cbn [world heap activeSessions store emitted analytics timers clock_reads].
    destruct (logToolExecution_settles (length (analytics W st)) _)
      as [[]|rejected] eqn:Hfirst.
    + cbn. eexists _, [_], _, _. split; [reflexivity|]. cbn.
      rewrite ?Nat.add_sub. do 4 (split; [reflexivity|]).
      split; [split; [exact Hfirst|]; split; [reflexivity|];
              split; [reflexivity|discriminate]|].
      split; [left; reflexivity|].
      split; [intros _; split; [reflexivity|eexists; reflexivity]|].
      intros tool' w' answer [= <-] [= <-]. rewrite Hrun.
      split; [intros [=]|].
      intros [= ->]. cbn in Hsize. discriminate.
    + cbn [analytics clock_reads]. unfold bind at 1. cbn [Core.now].
      unfold bind at 1, Core.logToolExecution.
      cbn [world heap activeSessions store emitted analytics timers
             clock_reads].
      destruct (logToolExecution_settles (length (analytics W st ++ [_])) _)
        as [[]|rejected'] eqn:Hlog.
      all: eexists _, [_; _], _, _.
      all: split; [reflexivity|].
      all: split; [cbn [analytics]; rewrite <- app_assoc; reflexivity|].
      all: rewrite length_app in Hlog; cbn [length] in Hlog.
      all: cbn [last length]; replace (length (analytics W st) + 2 - 1)%nat
             with (length (analytics W st) + 1)%nat by lia.
      all: do 3 (split; [reflexivity|]).
      all: split; [first [split; [exact Hlog|];
                          split; [reflexivity|]; split; [reflexivity|]; eauto
                         |split; [exact Hlog|reflexivity]]|].
      all: split; [right; eexists _, _; split; [reflexivity|];
                   split; [reflexivity|]; split; [reflexivity|exact Hfirst]|].
      all: split; [intros Hall; rewrite Hall in Hfirst; discriminate|].
      all: intros tool' w' answer [= <-]; try discriminate.
      intros [= <-]. rewrite Hrun. split; [intros [=]|].
      intros [= ->]. cbn in Hsize. discriminate.
  - cbn [analytics clock_reads]. unfold bind at 1. cbn [Core.now].
    unfold bind at 1, Core.logToolExecution.
    cbn [world heap activeSessions store emitted analytics timers clock_reads].
    destruct (logToolExecution_settles _ _) as [[]|rejected] eqn:Hlog.
    all: eexists _, [_], _, _.
    all: split; [reflexivity|].
    all: cbn; rewrite ?Nat.add_sub.
    all: show_failure Hlog.
    all: intros tool' w' answer [= <-]; try discriminate.
    intros [= <-]. rewrite Hrun. split; [intros [=]|].
    intros [= ->]. cbn in Hsize. injection Hsize as <-. cbn. auto.
Qed.

(** *** Progress *)

(** The progress reported for a session depends on its phase alone: it
    is 0, 0.1, 0.30000000000000004, 0.8 and 0.9 for the five phases in
    order.  It never decreases from a phase to a later one, and it stays
    below the cap of 0.99: the cap never applies, and no session is ever
    reported at 100 %, whatever its status. *)
#[warnings="-inexact-float"]
Theorem calculateProgress_by_phase (c : GenerationContext) :
  calculateProgress c
  = match phase c with
    | ANALYSIS => 0%float
    | SETUP => 0.1%float
    | IMPLEMENTATION => 0.30000000000000004%float
    | REVIEW => 0.8%float
    | DEPLOYMENT => 0.9%float
    end
  /\ PrimFloat.ltb (calculateProgress c) 0.99%float = true
  /\ forall later : GenerationContext,
      indexOf phases (phase c) <= indexOf phases (phase later) ->
      PrimFloat.leb (calculateProgress c) (calculateProgress later) = true.
Proof.
  unfold calculateProgress.
  split; [|split].
  - destruct (phase c); vm_compute; reflexivity.
  - destruct (phase c); vm_compute; reflexivity.
  - intros later. destruct (phase c), (phase later); vm_compute;
      try reflexivity; intros Hle; exfalso; apply Hle; reflexivity.
Qed.

(** *** The streaming buffer *)

Lemma stream_all_buffers (session : nat) (s : AgentSession)
    (chunks : list JsValue) (st : State) :
  heap W st !! session = Some s ->
  isTerminated s = false ->
  stream_all W session chunks st
  = (Ok tt,
     mkCore W (heap W st) (activeSessions W st) (store W st) (emitted W st)
       (analytics W st)
       (timers W st
        ++ map (fun chunk => (STREAM_BUFFER_MS, (id s, stream_event chunk)))
             chunks)
       (clock_reads W st) (world W st)).
Proof.
  revert st. induction chunks as [|chunk later IH]; intros st Hs Hlive.
  - cbn. rewrite app_nil_r. destruct st; reflexivity.
  - cbn [stream_all map]. unfold bind at 1, Core.stream, bind at 1, deref.
    rewrite Hs, Hlive. unfold setTimeout_emit, modify.
    rewrite IH by assumption.
    cbn [heap activeSessions store emitted analytics timers clock_reads world].
    rewrite <- app_assoc. reflexivity.
Qed.

Lemma fire_timers_emits (pending : list (Z * (string * AgentEvent)))
    (st : State) :
  timers W st = pending ->
  fire_timers W (length pending) st
  = (Ok tt,
     mkCore W (heap W st) (activeSessions W st) (store W st)
       (emitted W st ++ map snd pending) (analytics W st) []
       (clock_reads W st) (world W st)).
Proof.
  revert st. induction pending as [|[ms [target event]] pending IH];
    intros st Hpending.
  - cbn. rewrite app_nil_r. destruct st; cbn in *; subst; reflexivity.
  - cbn [length fire_timers]. unfold bind at 1, fire_timer.
    rewrite Hpending. rewrite IH by reflexivity.
    cbn [heap activeSessions store emitted analytics timers clock_reads world
           map snd].
    rewrite <- app_assoc. reflexivity.
Qed.

(** Chunks streamed on a session that is not terminated are buffered and
    then emitted in the order streamed: each chunk gets a timer of its own,
    of 50 ms, and when the timers have fired the emitter has received one
    stream event per chunk, in the order of the chunks, and no timer is
    left. *)
Theorem streamed_chunks_are_emitted_in_order (session : nat)
    (s : AgentSession) (chunks : list JsValue) (st : State) :
  heap W st !! session = Some s ->
  isTerminated s = false ->
  timers W st = [] ->
  exists buffered st',
    stream_all W session chunks st = (Ok tt, buffered)
    /\ timers W buffered
       = map (fun chunk => (50, (id s, stream_event chunk))) chunks
    /\ emitted W buffered = emitted W st
    /\ fire_timers W (length chunks) buffered = (Ok tt, st')
    /\ emitted W st'
       = emitted W st ++ map (fun chunk => (id s, stream_event chunk)) chunks
    /\ timers W st' = [].
Proof.
  intros Hs Hlive Hnone.
  rewrite (stream_all_buffers session s chunks st Hs Hlive), Hnone.
  cbn [app]. eexists _, _. split; [reflexivity|].
  cbn [timers emitted]. split; [reflexivity|]. split; [reflexivity|].
  rewrite <- (length_map
                (fun chunk => (STREAM_BUFFER_MS, (id s, stream_event chunk)))
                chunks) at 1.
  rewrite fire_timers_emits by reflexivity.
  cbn [emitted timers]. split; [reflexivity|].
  rewrite map_map. cbn [snd]. split; reflexivity.
Qed.

(** *** Sessions made and sessions recovered *)

Lemma allocate_fresh (s : AgentSession) (st : State) :
  heap W st !! fresh (dom (heap W st)) = None.
Proof. apply not_elem_of_dom. apply is_fresh. Qed.

(** [initializeSession] registers the new session under its id, leaves
    the sessions under other ids alone, and the status of the new session
    is at once the initial one: INITIALIZING, phase ANALYSIS, iteration 0,
    progress 0, mode AGENTIC unless the options name one, not terminated. *)
Theorem initializeSession_registers_session
    (sessionId userId projectId initialPrompt : string)
    (options : SessionOptions) (st : State) :
  exists session st',
    initializeSession sessionId userId projectId initialPrompt options st
    = (Ok session, st')
    /\ heap W st !! session = None
    /\ getSessionStatus sessionId st'
       = (Ok (Some (SessionStatus.mk sessionId INITIALIZING ANALYSIS
                      (default AGENTIC (option_mode options)) 0 0%float
                      false)), st')
    /\ (forall other, other <> sessionId ->
          activeSessions W st' !! other = activeSessions W st !! other)
    /\ (forall other, other <> session ->
          heap W st' !! other = heap W st !! other)
    /\ emitted W st' = emitted W st.
Proof.
  set (c := mkContext sessionId userId projectId INITIALIZING
              (default AGENTIC (option_mode options)) ANALYSIS 0 initialPrompt
              JNull ∅ [] (Date_now (clock_reads W st))
              (option_modelConfig options) (option_templateId options)).
  set (session := fresh (dom (heap W st))).
  exists session.
  exists (mkCore W (<[session := mkSession sessionId c false]> (heap W st))
            (<[sessionId := session]> (activeSessions W st))
            (createSession c (store W st)) (emitted W st) (analytics W st)
            (timers W st) (S (clock_reads W st)) (world W st)).
  split; [reflexivity|].
  split; [apply (allocate_fresh (mkSession sessionId c false))|].
  split.
  { unfold Core.getSessionStatus. cbn [activeSessions].
    rewrite lookup_insert_eq.
    unfold bind, getStatus, bind, deref. cbn [heap].
    rewrite lookup_insert_eq. cbn. reflexivity. }
  split.
  { intros other Hother. cbn [activeSessions].
    apply lookup_insert_ne. congruence. }
  split; [|reflexivity].
  intros other Hother. cbn [heap]. apply lookup_insert_ne. congruence.
Qed.

Lemma recoverSession_restores_status_aux (sessionId : string) (st : State) :
  (getSession sessionId (store W st) = None ->
   recoverSession sessionId st = (Ok None, st))
  /\ (forall c,
        getSession sessionId (store W st) = Some c ->
        exists session st',
          recoverSession sessionId st = (Ok (Some session), st')
          /\ heap W st' !! session = Some (mkSession sessionId c false)
          /\ activeSessions W st' !! sessionId = Some session
          /\ emitted W st' = emitted W st).
Proof.
  unfold Core.recoverSession. split.
  - intros ->. reflexivity.
  - intros c ->.
    set (session := fresh (dom (heap W st))).
    exists session.
    exists (mkCore W (<[session := mkSession sessionId c false]> (heap W st))
              (<[sessionId := session]> (activeSessions W st))
              (store W st) (emitted W st) (analytics W st) (timers W st)
              (clock_reads W st) (world W st)).
    split; [reflexivity|].
    cbn [heap activeSessions emitted]. rewrite !lookup_insert_eq. auto.
Qed.

(** [recoverSession] on an id that the store does not have answers
    [null] and changes nothing.  On an id that it has, it registers a new
    session object on the stored context; the session is not terminated,
    whatever its stored status, and its status is reported from that
    context. *)
Theorem recoverSession_restores_status (sessionId : string) (st : State) :
  (getSession sessionId (store W st) = None ->
   recoverSession sessionId st = (Ok None, st))
  /\ (forall c,
        getSession sessionId (store W st) = Some c ->
        exists session st',
          recoverSession sessionId st = (Ok (Some session), st')
          /\ heap W st !! session = None
          /\ heap W st' !! session = Some (mkSession sessionId c false)
          /\ activeSessions W st' !! sessionId = Some session
          /\ getSessionStatus sessionId st'
             = (Ok (Some (SessionStatus.mk sessionId (status c) (phase c)
                            (mode c) (iteration c) (calculateProgress c)
                            false)), st')
          /\ store W st' = store W st
          /\ emitted W st' = emitted W st).
Proof.
  unfold Core.recoverSession. split.
  - intros ->. reflexivity.
  - intros c ->.
    set (session := fresh (dom (heap W st))).
    exists session.
    exists (mkCore W (<[session := mkSession sessionId c false]> (heap W st))
              (<[sessionId := session]> (activeSessions W st))
              (store W st) (emitted W st) (analytics W st) (timers W st)
              (clock_reads W st) (world W st)).
    split; [reflexivity|].
    split; [apply (allocate_fresh (mkSession sessionId c false))|].
    cbn [heap activeSessions store emitted].
    rewrite !lookup_insert_eq.
    split; [reflexivity|]. split; [reflexivity|].
    split; [|split; reflexivity].
    unfold Core.getSessionStatus. cbn [activeSessions].
    rewrite lookup_insert_eq.
    unfold bind, getStatus, bind, deref. cbn [heap].
    rewrite lookup_insert_eq. reflexivity.
Qed.


End OrchestratorFacts.

(** ** The build trigger *)

Section BuildFacts.

Import Behavior.

Lemma turn_keeps_flag (this : BaseCodingBehavior) (t : Turn) :
  flag_matches_builds this -> flag_matches_builds (turn this t).
Proof.
  unfold flag_matches_builds.
  destruct this as [[promise|] inputs images sent n k];
    destruct t as [|userMessage images'| |outcome];
    cbn; intros Hflag; try assumption; try lia.
  all: try (destruct images' as [[|image more]|]; cbn; assumption).
Qed.

Lemma turns_keep_flag (turns : list Turn) (this : BaseCodingBehavior) :
  flag_matches_builds this -> flag_matches_builds (fold_left turn turns this).
Proof.
  revert this. induction turns as [|t turns IH]; intros this Hflag;
    [exact Hflag|].
  cbn [fold_left]. apply IH, turn_keeps_flag, Hflag.
Qed.

(** C8.  While a build is in flight ([generationPromise] is not [null]),
    [triggerBuild] returns the behaviour as it was: no field changes and
    [build] is not called.  The test and the assignment are one turn of the
    event loop, so that over any sequence of turns from a fresh behaviour
    (triggers, user inputs, steps and settlements of the build) at most
    one build is in flight, and one is in flight exactly when the flag is
    set. *)
Theorem triggerBuild_single_flight (this : BaseCodingBehavior) :
  isCodeGenerating this = true ->
  triggerBuild this = this
  /\ builds_started (triggerBuild this) = builds_started this
  /\ forall turns : list Turn,
      (builds_in_flight (fold_left turn turns fresh) <= 1)%nat
      /\ (isCodeGenerating (fold_left turn turns fresh) = true <->
          builds_in_flight (fold_left turn turns fresh) = 1%nat).
Proof.
  intros Hflight. unfold isCodeGenerating in Hflight.
  assert (Hsame : triggerBuild this = this).
  { unfold triggerBuild. destruct (generationPromise this);
      [reflexivity|discriminate]. }
  split; [exact Hsame|]. split; [rewrite Hsame; reflexivity|].
  intros turns.
  pose proof (turns_keep_flag turns fresh eq_refl) as Hflag.
  unfold flag_matches_builds, builds_in_flight, isCodeGenerating in *.
  destruct (generationPromise (fold_left turn turns fresh)).
  - split; [lia|]. split; [lia|reflexivity].
  - split; [lia|]. split; [discriminate|lia].
Qed.

(** *** The queue of user requests *)

Lemma handleUserInput_queues userMessage images (this : BaseCodingBehavior) :
  pendingUserInputs (handleUserInput userMessage images this)
  = pendingUserInputs this ++ [userMessage].
Proof.
  unfold handleUserInput, isCodeGenerating, triggerBuild. cbn.
  destruct (generationPromise this); reflexivity.
Qed.

(** Every message handed to [handleUserInput] reaches the build: the
    next [fetchPendingUserRequests] returns what was pending before and
    then all the messages, in the order they came, and empties the queue, so
    that a second fetch returns nothing. *)
Theorem pending_requests_are_fetched_in_order
    (inputs : list (string * option (list JsValue)))
    (this : BaseCodingBehavior) :
  let queued :=
    fold_left (fun b input => handleUserInput (fst input) (snd input) b)
      inputs this in
  fst (fetchPendingUserRequests queued)
  = pendingUserInputs this ++ map fst inputs
  /\ fst (fetchPendingUserRequests (snd (fetchPendingUserRequests queued))) = []
  /\ isCodeGenerating (snd (fetchPendingUserRequests queued))
     = isCodeGenerating queued.
Proof.
  cbv zeta. split; [|split; reflexivity].
  cbn [fetchPendingUserRequests fst].
  revert this. induction inputs as [|[userMessage images] inputs IH];
    intros this.
  - cbn. rewrite app_nil_r. reflexivity.
  - cbn [fold_left map fst snd]. rewrite IH, handleUserInput_queues.
    rewrite <- app_assoc. reflexivity.
Qed.

Lemma turn_keeps_images (this : BaseCodingBehavior) (t : Turn) :
  pendingUserImages this `prefix_of` pendingUserImages (turn this t).
Proof.
  destruct this as [[promise|] inputs images sent n k];
    destruct t as [|userMessage images'| |outcome]; cbn;
    try reflexivity;
    try (destruct images' as [[|image more]|]; cbn;
         try reflexivity; apply prefix_app_r; reflexivity).
Qed.

(** The queue of images is never emptied: fetching the pending requests
    returns and clears the messages and leaves the images, and over any
    sequence of triggers, user inputs, fetches and settlements of builds the
    images queued before are still queued, in front of the later ones. *)
Theorem pending_images_are_never_cleared (turns : list Turn)
    (this : BaseCodingBehavior) :
  pendingUserImages (snd (fetchPendingUserRequests this))
  = pendingUserImages this
  /\ pendingUserImages this
     `prefix_of` pendingUserImages (fold_left turn turns this).
Proof.
  split; [reflexivity|].
  revert this. induction turns as [|t turns IH]; intros this; [reflexivity|].
  cbn [fold_left]. etransitivity; [apply turn_keeps_images|apply IH].
Qed.

(** [handleUserInput] is [queueUserRequest] followed by [triggerBuild]
    when no build is in flight: the two functions test the images in
    different ways and queue the same; and after [handleUserInput] a build
    is always in flight, started by this call or running before it. *)
Theorem handleUserInput_queues_then_builds (userMessage : string)
    (images : option (list JsValue)) (this : BaseCodingBehavior) :
  handleUserInput userMessage images this
  = (if isCodeGenerating this
     then queueUserRequest userMessage images this
     else triggerBuild (queueUserRequest userMessage images this))
  /\ isCodeGenerating (handleUserInput userMessage images this) = true
  /\ builds_started (handleUserInput userMessage images this)
     = (if isCodeGenerating this then builds_started this
        else S (builds_started this)).
Proof.
  unfold handleUserInput, queueUserRequest, isCodeGenerating, triggerBuild.
  destruct this as [[promise|] inputs queued sent n k];
    destruct images as [[|image more]|]; cbn; rewrite ?app_nil_r; auto.
Qed.

End BuildFacts.

(** * The properties at work *)





(** C7 on a body cut in the middle of its lines, for the OpenAI-style
    parser: a comment line, a data frame without choices, a blank line,
    the sentinel and the line feeds after it. *)
Lemma unrecognized_frames_complete_empty_example :
  Infer.createStreamIterator Scenario.parse Scenario.stringify
    Scenario.quiet_body "openai"
  = Infer.mkRun [Infer.ChunkComplete] None
  /\ fst (Operations.streamInference unit Scenario.quiet_model Scenario.parse
            Scenario.to_string [] Scenario.tools Scenario.config
            Scenario.callbacks Scenario.fresh_operation)
     = Ok (Operations.complete "")
  /\ fst (Operations.runInferenceWithTools unit Scenario.clock
            Scenario.quiet_model Scenario.parse Scenario.serialise
            Scenario.to_string [] Scenario.tools Scenario.config
            Scenario.callbacks Scenario.fresh_operation)
     = Ok "".
Proof.
  destruct (unrecognized_frames_complete_empty unit Scenario.clock
              Scenario.quiet_model Scenario.parse Scenario.stringify
              Scenario.serialise Scenario.to_string Scenario.quiet_body
              "openai" ["event: ping"; "data: {}"; ""] "data: [DONE]" [""; ""]
              [] Scenario.tools Scenario.config Scenario.callbacks
              Scenario.fresh_operation)
    as (Hended & _).
  - vm_compute. reflexivity.
  - vm_compute. reflexivity.
  - vm_compute. reflexivity.
  - reflexivity.
  - destruct (Hended ltac:(discriminate)) as (Hrun & Hstream & Hloop).
    split; [exact Hrun|]. split; [exact Hstream|].
    apply Hloop. vm_compute. discriminate.
Defined.

(** C7 as stated fails on a body that ends with the sentinel itself.  The
    body has one data frame without choices and then [data: [DONE]] with no
    line feed after it: its frames are all unrecognized and it ends with the
    sentinel, but the reader only parses lines that a line feed has ended,
    so the normalized stream has no completion chunk at all. *)
Lemma sentinel_without_line_feed_counterexample :
  Infer.body_text Scenario.unfinished_body
  = String.append "data: {}" (String newline "data: [DONE]")
  /\ Infer.unrecognized Scenario.parse Scenario.stringify "openai" "data: {}"
     = true
  /\ Infer.is_sentinel "data: [DONE]" = true
  /\ Infer.createStreamIterator Scenario.parse Scenario.stringify
       Scenario.unfinished_body "openai"
     = Infer.mkRun [] None
  /\ (Infer.ChunkComplete
      ∉ Infer.events
          (Infer.createStreamIterator Scenario.parse Scenario.stringify
             Scenario.unfinished_body "openai"))
  /\ length (Infer.events
               (Infer.createStreamIterator Scenario.parse Scenario.stringify
                  Scenario.unfinished_body "openai"))
     <> 1%nat.
Proof.
  split; [vm_compute; reflexivity|]. split; [vm_compute; reflexivity|].
  split; [vm_compute; reflexivity|]. split; [vm_compute; reflexivity|].
  split; [|vm_compute; discriminate].
  replace (Infer.createStreamIterator Scenario.parse Scenario.stringify
             Scenario.unfinished_body "openai")
    with (Infer.mkRun [] None) by (vm_compute; reflexivity).
  cbn. apply not_elem_of_nil.
Qed.



(** C10 on a history of three messages and a limit of one token: the
    last message alone is kept. *)
Lemma truncateMessages_recent_suffix_example :
  0 <= 1
  /\ Scenario.history <> []
  /\ Infer.truncateMessages Scenario.stringify_parts Scenario.history 1
     = drop 2 Scenario.history
  /\ Infer.truncateMessages Scenario.stringify_parts Scenario.history 1 <> []
  /\ last (Infer.truncateMessages Scenario.stringify_parts Scenario.history 1)
     = last Scenario.history.
Proof.
  assert (Hlimit : 0 <= 1) by lia.
  assert (Hne : Scenario.history <> []) by discriminate.
  destruct (truncateMessages_recent_suffix Scenario.stringify_parts
              Scenario.history 1 Hlimit) as (_ & _ & Hkept).
  destruct (Hkept Hne) as [Hsome Hlast].
  split; [exact Hlimit|]. split; [exact Hne|].
  split; [vm_compute; reflexivity|]. split; [exact Hsome|exact Hlast].
Defined.

(** C8 on a behaviour with a build in flight. *)
Lemma triggerBuild_single_flight_example :
  Behavior.isCodeGenerating Scenario.building = true
  /\ Behavior.triggerBuild Scenario.building = Scenario.building
  /\ Behavior.builds_in_flight
       (fold_left Behavior.turn
          [Behavior.trigger; Behavior.trigger;
           Behavior.user_input "add dark mode" None; Behavior.trigger]
          Behavior.fresh)
     = 1%nat.
Proof.
  assert (Hflight : Behavior.isCodeGenerating Scenario.building = true)
    by reflexivity.
  destruct (triggerBuild_single_flight Scenario.building Hflight)
    as (Hsame & _ & Hturns).
  split; [exact Hflight|]. split; [exact Hsame|].
  apply (Hturns [Behavior.trigger; Behavior.trigger;
                 Behavior.user_input "add dark mode" None; Behavior.trigger]).
  reflexivity.
Defined.

(** C3 on the live session: a tool name under which the toolkit has
    nothing; the name [constructor], which the toolkit inherits; and the
    first name again with an analytics collaborator that is down. *)
Lemma executeToolCall_unknown_tool_example :
  Core.activeSessions unit Scenario.one_session !! "session-1" = Some 0%nat
  /\ Core.toolkit_get unit Scenario.toolkit "deploy_now" = Core.no_property
  /\ Core.toolkit_get unit Scenario.toolkit "constructor"
     = Core.inherited_property
  /\ fst (Core.executeToolCall unit Scenario.clock Scenario.toolkit
            Scenario.serialise Scenario.accepting_log "session-1"
            (Core.mkToolCall "call-1" "deploy_now" JNull) Scenario.one_session)
     = Ok (Core.mkResult false None (Some "Unknown tool: deploy_now") 1000)
  /\ fst (Core.executeToolCall unit Scenario.clock Scenario.toolkit
            Scenario.serialise Scenario.accepting_log "session-1"
            (Core.mkToolCall "call-2" "constructor" JNull) Scenario.one_session)
     = Ok (Core.mkResult false None (Some "tool.execute is not a function")
             1000)
  /\ fst (Core.executeToolCall unit Scenario.clock Scenario.toolkit
            Scenario.serialise Scenario.rejecting_log "session-1"
            (Core.mkToolCall "call-1" "deploy_now" JNull) Scenario.one_session)
     = Throw (ThrownError (new_Error "analytics unavailable")).
Proof.
  assert (Hlive :
            Core.activeSessions unit Scenario.one_session !! "session-1"
            = Some 0%nat) by (vm_compute; reflexivity).
  assert (Hnone : Core.toolkit_get unit Scenario.toolkit "deploy_now"
                  = Core.no_property) by (vm_compute; reflexivity).
  assert (Hinherited : Core.toolkit_get unit Scenario.toolkit "constructor"
                       = Core.inherited_property) by (vm_compute; reflexivity).
  split; [exact Hlive|]. split; [exact Hnone|]. split; [exact Hinherited|].
  split; [|split].
  - rewrite (proj1 (proj1 (executeToolCall_unknown_tool unit Scenario.clock
                             Scenario.toolkit Scenario.serialise
                             Scenario.accepting_log "session-1"
                             (Core.mkToolCall "call-1" "deploy_now" JNull)
                             Scenario.one_session)
                      0%nat Hlive) Hnone).
    reflexivity.
  - rewrite (proj2 (proj1 (executeToolCall_unknown_tool unit Scenario.clock
                             Scenario.toolkit Scenario.serialise
                             Scenario.accepting_log "session-1"
                             (Core.mkToolCall "call-2" "constructor" JNull)
                             Scenario.one_session)
                      0%nat Hlive) Hinherited).
    reflexivity.
  - rewrite (proj1 (proj1 (executeToolCall_unknown_tool unit Scenario.clock
                             Scenario.toolkit Scenario.serialise
                             Scenario.rejecting_log "session-1"
                             (Core.mkToolCall "call-1" "deploy_now" JNull)
                             Scenario.one_session)
                      0%nat Hlive) Hnone).
    reflexivity.
Defined.

(** C3 as stated fails on the error text: for the unregistered tool
    [deploy_now] the result's error is ["Unknown tool: deploy_now"], not
    ["Tool not found: deploy_now"]. *)
Lemma executeToolCall_error_text_counterexample :
  exists result,
    fst (Core.executeToolCall unit Scenario.clock Scenario.toolkit
           Scenario.serialise Scenario.accepting_log "session-1"
           (Core.mkToolCall "call-1" "deploy_now" JNull) Scenario.one_session)
    = Ok result
    /\ Core.success result = false
    /\ Core.error result = Some "Unknown tool: deploy_now"
    /\ Core.error result <> Some "Tool not found: deploy_now".
Proof.
  eexists. split; [vm_compute; reflexivity|].
  split; [reflexivity|]. split; [reflexivity|]. discriminate.
Qed.



(** C5 at the failing input: the session of the scenario is terminated
    and then failed.  After the termination [stream] and [complete] change
    nothing, but [fail] emits an error event after the terminated event. *)
Theorem fail_after_terminate_emits_error :
  let cancelled :=
    snd (Core.terminate unit Scenario.clock 0 (Some "user cancelled")
           Scenario.one_session) in
  Core.stream unit 0 (JStr "chunk") cancelled = (Ok tt, cancelled)
  /\ Core.complete unit Scenario.clock 0 cancelled = (Ok tt, cancelled)
  /\ Core.emitted unit cancelled
     = [("session-1", Core.terminated_event (Some "user cancelled") 0)]
  /\ Core.emitted unit
       (snd (Core.fail unit Scenario.clock false Scenario.no_stack 0
               (new_Error "phase crashed") cancelled))
     = [("session-1", Core.terminated_event (Some "user cancelled") 0);
        ("session-1", Core.error_event "phase crashed" None 1000)].
Proof.
  cbv zeta.
  assert (Hobject :
            Core.heap unit
              (snd (Core.terminate unit Scenario.clock 0
                      (Some "user cancelled") Scenario.one_session))
              !! 0%nat
            = Some (Core.mkSession "session-1" Scenario.todo_context true))
    by (vm_compute; reflexivity).
  split; [exact (stream_after_terminate_silent unit 0 _ _ _ Hobject eq_refl)|].
  split; [exact (complete_after_terminate_silent unit Scenario.clock 0 _ _
                   Hobject eq_refl)|].
  split; [vm_compute; reflexivity|].
  destruct (fail_always_emits unit Scenario.clock false Scenario.no_stack 0 _
              (new_Error "phase crashed") _ Hobject) as (st' & Hfail & Hemitted).
  rewrite Hfail. cbn [snd]. rewrite Hemitted. vm_compute. reflexivity.
Qed.

(** A chunk streamed before the termination is still emitted after it:
    the timer set by [stream] fires without testing the flag again. *)
Lemma buffered_stream_emits_after_terminate :
  Core.emitted unit
    (snd (Core.fire_timer unit
            (snd (Core.terminate unit Scenario.clock 0 (Some "user cancelled")
                    (snd (Core.stream unit 0 (JStr "chunk")
                            Scenario.one_session))))))
  = [("session-1", Core.terminated_event (Some "user cancelled") 0);
     ("session-1", Core.stream_event (JStr "chunk"))].
Proof. vm_compute. reflexivity. Qed.

(** The store of the scenario overwrites: writing a status twice is
    writing it once. *)
Lemma overwrite_store_idempotent (sessionId : string)
    (newStatus : GenerationStatus) (reason : option string)
    (saved : gmap string Scenario.Persisted) :
  Core.updateSessionStatus sessionId newStatus reason
    (Core.updateSessionStatus sessionId newStatus reason saved)
  = Core.updateSessionStatus sessionId newStatus reason saved.
Proof.
  cbn. rewrite lookup_insert_eq. cbn. apply insert_insert_eq.
Qed.

(** C9 on the session of the scenario. *)
Lemma terminateSession_idempotent_example :
  exists st1,
    Core.terminateSession unit Scenario.clock "session-1" (Some "user cancelled")
      Scenario.one_session = (Ok tt, st1)
    /\ Core.terminateSession unit Scenario.clock "session-1"
         (Some "user cancelled") st1 = (Ok tt, st1)
    /\ Core.activeSessions unit st1 !! "session-1" = None
    /\ Core.isTerminated <$> Core.heap unit st1 !! 0%nat = Some true
    /\ Scenario.saved_status <$> Core.store unit st1 !! "session-1"
       = Some TERMINATED.
Proof.
  destruct (terminateSession_idempotent unit Scenario.clock "session-1"
              (Some "user cancelled") Scenario.one_session)
    as (st1 & Hfirst & Hsecond & Hgone & Hstore & Hflag).
  - intros saved. apply overwrite_store_idempotent.
  - intros session Hlive. vm_compute in Hlive. injection Hlive as <-.
    eexists. vm_compute. reflexivity.
  - exists st1. split; [exact Hfirst|]. split; [exact Hsecond|].
    split; [exact Hgone|]. split; [apply Hflag; vm_compute; reflexivity|].
    rewrite Hstore. vm_compute. reflexivity.
Defined.

(** The reader on one text cut in two ways. *)
Lemma createStreamIterator_cut_independent_example :
  Infer.createStreamIterator Scenario.parse Scenario.stringify
    Scenario.quiet_body "openai"
  = Infer.createStreamIterator Scenario.parse Scenario.stringify
      Scenario.quiet_body_whole "openai".
Proof.
  apply createStreamIterator_cut_independent; reflexivity.
Defined.

(** The inference wrapper on an operation that is forbidden, under
    options that refuse to retry it, and on an operation whose host is never
    reachable, under the defaults. *)
Lemma inference_withRetry_policy_example :
  Infer.withRetry Scenario.to_string Scenario.forbidden
    Scenario.unless_forbidden Scenario.first_try
  = (Throw (ThrownError (new_Error "403 forbidden")), mkRetry 1%nat 1%nat [] 0%nat)
  /\ exists st',
      Infer.withRetry Scenario.to_string Scenario.unreachable
        Infer.default_options Scenario.first_try
      = (Throw (ThrownError (new_Error "network_error: host unreachable")), st')
      /\ invocations st' = 3%nat.
Proof.
  split.
  - apply (proj1 (inference_withRetry_policy Scenario.to_string
                    Scenario.forbidden Scenario.first_try)
             Scenario.unless_forbidden (new_Error "403 forbidden") 1%nat);
      [cbn; lia|reflexivity|vm_compute; reflexivity].
  - apply (proj2 (inference_withRetry_policy Scenario.to_string
                    Scenario.unreachable Scenario.first_try)
             (new_Error "network_error: host unreachable")
             (new_Error "network_error: host unreachable")
             (new_Error "network_error: host unreachable")
             1%nat 2%nat 3%nat); reflexivity.
Defined.

(** The history of the scenario under a limit of 20 tokens: the last two
    messages, of 13 and 7 tokens, are kept, and the first one, of 4 tokens,
    is dropped. *)
Lemma truncateMessages_within_budget_example :
  (1 < length (Infer.truncateMessages Scenario.stringify_parts
                 Scenario.history 20))%nat
  /\ Infer.truncateMessages Scenario.stringify_parts Scenario.history 20
     = drop 1 Scenario.history
  /\ Infer.total_tokens Scenario.stringify_parts
       (Infer.truncateMessages Scenario.stringify_parts Scenario.history 20)
     <= 20.
Proof.
  assert (Hmany : (1 < length (Infer.truncateMessages Scenario.stringify_parts
                                 Scenario.history 20))%nat)
    by (vm_compute; lia).
  split; [exact Hmany|]. split; [vm_compute; reflexivity|].
  exact (truncateMessages_within_budget Scenario.stringify_parts
           Scenario.history 20 Hmany).
Defined.

(** Under 24 tokens the whole history fits and comes back unchanged; under
    20 the first message is dropped because its 4 tokens do not fit with
    the 20 of the two messages kept. *)
Lemma truncateMessages_longest_suffix_example :
  Infer.truncateMessages Scenario.stringify_parts Scenario.history 24
  = Scenario.history
  /\ 20 < Infer.message_tokens Scenario.stringify_parts
            (mkMessage role_user (ContentString "build a todo app") None None)
          + Infer.total_tokens Scenario.stringify_parts
              (drop 1 Scenario.history).
Proof.
  split.
  - apply (proj1 (truncateMessages_longest_suffix Scenario.stringify_parts
                    Scenario.history 24)).
    vm_compute. discriminate.
  - apply (proj2 (truncateMessages_longest_suffix Scenario.stringify_parts
                    Scenario.history 20) []); vm_compute; reflexivity.
Defined.

(** The history of the scenario under limits of 1 and of 20 tokens. *)
Lemma truncateMessages_monotone_example :
  1 <= 20
  /\ drop 2 Scenario.history `suffix_of` drop 1 Scenario.history.
Proof.
  assert (Hle : 1 <= 20) by lia.
  split; [exact Hle|].
  exact (truncateMessages_monotone Scenario.stringify_parts Scenario.history
           1 20 Hle).
Defined.

(** The reader on a body with two content frames: the second piece is
    among the chunks, and it is truthy. *)
Lemma createStreamIterator_content_truthy_example :
  Infer.ChunkContent (JStr "world")
    ∈ Infer.events
        (Infer.createStreamIterator Scenario.parse_delta Scenario.stringify
           Scenario.chatty_body "openai")
  /\ js_truthy (JStr "world") = true.
Proof.
  assert (Hin : Infer.ChunkContent (JStr "world")
                  ∈ Infer.events
                      (Infer.createStreamIterator Scenario.parse_delta
                         Scenario.stringify Scenario.chatty_body "openai")).
  { apply (list_elem_of_lookup_2 _ 1%nat). vm_compute. reflexivity. }
  split; [exact Hin|].
  exact (createStreamIterator_content_truthy Scenario.parse_delta
           Scenario.stringify Scenario.chatty_body "openai" _ Hin).
Defined.

(** The same body read for a provider that has no parser: the two
    content frames are lost and the completion chunk is all there is. *)
Lemma createStreamIterator_unparsed_provider_example :
  ("ollama" ∉ Infer.parsed_providers)
  /\ Infer.createStreamIterator Scenario.parse_delta Scenario.stringify
       Scenario.chatty_body "ollama"
     = Infer.mkRun [Infer.ChunkComplete] None.
Proof.
  assert (Hout : "ollama" ∉ Infer.parsed_providers).
  { unfold Infer.parsed_providers. rewrite !not_elem_of_cons.
    repeat (split; [discriminate|]). apply not_elem_of_nil. }
  split; [exact Hout|].
  destruct (createStreamIterator_unparsed_provider Scenario.parse_delta
              Scenario.stringify Scenario.chatty_body "ollama" Hout)
    as [Hempty|Hsentinel]; [|exact Hsentinel].
  vm_compute in Hempty. discriminate Hempty.
Defined.

(** A turn of the model that answers with content and three calls: the
    callback has received the one piece of content, which is the content
    returned with the calls. *)
Lemma streamInference_returns_what_it_streamed_example :
  Operations.streamCb unit Scenario.callbacks = true
  /\ Operations.streamed unit
       (snd (Operations.streamInference unit Scenario.eager_model
               Scenario.parse Scenario.to_string [] Scenario.tools
               Scenario.config Scenario.callbacks Scenario.fresh_operation))
     = [JStr "working"]
  /\ "working"
     = fold_right String.append ""
         (map (Operations.js_string Scenario.to_string) [JStr "working"]).
Proof.
  split; [reflexivity|].
  pose proof (streamInference_returns_what_it_streamed unit
                Scenario.eager_model Scenario.parse Scenario.to_string []
                Scenario.tools Scenario.config Scenario.callbacks
                Scenario.fresh_operation eq_refl) as Hturn.
  cbv zeta in Hturn.
  change (Scenario.eager_model
            (Operations.infer_calls unit Scenario.fresh_operation) []
            (map (Operations.schema_of unit) Scenario.tools))
    with (Ok (Infer.mkRun
                [Infer.ChunkContent (JStr "working");
                 Infer.ChunkToolCall Scenario.batch] None)) in Hturn.
  cbv iota in Hturn.
  destruct Hturn as (_ & Hall).
  exact (Hall "working"
           (or_intror (ex_intro _ Scenario.calls eq_refl))).
Defined.





(** A turn on a Gemini stream. *)
Lemma google_stream_calls_no_tool_example :
  (exists text,
      fst (Operations.streamInference unit Scenario.gemini_model
             Scenario.parse Scenario.to_string [] Scenario.tools
             Scenario.config Scenario.callbacks Scenario.fresh_operation)
      = Ok (Operations.complete text))
  \/ (exists reason,
        fst (Operations.streamInference unit Scenario.gemini_model
               Scenario.parse Scenario.to_string [] Scenario.tools
               Scenario.config Scenario.callbacks Scenario.fresh_operation)
        = Ok (Operations.error_response reason)).
Proof.
  exact (google_stream_calls_no_tool unit Scenario.gemini_model Scenario.parse
           Scenario.stringify Scenario.to_string [] Scenario.tools
           Scenario.config Scenario.callbacks Scenario.fresh_operation
           Scenario.quiet_body eq_refl).
Defined.

(** A call to a tool that the operation does not have. *)
Lemma executeToolCalls_unavailable_tools_example :
  Operations.executeToolCalls unit Scenario.serialise Scenario.to_string
    [Operations.mkToolCall (JStr "call-2") (JStr "deploy_now") (JObj [])]
    Scenario.tools Scenario.callbacks Scenario.fresh_operation
  = (Ok [Operations.error_result "Tool not found: deploy_now"],
     Scenario.fresh_operation).
Proof.
  apply (executeToolCalls_unavailable_tools unit Scenario.serialise
           Scenario.to_string
           [Operations.mkToolCall (JStr "call-2") (JStr "deploy_now") (JObj [])]
           Scenario.tools Scenario.callbacks Scenario.fresh_operation).
  intros toolCall Hin. rewrite elem_of_cons in Hin.
  destruct Hin as [->|Hin]; [reflexivity|destruct (not_elem_of_nil _ Hin)].
Defined.

(** A tool that writes its file, under a completion callback that
    throws: the call is answered with the callback's message. *)
Lemma failed_completion_callback_masks_result_example :
  Operations.executeToolCalls unit Scenario.serialise Scenario.to_string
    [Operations.mkToolCall (JStr "call-1") (JStr "write_file") (JObj [])]
    Scenario.tools Scenario.strict_callbacks Scenario.fresh_operation
  = (Ok [Operations.error_result "history is full"],
     Operations.mkOp unit tt 0 0 []
       [Operations.mkRender (JStr "write_file") Operations.status_running
          (JObj []) None None;
        Operations.mkRender (JStr "write_file") Operations.status_success
          (JObj []) (Some (JStr "written")) None;
        Operations.mkRender (JStr "write_file") Operations.status_error
          (JObj []) None (Some "history is full")]).
Proof.
  exact (failed_completion_callback_masks_result unit Scenario.serialise
           Scenario.to_string
           (Operations.mkToolCall (JStr "call-1") (JStr "write_file") (JObj []))
           Scenario.write_file Scenario.tools Scenario.strict_callbacks
           Scenario.fresh_operation Scenario.history_full (JStr "written")
           (Some "written") tt tt tt tt
           (ThrownError (new_Error "history is full"))
           eq_refl eq_refl eq_refl eq_refl eq_refl eq_refl eq_refl).
Defined.


(** The session of the scenario, terminated while its behaviour still
    streams. *)
Lemma terminated_session_is_silent_example :
  let cancelled :=
    snd (Core.terminate unit Scenario.clock 0 (Some "user left")
           Scenario.one_session) in
  Core.stream_all unit 0 [JStr "index.html"; JStr "app.js"] cancelled
  = (Ok tt, cancelled)
  /\ Core.complete unit Scenario.clock 0 cancelled = (Ok tt, cancelled).
Proof.
  pose proof (terminated_session_is_silent unit Scenario.clock 0
                Scenario.todo_session (Some "user left") Scenario.one_session
                eq_refl) as Hsilent.
  cbv zeta in Hsilent |- *. destruct Hsilent as (Hstream & _ & Hcomplete).
  split; [apply Hstream|exact Hcomplete].
Defined.

(** The session of the scenario after [terminateSession]: a tool call
    for it is refused. *)
Lemma terminated_session_is_gone_example :
  let st1 :=
    snd (Core.terminateSession unit Scenario.clock "session-1"
           (Some "user left") Scenario.one_session) in
  Core.executeToolCall unit Scenario.clock Scenario.toolkit Scenario.serialise
    Scenario.accepting_log "session-1"
    (Core.mkToolCall "call-1" "read_file" JNull) st1
  = (Throw (ThrownError (new_Error "Session not found: session-1")), st1).
Proof.
  pose proof (terminated_session_is_gone unit Scenario.clock Scenario.toolkit
                Scenario.serialise Scenario.accepting_log "session-1"
                (Some "user left") Scenario.one_session) as Hgone.
  cbv zeta in Hgone |- *.
  destruct Hgone as (_ & Hrefused & _).
  - intros session Hlive. vm_compute in Hlive. injection Hlive as <-.
    eexists. vm_compute. reflexivity.
  - apply Hrefused.
Defined.

(** Three calls for the live session, with an analytics collaborator that
    takes every record: a tool that the toolkit has is answered with its
    result; the tool that resolves with [undefined] and the tool that the
    timeout overtakes are answered as failures; each call leaves one
    record. *)
Lemma executeToolCall_answers_and_logs_example :
  (exists entry st',
      Core.executeToolCall unit Scenario.clock Scenario.toolkit
        Scenario.serialise Scenario.accepting_log "session-1"
        (Core.mkToolCall "call-1" "read_file" JNull) Scenario.one_session
      = (Ok (Core.mkResult true (Some (JStr "contents")) None 1000), st')
      /\ Core.analytics unit st' = [entry]
      /\ Core.toolName entry = "read_file"
      /\ Core.log_success entry = true)
  /\ (exists result entry st',
         Core.executeToolCall unit Scenario.clock Scenario.toolkit
           Scenario.serialise Scenario.accepting_log "session-1"
           (Core.mkToolCall "call-2" "clear_cache" JNull) Scenario.one_session
         = (Ok result, st')
         /\ Core.analytics unit st' = [entry]
         /\ Core.success result = false
         /\ Core.error result
            = Some "Cannot read properties of undefined (reading 'length')")
  /\ (exists result entry st',
         Core.executeToolCall unit Scenario.clock Scenario.toolkit
           Scenario.serialise Scenario.accepting_log "session-1"
           (Core.mkToolCall "call-3" "run_build" JNull) Scenario.one_session
         = (Ok result, st')
         /\ Core.analytics unit st' = [entry]
         /\ Core.success result = false
         /\ Core.error result = Some "Tool timeout").
Proof.
  assert (Hlive :
            Core.activeSessions unit Scenario.one_session !! "session-1"
            = Some 0%nat) by (vm_compute; reflexivity).
  assert (Hs : Core.heap unit Scenario.one_session !! 0%nat
               = Some Scenario.todo_session) by (vm_compute; reflexivity).
  split; [|split].
  - destruct (executeToolCall_answers_and_logs unit Scenario.clock
                Scenario.toolkit Scenario.serialise Scenario.accepting_log
                "session-1" (Core.mkToolCall "call-1" "read_file" JNull) 0
                Scenario.todo_session Scenario.one_session Hlive Hs)
      as (outcome & entries & entry & st' & Hrun & Hlog & _ & _ & Hname
          & Hagree & _ & Hone & _).
    destruct (Hone ltac:(reflexivity)) as (-> & result & ->).
    destruct Hagree as (_ & Hflag & _).
    assert (Hresult : result
                      = Core.mkResult true (Some (JStr "contents")) None 1000).
    { vm_compute in Hrun. injection Hrun as <- _. reflexivity. }
    subst result. exists entry, st'. auto.
  - destruct (executeToolCall_answers_and_logs unit Scenario.clock
                Scenario.toolkit Scenario.serialise Scenario.accepting_log
                "session-1" (Core.mkToolCall "call-2" "clear_cache" JNull) 0
                Scenario.todo_session Scenario.one_session Hlive Hs)
      as (outcome & entries & entry & st' & Hrun & Hlog & _ & _ & _ & _ & _
          & Hone & Htools).
    destruct (Hone ltac:(reflexivity)) as (-> & result & ->).
    destruct (proj2 (Htools _ tt result ltac:(vm_compute; reflexivity)
                       eq_refl) eq_refl) as [Hfailed Htext].
    exists result, entry, st'. auto.
  - destruct (executeToolCall_answers_and_logs unit Scenario.clock
                Scenario.toolkit Scenario.serialise Scenario.accepting_log
                "session-1" (Core.mkToolCall "call-3" "run_build" JNull) 0
                Scenario.todo_session Scenario.one_session Hlive Hs)
      as (outcome & entries & entry & st' & Hrun & Hlog & _ & _ & _ & _ & _
          & Hone & Htools).
    destruct (Hone ltac:(reflexivity)) as (-> & result & ->).
    destruct (proj1 (Htools _ tt result ltac:(vm_compute; reflexivity)
                       eq_refl) eq_refl) as [Hfailed Htext].
    exists result, entry, st'. auto.
Defined.

(** The same call of [read_file] with an analytics collaborator that is
    down: the success is logged and rejected, the failure is logged and
    rejected, and the rejection leaves [executeToolCall], though the tool
    has run. *)
Lemma executeToolCall_logging_rejected_example :
  exists st',
    Core.executeToolCall unit Scenario.clock Scenario.toolkit
      Scenario.serialise Scenario.rejecting_log "session-1"
      (Core.mkToolCall "call-1" "read_file" JNull) Scenario.one_session
    = (Throw (ThrownError (new_Error "analytics unavailable")), st')
    /\ map Core.log_success (Core.analytics unit st') = [true; false].
Proof. eexists. split; vm_compute; reflexivity. Qed.

(** Two chunks streamed on the session of the scenario: two timers, and
    after they have fired, two stream events in the order streamed. *)
Lemma streamed_chunks_are_emitted_in_order_example :
  exists buffered st',
    Core.stream_all unit 0 [JStr "index.html"; JStr "app.js"]
      Scenario.one_session = (Ok tt, buffered)
    /\ Core.fire_timers unit 2 buffered = (Ok tt, st')
    /\ Core.emitted unit st'
       = [("session-1", Core.stream_event (JStr "index.html"));
          ("session-1", Core.stream_event (JStr "app.js"))].
Proof.
  destruct (streamed_chunks_are_emitted_in_order unit 0 Scenario.todo_session
              [JStr "index.html"; JStr "app.js"] Scenario.one_session
              eq_refl eq_refl eq_refl)
    as (buffered & st' & Hstream & _ & _ & Hfire & Hemitted & _).
  exists buffered, st'. auto.
Defined.


